(** * build.py: the static blog builder, its text transformations

    A shallow embedding of [src/build.py]: the Markdown converter
    [md_to_html] with its inline formatter, the frontmatter parser
    [parse_frontmatter], the slug generator [slugify], the date parser
    [parse_date] and the newest-first sort of [build].

    A Python [str] is a sequence of Unicode code points: it is modelled as
    a list of code points, each an [N]. *)

From Stdlib Require Import NArith String Ascii.
From stdpp Require Import base list gmap.

Local Open Scope N_scope.

Abbreviation str := (list N).

(** Code points of an ASCII literal. *)
Definition ustr (s : string) : str :=
  List.map N_of_ascii (list_ascii_of_string s).
Arguments ustr s%_string.

(** ** Character classes of the interpreter *)

Definition in_range (lo hi c : N) : bool := (lo <=? c) && (c <=? hi).

(** [str.isspace] for one code point, which is also the class [\s] of [re]
    on [str] patterns and what [str.strip()] removes. *)
Definition is_space (c : N) : bool :=
  in_range 9 13 c || in_range 28 32 c || (c =? 133) || (c =? 160)
  || (c =? 5760) || in_range 8192 8202 c || (c =? 8232) || (c =? 8233)
  || (c =? 8239) || (c =? 8287) || (c =? 12288).

Definition is_ascii_upper (c : N) : bool := in_range 65 90 c.
Definition is_ascii_lower (c : N) : bool := in_range 97 122 c.
Definition is_ascii_digit (c : N) : bool := in_range 48 57 c.

Definition NL : N := 10.
Definition HYPHEN : N := 45.

(** [str.lower] for one code point.  The table holds the ASCII capitals and
    the two code points outside ASCII whose lowercase form contains an ASCII
    letter: U+0130 (capital I with dot above, lowercased to [i] followed by
    U+0307) and U+212A (Kelvin sign, lowercased to [k]).  Any other code
    point is kept: its lowercase form lies outside ASCII, as it does itself,
    and is neither whitespace nor a hyphen. *)
Definition lower_char (c : N) : str :=
  if is_ascii_upper c then [c + 32]
  else if c =? 304 then [105; 775]
  else if c =? 8490 then [107]
  else [c].

(** [str.lower] where the code points beyond ASCII that it changes are
    dropped or refused afterwards: in the slug generator, whose filter
    deletes them, and for the names of the months, which hold none. *)
Definition str_lower (s : str) : str := flat_map lower_char s.

(** The ASCII letters in small: what [str.lower] does to an ASCII letter
    or digit. *)
Definition ascii_lower (c : N) : N := if is_ascii_upper c then c + 32 else c.

(** ** String operations *)

Fixpoint lstrip (p : N -> bool) (s : str) : str :=
  match s with
  | [] => []
  | c :: r => if p c then lstrip p r else s
  end.

Fixpoint rstrip (p : N -> bool) (s : str) : str :=
  match s with
  | [] => []
  | c :: r =>
      match rstrip p r with
      | [] => if p c then [] else [c]
      | r' => c :: r'
      end
  end.

(** [s.strip(chars)], with [p] the membership test of [chars]. *)
Definition strip_chars (p : N -> bool) (s : str) : str := rstrip p (lstrip p s).

(** [s.strip()] *)
Definition strip (s : str) : str := strip_chars is_space s.

(** [s.startswith(pre)] *)
Fixpoint startswith (pre s : str) : bool :=
  match pre, s with
  | [], _ => true
  | _ :: _, [] => false
  | a :: pre', b :: s' => (a =? b) && startswith pre' s'
  end.

Definition str_eqb (a b : str) : bool := bool_decide (a = b).

(** [s.split(sep)] for a one-character separator: never an empty list. *)
Fixpoint split_on (sep : N) (s : str) : list str :=
  match s with
  | [] => [[]]
  | c :: r =>
      if c =? sep then [] :: split_on sep r
      else match split_on sep r with
           | [] => [[c]]
           | w :: ws => (c :: w) :: ws
           end
  end.

(** [sep.join(parts)] *)
Fixpoint join (sep : str) (parts : list str) : str :=
  match parts with
  | [] => []
  | [p] => p
  | p :: ps => p ++ sep ++ join sep ps
  end.

(** ** Substitutions of the slug generator

    [re.sub] with a pattern that is one character class replaces every
    character of the class; with a pattern [C+] it replaces every maximal
    run of characters of the class ([+] is greedy and the scan resumes
    after the run). *)

Fixpoint sub_class (cls : N -> bool) (repl : str) (s : str) : str :=
  match s with
  | [] => []
  | c :: r => (if cls c then repl else [c]) ++ sub_class cls repl r
  end.

(** [in_run] tells that the previous character belonged to the run that
    is being replaced. *)
Fixpoint sub_runs (cls : N -> bool) (repl : str) (in_run : bool) (s : str) : str :=
  match s with
  | [] => []
  | c :: r =>
      if cls c then (if in_run then [] else repl) ++ sub_runs cls repl true r
      else c :: sub_runs cls repl false r
  end.

Definition sub_class_plus (cls : N -> bool) (repl : str) (s : str) : str :=
  sub_runs cls repl false s.

(** ** slugify *)

(** The class [[a-z0-9\s-]]; the pattern of the first substitution is its
    complement. *)
Definition slug_keep (c : N) : bool :=
  is_ascii_lower c || is_ascii_digit c || is_space c || (c =? HYPHEN).

Definition is_hyphen (c : N) : bool := c =? HYPHEN.

Definition slugify (title : str) : str :=
  let slug := str_lower title in
  let slug := sub_class (fun c => negb (slug_keep c)) [] slug in
  let slug := sub_class_plus is_space [HYPHEN] slug in
  let slug := strip_chars is_hyphen (sub_class_plus is_hyphen [HYPHEN] slug) in
  slug.

(** ** Regular expressions of the converter

    Each pattern of the source is embedded as the backtracking matcher
    [re] runs for it: alternatives are tried in the pattern's priority
    order and the first one that lets the rest of the pattern match wins. *)

(** What follows the literal [pre] in [s], when [s] starts with it. *)
Fixpoint strip_prefix (pre s : str) : option str :=
  match pre, s with
  | [], _ => Some s
  | _ :: _, [] => None
  | a :: pre', b :: s' => if a =? b then strip_prefix pre' s' else None
  end.

(** The lazy group [(.+?)] followed by the rest of the pattern, [k]: the
    shortest non-empty run of characters other than newline after which [k]
    matches.  The result is the group with what [k] returns. *)
Fixpoint lazy_group {A : Type} (k : str -> option A) (s : str) : option (str * A) :=
  match s with
  | [] => None
  | c :: r =>
      if c =? NL then None
      else match k r with
           | Some a => Some ([c], a)
           | None =>
               match lazy_group k r with
               | Some (g, a) => Some (c :: g, a)
               | None => None
               end
           end
  end.

(** [re.sub(pattern, repl, s)] for a pattern that matches no empty string.
    [m] matches the pattern at the head of its argument and returns the
    expanded replacement with the text after the match; [skip] counts the
    characters of the last match that the scan has still to pass. *)
Fixpoint re_sub (m : str -> option (str * str)) (skip : nat) (s : str) : str :=
  match s with
  | [] => []
  | c :: r =>
      match skip with
      | S k => re_sub m k r
      | O =>
          match m s with
          | Some (out, rest) => out ++ re_sub m (length r - length rest) r
          | None => c :: re_sub m 0%nat r
          end
      end
  end.

(** The pattern [opening(.+?)closing], replaced by [before], group 1 and
    [after]. *)
Definition span_rule (opening closing before after : str) (s : str) : option (str * str) :=
  match strip_prefix opening s with
  | Some r =>
      match lazy_group (strip_prefix closing) r with
      | Some (g, rest) => Some (before ++ g ++ after, rest)
      | None => None
      end
  | None => None
  end.

Definition DQUOTE : N := 34.

(** The pattern [\[(.+?)\]\((.+?)\)], replaced by an anchor element whose
    [href] is group 2 and whose text is group 1. *)
Definition link_rule (s : str) : option (str * str) :=
  match strip_prefix (ustr "[") s with
  | Some r =>
      match lazy_group (fun r1 =>
               match strip_prefix (ustr "](") r1 with
               | Some r2 => lazy_group (strip_prefix (ustr ")")) r2
               | None => None
               end) r with
      | Some (text, (url, rest)) =>
          Some (ustr "<a href=" ++ [DQUOTE] ++ url ++ [DQUOTE] ++ ustr ">"
                  ++ text ++ ustr "</a>", rest)
      | None => None
      end
  | None => None
  end.

(** The five passes of [inline_format], in the order of the source. *)
Definition bold_italic_pass : str -> str :=
  re_sub (span_rule (ustr "***") (ustr "***") (ustr "<strong><em>") (ustr "</em></strong>")) 0.
Definition bold_pass : str -> str :=
  re_sub (span_rule (ustr "**") (ustr "**") (ustr "<strong>") (ustr "</strong>")) 0.
Definition italic_pass : str -> str :=
  re_sub (span_rule (ustr "*") (ustr "*") (ustr "<em>") (ustr "</em>")) 0.
Definition code_pass : str -> str :=
  re_sub (span_rule (ustr "`") (ustr "`") (ustr "<code>") (ustr "</code>")) 0.
Definition link_pass : str -> str := re_sub link_rule 0.

Definition inline_format (s : str) : str :=
  let s := bold_italic_pass s in
  let s := bold_pass s in
  let s := italic_pass s in
  let s := code_pass s in
  let s := link_pass s in
  s.

(** [s.replace(c, by)] for a one-character [c]. *)
Definition replace_char (c : N) (by_ : str) (s : str) : str :=
  sub_class (N.eqb c) by_ s.

(** [html.escape(s)], with its default [quote=True]. *)
Definition html_escape (s : str) : str :=
  let s := replace_char 38 (ustr "&amp;") s in
  let s := replace_char 60 (ustr "&lt;") s in
  let s := replace_char 62 (ustr "&gt;") s in
  let s := replace_char 34 (ustr "&quot;") s in
  let s := replace_char 39 (ustr "&#x27;") s in
  s.

(** A greedy run [C+] of the class [cls] followed by the rest of the
    pattern, [k]: the longest run first, then shorter ones. *)
Fixpoint greedy_plus {A : Type} (cls : N -> bool) (k : str -> option A) (s : str) : option A :=
  match s with
  | [] => None
  | c :: r =>
      if cls c then
        match greedy_plus cls k r with
        | Some a => Some a
        | None => k r
        end
      else None
  end.

(** [C*] followed by [k]. *)
Definition greedy_star {A : Type} (cls : N -> bool) (k : str -> option A) (s : str) : option A :=
  match greedy_plus cls k s with
  | Some a => Some a
  | None => k s
  end.

(** One given character followed by [k]. *)
Definition then_char {A : Type} (c : N) (k : str -> option A) (s : str) : option A :=
  match s with
  | d :: r => if d =? c then k r else None
  | [] => None
  end.

(** The lazy group [(.*?)] under [re.DOTALL] followed by [k]: the shortest
    run of any characters, the empty one first. *)
Fixpoint lazy_any {A : Type} (k : str -> option A) (s : str) : option (str * A) :=
  match k s with
  | Some a => Some ([], a)
  | None =>
      match s with
      | [] => None
      | c :: r =>
          match lazy_any k r with
          | Some (g, a) => Some (c :: g, a)
          | None => None
          end
      end
  end.

Fixpoint first_some {A : Type} (tries : list (option A)) : option A :=
  match tries with
  | [] => None
  | Some a :: _ => Some a
  | None :: rest => first_some rest
  end.

Fixpoint take_line (s : str) : str :=
  match s with
  | [] => []
  | c :: r => if c =? NL then [] else c :: take_line r
  end.

(** The greedy group [(.+)] that ends a pattern: every character up to
    the first newline, one at least. *)
Definition dot_plus (s : str) : option str :=
  match take_line s with
  | [] => None
  | g => Some g
  end.

Definition HASH : N := 35.

(** [^(#{1,3})\s+(.+)] with exactly [n] hashes in the first group. *)
Definition heading_with (n : nat) (s : str) : option (nat * str) :=
  match strip_prefix (repeat HASH n) s with
  | Some r =>
      match greedy_plus is_space dot_plus r with
      | Some g => Some (n, g)
      | None => None
      end
  | None => None
  end.

(** [re.match(r'^(#{1,3})\s+(.+)', s)]: the length of group 1 and group 2.
    The bounded repetition is greedy: three hashes are tried first. *)
Definition heading_match (s : str) : option (nat * str) :=
  first_some [heading_with 3 s; heading_with 2 s; heading_with 1 s].

Definition is_bullet (c : N) : bool := (c =? HYPHEN) || (c =? 42).

(** [^[-*]\s+] at the head of [s]: what follows the match.  The pattern is
    anchored, so [re.sub] with the empty replacement returns just that. *)
Definition ul_marker (s : str) : option str :=
  match s with
  | c :: r => if is_bullet c then greedy_plus is_space Some r else None
  | [] => None
  end.

Section Converter.

(** The decimal digits beyond ASCII (Unicode category Nd), which [\d]
    matches and [int] reads, are data of the interpreter's character
    database and not of this program: [decimal_beyond_ascii c] is the value
    of the digit [c], for a code point [c] from 128 on. *)
Variable decimal_beyond_ascii : N -> option N.

Definition decimal_value (c : N) : option N :=
  if c <? 128 then (if is_ascii_digit c then Some (c - 48) else None)
  else decimal_beyond_ascii c.

(** The class [\d]. *)
Definition is_decimal (c : N) : bool :=
  match decimal_value c with Some _ => true | None => false end.

(** [^\d+\.\s+] at the head of [s]: what follows the match. *)
Definition ol_marker (s : str) : option str :=
  greedy_plus is_decimal (then_char 46 (greedy_plus is_space Some)) s.

(** ** md_to_html *)

(** The local variables of [md_to_html] that the loop updates. *)
Record conv : Type := Conv {
  result : list str;
  in_list : bool;
  in_ol : bool;
  in_code : bool;
  in_blockquote : bool;
  bq_lines : list str
}.

Definition init : conv := Conv [] false false false false [].

(** [result.append(frag)] *)
Definition emit (frag : str) (st : conv) : conv :=
  Conv (result st ++ [frag]) (in_list st) (in_ol st) (in_code st)
       (in_blockquote st) (bq_lines st).

Definition set_in_list (b : bool) (st : conv) : conv :=
  Conv (result st) b (in_ol st) (in_code st) (in_blockquote st) (bq_lines st).

Definition set_in_ol (b : bool) (st : conv) : conv :=
  Conv (result st) (in_list st) b (in_code st) (in_blockquote st) (bq_lines st).

Definition set_in_code (b : bool) (st : conv) : conv :=
  Conv (result st) (in_list st) (in_ol st) b (in_blockquote st) (bq_lines st).

Definition set_blockquote (b : bool) (ls : list str) (st : conv) : conv :=
  Conv (result st) (in_list st) (in_ol st) (in_code st) b ls.

Definition flush_blockquote (st : conv) : conv :=
  if in_blockquote st then
    let content := join (ustr " ") (bq_lines st) in
    let content := inline_format content in
    set_blockquote false []
      (emit (ustr "<blockquote><p>" ++ content ++ ustr "</p></blockquote>") st)
  else st.

(** The decimal numeral of a heading level (2, 3 or 4). *)
Definition level_digit (level : nat) : str := [48 + N.of_nat level].

Definition heading_fragment (hashes : nat) (text : str) : str :=
  let level := (hashes + 1)%nat in
  let level := if (4 <? level)%nat then 4%nat else level in
  ustr "<h" ++ level_digit level ++ ustr ">" ++ inline_format text
    ++ ustr "</h" ++ level_digit level ++ ustr ">".

Definition is_rule (stripped : str) : bool :=
  (str_eqb stripped (ustr "---") || str_eqb stripped (ustr "***")
   || str_eqb stripped (ustr "___"))
  && (3 <=? length stripped)%nat.

Definition list_item (content : str) : str :=
  ustr "<li>" ++ inline_format content ++ ustr "</li>".

(** The part of the loop body from the comment [# Ordered list] on. *)
Definition step_ordered (stripped : str) (st : conv) : conv :=
  match ol_marker stripped with
  | Some content =>
      let st := if in_ol st then st else set_in_ol true (emit (ustr "<ol>") st) in
      emit (list_item content) st
  | None =>
      let st := if in_ol st then set_in_ol false (emit (ustr "</ol>") st) else st in
      match stripped with
      | [] => st
      | _ => emit (ustr "<p>" ++ inline_format stripped ++ ustr "</p>") st
      end
  end.

(** The part of the loop body from the comment [# Headings] on. *)
Definition step_block (stripped : str) (st : conv) : conv :=
  match heading_match stripped with
  | Some (hashes, text) => emit (heading_fragment hashes text) st
  | None =>
      if is_rule stripped then emit (ustr "<hr>") st
      else
        match ul_marker stripped with
        | Some content =>
            let st := if in_list st then st else set_in_list true (emit (ustr "<ul>") st) in
            emit (list_item content) st
        | None =>
            let st := if in_list st then set_in_list false (emit (ustr "</ul>") st) else st in
            step_ordered stripped st
        end
  end.

(** One turn of the loop [for line in lines].  The language tag that an
    opening fence carries ([lang]) is computed by the source and not used:
    it has no part here. *)
Definition step (st : conv) (line : str) : conv :=
  let stripped := strip line in
  if startswith (ustr "```") stripped then
    if in_code st then set_in_code false (emit (ustr "</code></pre>") st)
    else set_in_code true (emit (ustr "<pre><code>") st)
  else if in_code st then emit (html_escape line) st
  else if startswith (ustr "> ") stripped then
    let st := if in_blockquote st then st else set_blockquote true [] st in
    set_blockquote (in_blockquote st) (bq_lines st ++ [drop 2 stripped]) st
  else step_block stripped (flush_blockquote st).

(** The statements after the loop, under [# Close any open elements]. *)
Definition close_open (st : conv) : conv :=
  let st := flush_blockquote st in
  let st := if in_list st then emit (ustr "</ul>") st else st in
  let st := if in_ol st then emit (ustr "</ol>") st else st in
  let st := if in_code st then emit (ustr "</code></pre>") st else st in
  st.

Definition run (st : conv) (lines : list str) : conv := fold_left step lines st.

(** The list [result] when [md_to_html] returns. *)
Definition md_fragments (text : str) : list str :=
  result (close_open (run init (split_on NL text))).

Definition md_to_html (text : str) : str :=
  join (NL :: ustr "          ") (md_fragments text).

End Converter.

(** ** parse_frontmatter *)

(** The [re.match] of [parse_frontmatter], under [re.DOTALL]: the pattern
    is [^---\s*\n G1 \n---\s*\n G2 $], with [G1] a lazy and [G2] a greedy
    group of any characters, and the result is groups 1 and 2.  The greedy
    group runs to the end of the text, where [$] matches. *)
Definition frontmatter_match (content : str) : option (str * str) :=
  match strip_prefix (ustr "---") content with
  | Some r =>
      greedy_star is_space
        (then_char NL
           (lazy_any (fun t =>
              match strip_prefix (NL :: ustr "---") t with
              | Some t1 => greedy_star is_space (then_char NL Some) t1
              | None => None
              end))) r
  | None => None
  end.

Definition COLON : N := 58.

(** [line.split(':', 1)] when [':' in line]: the text before the first
    colon and the text after it. *)
Fixpoint split_colon (line : str) : option (str * str) :=
  match line with
  | [] => None
  | c :: r =>
      if c =? COLON then Some ([], r)
      else match split_colon r with
           | Some (k, v) => Some (c :: k, v)
           | None => None
           end
  end.

Section Frontmatter.

(** [str.lower] on a text that holds a code point beyond ASCII is a matter
    of the Unicode character database (its case mappings and the rule of
    the final sigma) and not of this program: [unicode_lower s] is the
    lowercase form of such a text [s]. *)
Variable unicode_lower : str -> str.

(** [s.lower()], as the keys of the metadata get it. *)
Definition py_lower (s : str) : str :=
  if forallb (fun c => c <? 128) s then List.map ascii_lower s else unicode_lower s.

(** One turn of the loop over the lines of the block: a later line with
    the same key replaces the value. *)
Definition meta_line (meta : gmap str str) (line : str) : gmap str str :=
  match split_colon line with
  | Some (key, val) => <[ py_lower (strip key) := strip val ]> meta
  | None => meta
  end.

Definition parse_frontmatter (content : str) : gmap str str * str :=
  match frontmatter_match content with
  | None => (∅, content)
  | Some (block, body) =>
      (fold_left meta_line (split_on NL block) ∅, strip body)
  end.

End Frontmatter.

(** ** parse_date *)

(** The exceptions a call can end with; [parse_date] handles the first. *)
Inductive exn : Type := ValueError | TypeError.

Inductive outcome (A : Type) : Type :=
  | Return (a : A)
  | Raise (e : exn).
Arguments Return {A} a.
Arguments Raise {A} e.

(** A naive [datetime]. *)
Record datetime : Type := Datetime {
  year : N; month : N; day : N;
  hour : N; minute : N; second : N; microsecond : N
}.

Global Instance datetime_eq_dec : EqDecision datetime.
Proof. solve_decision. Defined.

(** [datetime.min] *)
Definition datetime_min : datetime := Datetime 1 1 1 0 0 0 0.

Definition is_leap (y : N) : bool :=
  (y mod 4 =? 0) && (negb (y mod 100 =? 0) || (y mod 400 =? 0)).

Definition days_in_month (y m : N) : N :=
  if m =? 2 then (if is_leap y then 29 else 28)
  else if (m =? 4) || (m =? 6) || (m =? 9) || (m =? 11) then 30
  else 31.

(** [datetime(y, m, d)]: the constructor checks its arguments. *)
Definition make_datetime (y m d : N) : outcome datetime :=
  if in_range 1 9999 y && in_range 1 12 m && in_range 1 (days_in_month y m) d
  then Return (Datetime y m d 0 0 0 0)
  else Raise ValueError.

(** The order of [datetime] values: year, month, day, then the time. *)
Definition datetime_fields (d : datetime) : list N :=
  [year d; month d; day d; hour d; minute d; second d; microsecond d].

Fixpoint lex_compare (a b : list N) : comparison :=
  match a, b with
  | [], [] => Eq
  | [], _ :: _ => Lt
  | _ :: _, [] => Gt
  | x :: a', y :: b' =>
      match x ?= y with
      | Eq => lex_compare a' b'
      | c => c
      end
  end.

Definition datetime_compare (a b : datetime) : comparison :=
  lex_compare (datetime_fields a) (datetime_fields b).

Definition datetime_leb (a b : datetime) : bool :=
  match datetime_compare a b with Gt => false | _ => true end.

Definition datetime_ltb (a b : datetime) : bool :=
  match datetime_compare a b with Lt => true | _ => false end.

(** [sorted(l, key=key, reverse=True)] and [l.sort(key=key, reverse=True)]:
    descending keys, and elements with equal keys keep their order. *)
Fixpoint insert_desc {A K : Type} (ltb : K -> K -> bool) (key : A -> K)
    (x : A) (l : list A) : list A :=
  match l with
  | [] => [x]
  | y :: r => if ltb (key x) (key y) then y :: insert_desc ltb key x r else x :: l
  end.

Definition sorted_reverse {A K : Type} (ltb : K -> K -> bool) (key : A -> K)
    (l : list A) : list A :=
  fold_right (insert_desc ltb key) [] l.

(** *** strptime

    [datetime.strptime] turns the format into a regular expression, matches
    it at the head of the text without regard to case, refuses text that
    the match leaves over, and builds the date from the groups.  The names
    of the months are those of the English locale. *)

Inductive item : Type :=
  | Spaces            (* a run of whitespace in the format: [\s+] *)
  | Lit (c : N)       (* any other character of the format *)
  | FullMonth         (* %B *)
  | AbbrMonth         (* %b *)
  | Day               (* %d *)
  | Month             (* %m *)
  | Year.             (* %Y *)

Definition directive (c : N) : option item :=
  if c =? 66 then Some FullMonth
  else if c =? 98 then Some AbbrMonth
  else if c =? 100 then Some Day
  else if c =? 109 then Some Month
  else if c =? 89 then Some Year
  else None.

(** The items of a format; [None] for a directive that is not known.
    [in_ws] tells that the previous character was whitespace. *)
Fixpoint format_items (in_ws : bool) (fmt : str) : option (list item) :=
  match fmt with
  | [] => Some []
  | c :: r =>
      if is_space c then
        match format_items true r with
        | Some its => Some (if in_ws then its else Spaces :: its)
        | None => None
        end
      else if c =? 37 then
        match r with
        | d :: r' =>
            match directive d, format_items false r' with
            | Some it, Some its => Some (it :: its)
            | _, _ => None
            end
        | [] => None
        end
      else
        match format_items false r with
        | Some its => Some (Lit c :: its)
        | None => None
        end
  end.

(** The lowercase that [re.IGNORECASE] compares by, for one code point:
    the ASCII capitals, U+0130 and the Kelvin sign have an ASCII one. *)
Definition fold_case (c : N) : N :=
  if is_ascii_upper c then c + 32
  else if c =? 304 then 105
  else if c =? 8490 then 107
  else c.

(** A character [p] of the pattern against a character [x] of the text,
    without regard to case: [re] also takes dotless i for [i] and long s
    for [s]. *)
Definition ci_match (p x : N) : bool :=
  let lp := fold_case p in
  let lx := fold_case x in
  (lx =? lp) || ((lp =? 105) && (lx =? 305)) || ((lp =? 115) && (lx =? 383)).

(** A literal of the pattern at the head of [s]: the text it matched and
    the text after it. *)
Fixpoint ci_literal (pat s : str) : option (str * str) :=
  match pat, s with
  | [], _ => Some ([], s)
  | _ :: _, [] => None
  | p :: pat', x :: s' =>
      if ci_match p x then
        match ci_literal pat' s' with
        | Some (m, r) => Some (x :: m, r)
        | None => None
        end
      else None
  end.

Definition full_months : list str :=
  List.map ustr ["january"; "february"; "march"; "april"; "may"; "june"; "july";
            "august"; "september"; "october"; "november"; "december"]%string.

Definition abbr_months : list str :=
  List.map ustr ["jan"; "feb"; "mar"; "apr"; "may"; "jun"; "jul"; "aug"; "sep";
            "oct"; "nov"; "dec"]%string.

(** The alternatives of a group of names: the longest names first. *)
Definition names_alternatives (names : list str) : list str :=
  sorted_reverse Nat.ltb (fun n : str => length n) names.

Section Dates.

Variable decimal_beyond_ascii : N -> option N.

Local Abbreviation is_dec := (is_decimal decimal_beyond_ascii).

(** A sequence of character classes, one character each. *)
Fixpoint classes (cls : list (N -> bool)) (s : str) : option (str * str) :=
  match cls, s with
  | [], _ => Some ([], s)
  | _ :: _, [] => None
  | p :: cls', x :: s' =>
      if p x then
        match classes cls' s' with
        | Some (m, r) => Some (x :: m, r)
        | None => None
        end
      else None
  end.

Definition some_list {A : Type} (l : list (option A)) : list A :=
  omap id l.

(** [\s+] at the head of [s]: the runs it can match, the longest first. *)
Fixpoint space_runs (s : str) : list (str * str) :=
  match s with
  | [] => []
  | c :: r =>
      if is_space c then
        List.map (fun mr : str * str => (c :: mr.1, mr.2)) (space_runs r) ++ [([c], r)]
      else []
  end.

(** The ways one item can match at the head of [s], in the order [re]
    tries them: the text matched and the text after it. *)
Definition alternatives (it : item) (s : str) : list (str * str) :=
  match it with
  | Spaces => space_runs s
  | Lit c => some_list [ci_literal [c] s]
  | FullMonth => some_list (List.map (fun n => ci_literal n s) (names_alternatives full_months))
  | AbbrMonth => some_list (List.map (fun n => ci_literal n s) (names_alternatives abbr_months))
  | Day =>
      (* 3[0-1]|[1-2]\d|0[1-9]|[1-9]| [1-9] *)
      some_list
        [classes [N.eqb 51; in_range 48 49] s;
         classes [in_range 49 50; is_dec] s;
         classes [N.eqb 48; in_range 49 57] s;
         classes [in_range 49 57] s;
         classes [N.eqb 32; in_range 49 57] s]
  | Month =>
      (* 1[0-2]|0[1-9]|[1-9] *)
      some_list
        [classes [N.eqb 49; in_range 48 50] s;
         classes [N.eqb 48; in_range 49 57] s;
         classes [in_range 49 57] s]
  | Year =>
      (* \d\d\d\d *)
      some_list [classes [is_dec; is_dec; is_dec; is_dec] s]
  end.

(** The match of the whole pattern at the head of [s]: the groups, with
    the text left after the match. *)
Fixpoint match_items (its : list item) (s : str) : option (list (item * str) * str) :=
  match its with
  | [] => Some ([], s)
  | it :: its' =>
      first_some
        (List.map (fun mr : str * str =>
                match match_items its' mr.2 with
                | Some (groups, rest) => Some ((it, mr.1) :: groups, rest)
                | None => None
                end)
             (alternatives it s))
  end.

(** [int(text)]: blanks around the numeral are dropped, and every digit of
    the character database counts. *)
Fixpoint digits_value (acc : N) (s : str) : outcome N :=
  match s with
  | [] => Return acc
  | c :: r =>
      match decimal_value decimal_beyond_ascii c with
      | Some v => digits_value (10 * acc + v) r
      | None => Raise ValueError
      end
  end.

Definition py_int (text : str) : outcome N :=
  match strip text with
  | [] => Raise ValueError
  | s => digits_value 0 s
  end.

(** [names.index(text)], counted from [from]. *)
Fixpoint index_from (from : N) (names : list str) (text : str) : outcome N :=
  match names with
  | [] => Raise ValueError
  | n :: rest => if str_eqb n text then Return from else index_from (from + 1) rest text
  end.

(** Year, month and day while the groups are read. *)
Definition ymd : Type := (N * N * N)%type.

Definition read_group (acc : outcome ymd) (g : item * str) : outcome ymd :=
  match acc with
  | Raise e => Raise e
  | Return (y, m, d) =>
      match g.1 with
      | Year => match py_int g.2 with Return v => Return (v, m, d) | Raise e => Raise e end
      | Month => match py_int g.2 with Return v => Return (y, v, d) | Raise e => Raise e end
      | Day => match py_int g.2 with Return v => Return (y, m, v) | Raise e => Raise e end
      | FullMonth =>
          match index_from 1 full_months (str_lower g.2) with
          | Return v => Return (y, v, d)
          | Raise e => Raise e
          end
      | AbbrMonth =>
          match index_from 1 abbr_months (str_lower g.2) with
          | Return v => Return (y, v, d)
          | Raise e => Raise e
          end
      | Spaces | Lit _ => acc
      end
  end.

(** [datetime.strptime(data, fmt)] *)
Definition strptime (data fmt : str) : outcome datetime :=
  match format_items false fmt with
  | None => Raise ValueError
  | Some its =>
      match match_items its data with
      | None => Raise ValueError
      | Some (groups, rest) =>
          match rest with
          | _ :: _ => Raise ValueError
          | [] =>
              match fold_left read_group groups (Return (1900, 1, 1)) with
              | Return (y, m, d) => make_datetime y m d
              | Raise e => Raise e
              end
          end
      end
  end.

Definition formats : list str :=
  List.map ustr ["%B %d, %Y"; "%Y-%m-%d"; "%b %d, %Y"; "%d %B %Y"]%string.

(** The loop of [parse_date] over the formats that are left: the handler
    takes [ValueError] and nothing else. *)
Fixpoint try_formats (date_str : str) (fmts : list str) : outcome datetime :=
  match fmts with
  | [] => Return datetime_min
  | fmt :: rest =>
      match strptime (strip date_str) fmt with
      | Return d => Return d
      | Raise ValueError => try_formats date_str rest
      | Raise e => Raise e
      end
  end.

Definition parse_date (date_str : str) : outcome datetime :=
  try_formats date_str formats.

(** ** The sort of [build] *)

(** A post of the index: its metadata and its slug. *)
Definition post : Type := (gmap str str * str)%type.

(** [p[0].get('date', '')] *)
Definition post_date (p : post) : str := default [] (p.1 !! ustr "date").

(** The keys of the posts, when no call of the key function raises. *)
Fixpoint keyed (posts : list post) : outcome (list (datetime * post)) :=
  match posts with
  | [] => Return []
  | p :: rest =>
      match parse_date (post_date p) with
      | Raise e => Raise e
      | Return k =>
          match keyed rest with
          | Raise e => Raise e
          | Return ks => Return ((k, p) :: ks)
          end
      end
  end.

(** [posts.sort(key=lambda p: parse_date(p[0].get('date', '')), reverse=True)] *)
Definition sort_posts (posts : list post) : outcome (list post) :=
  match keyed posts with
  | Raise e => Raise e
  | Return ks => Return (List.map snd (sorted_reverse datetime_ltb fst ks))
  end.

End Dates.

(** ** Predicates the properties are stated with *)

(** The characters of a slug: [a-z], [0-9] and the hyphen. *)
Definition slug_char (c : N) : bool :=
  is_ascii_lower c || is_ascii_digit c || is_hyphen c.

Definition is_ascii_alnum (c : N) : bool :=
  is_ascii_upper c || is_ascii_lower c || is_ascii_digit c.

(** The code points outside ASCII whose lowercase form holds an ASCII
    letter. *)
Definition lowers_into_ascii (c : N) : bool := (c =? 304) || (c =? 8490).

(** No two neighbours of [s] are both in the class [cls]. *)
Fixpoint no_adjacent (cls : N -> bool) (s : str) : Prop :=
  match s with
  | [] => True
  | c :: r =>
      match r with
      | [] => True
      | d :: _ => (cls c && cls d = false) /\ no_adjacent cls r
      end
  end.

(** [s] does not start with a character of the class [cls]. *)
Definition head_not (cls : N -> bool) (s : str) : Prop :=
  match s with
  | [] => True
  | c :: _ => cls c = false
  end.

(** The number of places of [s] where [pat] stands. *)
Fixpoint count_sub (pat s : str) : nat :=
  match s with
  | [] => 0
  | _ :: r => ((if startswith pat s then 1 else 0) + count_sub pat r)%nat
  end.

(** A line of the spec's horizontal rule: after trimming, three or more
    characters, all the same hyphen, asterisk or underscore. *)
Definition is_rule_run (line : str) : bool :=
  match strip line with
  | [] => false
  | c :: r =>
      ((c =? HYPHEN) || (c =? 42) || (c =? 95))
      && forallb (N.eqb c) r && (3 <=? length (c :: r))%nat
  end.

(** A line of text holds no newline. *)
Definition one_line (l : str) : Prop := NL ∉ l.

(** A code point table with no digit beyond ASCII. *)
Definition ascii_digits_only : N -> option N := fun _ => None.

(** A lowercase that changes the ASCII letters only. *)
Definition lower_ascii_only : str -> str := List.map ascii_lower.

(** What a slug is made of: slug characters, no hyphen at either end and
    no two hyphens in a row. *)
Definition well_formed_slug (s : str) : Prop :=
  Forall (fun c => slug_char c = true) s
  /\ head_not is_hyphen s /\ rstrip is_hyphen s = s
  /\ no_adjacent is_hyphen s.

(** A line that opens or closes a code fence. *)
Definition is_fence (line : str) : bool := startswith (ustr "```") (strip line).

(** The three lines the rule test accepts. *)
Definition exact_rule (stripped : str) : Prop :=
  stripped = ustr "---" \/ stripped = ustr "***" \/ stripped = ustr "___".

(** The line of the inline formatter's example, and its HTML. *)
Definition sample_line : str :=
  ustr "**bold** and *italic* and `code` and [text](http://x)".

Definition sample_html : str :=
  ustr "<strong>bold</strong> and <em>italic</em> and <code>code</code> and "
    ++ ustr "<a href=" ++ [DQUOTE] ++ ustr "http://x" ++ [DQUOTE] ++ ustr ">text</a>".

Definition sample_anchor : str :=
  ustr "<a href=" ++ [DQUOTE] ++ ustr "http://x" ++ [DQUOTE] ++ ustr ">".

(** The only exception of an outcome, if it has one, is [ValueError]. *)
Definition value_error_only {A : Type} (o : outcome A) : Prop :=
  match o with
  | Return _ => True
  | Raise e => e = ValueError
  end.


(** A post with its sort key. *)
Abbreviation keyed_post := (datetime * post)%type.

Abbreviation insert_post := (insert_desc datetime_ltb (fst : keyed_post -> datetime)).




(** ** Predicates of the further properties *)

(** Text with none of the characters of markup: the two angle brackets
    and the two quotes. *)
Definition markup_free (s : str) : Prop :=
  Forall (fun c => c <> 60 /\ c <> 62 /\ c <> 34 /\ c <> 39) s.

(** Text with none of the characters an inline pattern starts with: the
    asterisk, the backtick and the opening square bracket. *)
Definition no_inline_trigger (s : str) : Prop :=
  Forall (fun c => c <> 42 /\ c <> 96 /\ c <> 91) s.

(** A line that continues a blockquote, and its text. *)
Definition is_quote (line : str) : bool := startswith (ustr "> ") (strip line).

Definition quote_text (line : str) : str := drop 2 (strip line).

(** The test of [markup_free] on one character. *)
Definition not_markup (c : N) : bool :=
  negb ((c =? 60) || (c =? 62) || (c =? 34) || (c =? 39)).

(** How often the fragment [tag] stands in a list of fragments. *)
Fixpoint count_frag (tag : str) (frags : list str) : nat :=
  match frags with
  | [] => 0
  | f :: r => ((if str_eqb f tag then 1 else 0) + count_frag tag r)%nat
  end.

Definition open_count (b : bool) : nat := if b then 1%nat else 0%nat.

(** Every opening fragment that is so far in [result] has its closing
    fragment, but for the one of a mode that is still set. *)
Definition balanced (st : conv) : Prop :=
  count_frag (ustr "<ul>") (result st)
    = (count_frag (ustr "</ul>") (result st) + open_count (in_list st))%nat
  /\ count_frag (ustr "<ol>") (result st)
    = (count_frag (ustr "</ol>") (result st) + open_count (in_ol st))%nat
  /\ count_frag (ustr "<pre><code>") (result st)
    = (count_frag (ustr "</code></pre>") (result st) + open_count (in_code st))%nat.

(** A fragment that is none of the six that open or close a list or a
    code block. *)
Definition content_fragment (f : str) : Prop :=
  f <> ustr "<ul>" /\ f <> ustr "</ul>" /\ f <> ustr "<ol>" /\ f <> ustr "</ol>"
  /\ f <> ustr "<pre><code>" /\ f <> ustr "</code></pre>".

(** *** A document as an author writes it *)

(** The characters of a plain metadata key: [a-z], [0-9] and the
    underscore. *)
Definition key_char (c : N) : bool :=
  is_ascii_lower c || is_ascii_digit c || (c =? 95).

Definition plain_key (k : str) : Prop :=
  k <> [] /\ Forall (fun c => key_char c = true) k.

(** A value that fits on its line with no blank at either end. *)
Definition plain_value (v : str) : Prop := one_line v /\ strip v = v.

(** The line of one entry: the key, a colon, a space, the value. *)
Definition entry_line (kv : str * str) : str := kv.1 ++ COLON :: 32 :: kv.2.

(** The text of a document: the delimiter line, one line per entry, the
    delimiter line, the body. *)
Definition document (entries : list (str * str)) (body : str) : str :=
  ustr "---" ++ NL :: join [NL] (List.map entry_line entries)
    ++ NL :: ustr "---" ++ NL :: body.

(** In a block no line starts with a hyphen and the last line is not
    empty: after every newline comes a character that is no hyphen. *)
Fixpoint no_hyphen_line (s : str) : Prop :=
  match s with
  | [] => True
  | c :: r =>
      (c = NL -> match r with d :: _ => d <> HYPHEN | [] => False end)
      /\ no_hyphen_line r
  end.

(** The posts whose date parses to the key [d]. *)
Definition dated (nd : N -> option N) (d : datetime) (p : post) : bool :=
  match parse_date nd (post_date p) with
  | Return k => bool_decide (k = d)
  | Raise _ => false
  end.

(** Keyed posts in which no key is above the key of a post before it. *)
Fixpoint descending (l : list keyed_post) : Prop :=
  match l with
  | [] => True
  | x :: r => Forall (fun y : keyed_post => datetime_leb y.1 x.1 = true) r /\ descending r
  end.

(** A word of a title: ASCII letters and digits, at least one. *)
Definition word (w : str) : Prop :=
  w <> [] /\ Forall (fun c => is_ascii_alnum c = true) w.

Definition is_word (w : str) : bool :=
  negb (bool_decide (w = [])) && forallb is_ascii_alnum w.

Definition lower_alnum (c : N) : bool := is_ascii_lower c || is_ascii_digit c.

(** ** generate_index_item *)

Definition COMMA : N := 44.

(** An ASCII literal between double quotes. *)
Definition quoted (s : string) : str := [DQUOTE] ++ ustr s ++ [DQUOTE].
Arguments quoted s%_string.

(** [meta.get(key, default)] *)
Definition meta_get (meta : gmap str str) (key : str) (dflt : str) : str :=
  default dflt (meta !! key).

(** The element of one tag, as the generator expression formats it. *)
Definition tag_span (t : str) : str :=
  ustr "            <span class=" ++ quoted "post-tag" ++ ustr ">"
    ++ html_escape t ++ ustr "</span>".

(** [tags_html]: empty without tags, else the block of the tags, which are
    the trimmed texts between the commas. *)
Definition tags_html (tags_str : str) : str :=
  match tags_str with
  | [] => []
  | _ :: _ =>
      let tags := List.map strip (split_on COMMA tags_str) in
      ustr "<div class=" ++ quoted "post-tags" ++ ustr ">" ++ [NL]
        ++ join [NL] (List.map tag_span tags)
        ++ [NL] ++ ustr "          </div>"
  end.

Definition generate_index_item (meta : gmap str str) (slug : str) : str :=
  ustr "        <article class=" ++ quoted "post-item" ++ ustr ">" ++ [NL]
    ++ ustr "          <div class=" ++ quoted "post-meta" ++ ustr ">"
    ++ html_escape (meta_get meta (ustr "date") []) ++ ustr "</div>" ++ [NL]
    ++ ustr "          <h2><a href=" ++ [DQUOTE] ++ ustr "posts/" ++ slug
    ++ ustr ".html" ++ [DQUOTE] ++ ustr ">"
    ++ html_escape (meta_get meta (ustr "title") (ustr "Untitled"))
    ++ ustr "</a></h2>" ++ [NL]
    ++ ustr "          <p class=" ++ quoted "post-excerpt" ++ ustr ">"
    ++ html_escape (meta_get meta (ustr "excerpt") []) ++ ustr "</p>" ++ [NL]
    ++ ustr "          " ++ tags_html (meta_get meta (ustr "tags") []) ++ [NL]
    ++ ustr "        </article>".

(** How often the character [c] stands in [s]. *)
Definition count_char (c : N) (s : str) : nat := length (List.filter (N.eqb c) s).

(** The elements the tags of an item take: none without tags, else the
    block and one element per text between commas. *)
Definition tag_elements (tags_str : str) : nat :=
  match tags_str with
  | [] => 0
  | _ :: _ => S (length (split_on COMMA tags_str))
  end.

(** The four characters of markup. *)
Definition is_markup (c : N) : Prop := c = 60 \/ c = 62 \/ c = 34 \/ c = 39.

(** ** Dates in ISO format *)

Definition two_digits (n : N) : str := [48 + n / 10; 48 + n mod 10].

Definition four_digits (n : N) : str :=
  [48 + n / 1000; 48 + (n / 100) mod 10; 48 + (n / 10) mod 10; 48 + n mod 10].

(** The text YYYY-MM-DD of a date, as [date.isoformat] writes it. *)
Definition iso_format (y m d : N) : str :=
  four_digits y ++ HYPHEN :: two_digits m ++ HYPHEN :: two_digits d.

(** The value of a numeral of ASCII digits. *)
Definition numeral_value (s : str) : N := fold_left (fun acc c => 10 * acc + (c - 48)) s 0.

(** A line of an unordered list: the hyphen marker, a space, and text. *)
Definition item_line (l : str) : Prop :=
  one_line l /\ startswith (ustr "- ") l = true /\ strip (drop 2 l) <> [].

Definition is_item_line (l : str) : bool :=
  forallb (fun c => negb (c =? NL)) l && startswith (ustr "- ") l
  && negb (bool_decide (strip (drop 2 l) = [])).

Definition is_ascii_letter (c : N) : bool := is_ascii_upper c || is_ascii_lower c.

(** A line of plain prose: its first character that is no blank is an
    ASCII letter. *)
Definition prose_line (l : str) : Prop :=
  one_line l /\ exists c r, strip l = c :: r /\ is_ascii_letter c = true.

Definition is_prose_line (l : str) : bool :=
  forallb (fun c => negb (c =? NL)) l
  && match strip l with c :: _ => is_ascii_letter c | [] => false end.

Definition paragraph (l : str) : str :=
  ustr "<p>" ++ inline_format (strip l) ++ ustr "</p>".

(** A line of an ordered list, written from its numeral and its text. *)
Definition numbered (p : str * str) : str := p.1 ++ 46 :: 32 :: p.2.

(** The numeral is of ASCII digits, the text starts and ends with no
    blank and holds no newline; neither is empty. *)
Definition numbered_entry (p : str * str) : Prop :=
  p.1 <> [] /\ Forall (fun c => is_ascii_digit c = true) p.1
  /\ p.2 <> [] /\ strip p.2 = p.2 /\ one_line p.2.

Definition is_numbered_entry (p : str * str) : bool :=
  negb (bool_decide (p.1 = [])) && forallb is_ascii_digit p.1
  && negb (bool_decide (p.2 = [])) && bool_decide (strip p.2 = p.2)
  && forallb (fun c => negb (c =? NL)) p.2.

(** Entries of a sample document: a value with a colon, and a key that
    comes twice. *)
Definition sample_entries : list (str * str) :=
  [ (ustr "title", ustr "Notes: week 1");
    (ustr "date", ustr "2024-03-05");
    (ustr "title", ustr "Notes, again") ].

(** A delimiter line, as the spec has it: three hyphens, blanks if any
    after them, and the end of the line.  The blanks may hold line ends:
    empty lines after the hyphens belong to the delimiter. *)
Definition delimiter_line (l : str) : Prop :=
  exists blanks : str,
    Forall (fun c => is_space c = true) blanks /\ l = ustr "---" ++ blanks ++ [NL].

(** The text begins with a delimiter pair: a delimiter line, a block of
    lines, another delimiter line, and the remaining content.  The block
    ends with the end of its last line, so the second delimiter stands at
    the start of a line; the block may be one empty line. *)
Definition leading_delimiter_pair (content : str) : Prop :=
  exists first block second rest : str,
    delimiter_line first /\ delimiter_line second
    /\ content = first ++ block ++ NL :: second ++ rest.

(** The characters of the text of a span: any but the end of a line and
    the characters the inline patterns are made of, which are the asterisk,
    the backtick, the square brackets and the parentheses. *)
Definition span_char (c : N) : bool :=
  negb ((c =? NL) || (c =? 42) || (c =? 96) || (c =? 91) || (c =? 93)
        || (c =? 40) || (c =? 41)).

(** The text of a span: not empty, and of such characters. *)
Definition span_text (a : str) : Prop :=
  a <> [] /\ Forall (fun c => span_char c = true) a.

(** The anchor element the link pass writes. *)
Definition anchor (url text : str) : str :=
  ustr "<a href=" ++ [DQUOTE] ++ url ++ [DQUOTE] ++ ustr ">" ++ text ++ ustr "</a>".

(** * Properties *)

(** ** Tactics *)


(** Boolean tests on code points as arithmetic facts, for [lia]. *)
Ltac char_facts :=
  rewrite ?orb_true_iff, ?andb_true_iff, ?orb_false_iff, ?andb_false_iff,
    ?negb_true_iff, ?negb_false_iff, ?N.leb_le, ?N.leb_gt, ?N.eqb_eq,
    ?N.eqb_neq in *.


(** A fragment is told from the six by its first three characters. *)
Ltac by_prefix :=
  repeat split; intros E; apply (f_equal (take 3)) in E; vm_compute in E; congruence.

(** Evaluates the count [cf] of a tag in a single known fragment. *)
Ltac eval_counts cf :=
  repeat match goal with
    | |- context [cf ?t [?f]] =>
        let v := eval vm_compute in (cf t [f]) in
        change (cf t [f]) with v
    end.

(** ** Characters *)

Lemma slug_char_keep c : slug_char c = true -> slug_keep c = true.
Proof.
  unfold slug_char, slug_keep, is_hyphen, is_space, is_ascii_upper,
    is_ascii_lower, is_ascii_digit, in_range, HYPHEN in *; 
  char_facts. lia.
Qed.

Lemma slug_char_not_space c : slug_char c = true -> is_space c = false.
Proof.
  unfold slug_char, slug_keep, is_hyphen, is_space, is_ascii_upper,
    is_ascii_lower, is_ascii_digit, in_range, HYPHEN in *; 
  char_facts. lia.
Qed.

Lemma keep_not_space c : slug_keep c = true -> is_space c = false -> slug_char c = true.
Proof.
  unfold slug_char, slug_keep, is_hyphen, is_space, is_ascii_upper,
    is_ascii_lower, is_ascii_digit, in_range, HYPHEN in *; 
  char_facts. lia.
Qed.

Lemma slug_char_lower c : slug_char c = true -> lower_char c = [c].
Proof.
  intros H. unfold lower_char.
  assert (is_ascii_upper c = false) as -> by
    (unfold slug_char, slug_keep, is_hyphen, is_space, is_ascii_upper,
     is_ascii_lower, is_ascii_digit, in_range, HYPHEN in *; char_facts; lia).
  assert ((c =? 304) = false) as -> by
    (unfold slug_char, slug_keep, is_hyphen, is_space, is_ascii_upper,
     is_ascii_lower, is_ascii_digit, in_range, HYPHEN in *; char_facts; lia).
  assert ((c =? 8490) = false) as -> by
    (unfold slug_char, slug_keep, is_hyphen, is_space, is_ascii_upper,
     is_ascii_lower, is_ascii_digit, in_range, HYPHEN in *; char_facts; lia).
  reflexivity.
Qed.

(** ** Trimming and substitution *)

Lemma lstrip_head_not cls s : head_not cls (lstrip cls s).
Proof.
  induction s as [|c r IH]; simpl; [exact I|].
  destruct (cls c) eqn:E; [exact IH | exact E].
Qed.

Lemma lstrip_fixed cls s : head_not cls s -> lstrip cls s = s.
Proof. destruct s as [|c r]; simpl; [reflexivity|]. intros ->. reflexivity. Qed.

Lemma lstrip_all cls s : Forall (fun c => cls c = true) s -> lstrip cls s = [].
Proof. induction 1 as [|c r Hc _ IH]; simpl; [reflexivity|]. rewrite Hc. exact IH. Qed.

Lemma lstrip_Forall (P : N -> Prop) cls s : Forall P s -> Forall P (lstrip cls s).
Proof.
  induction 1 as [|c r Hc Hr IH]; simpl; [constructor|].
  destruct (cls c); [exact IH | constructor; assumption].
Qed.

Lemma no_adjacent_tail cls c r : no_adjacent cls (c :: r) -> no_adjacent cls r.
Proof. destruct r as [|d r']; simpl; [trivial | intros [_ H]; exact H]. Qed.

Lemma lstrip_no_adjacent cls s : no_adjacent cls s -> no_adjacent cls (lstrip cls s).
Proof.
  induction s as [|c r IH]; intros H; [exact I|].
  simpl. destruct (cls c); [|exact H].
  apply IH. exact (no_adjacent_tail _ _ _ H).
Qed.

Lemma rstrip_cons cls c r :
  rstrip cls (c :: r) =
    match rstrip cls r with
    | [] => if cls c then [] else [c]
    | d :: r' => c :: d :: r'
    end.
Proof. reflexivity. Qed.

Lemma rstrip_Forall (P : N -> Prop) cls s : Forall P s -> Forall P (rstrip cls s).
Proof.
  induction 1 as [|c r Hc Hr IH]; [constructor|].
  rewrite rstrip_cons. destruct (rstrip cls r) as [|d r'].
  - destruct (cls c); repeat constructor; assumption.
  - constructor; assumption.
Qed.

Lemma rstrip_head_not cls s : head_not cls s -> head_not cls (rstrip cls s).
Proof.
  destruct s as [|c r]; [trivial|]. intros H. simpl in H.
  rewrite rstrip_cons. destruct (rstrip cls r); simpl; [rewrite H; simpl|]; exact H.
Qed.

Lemma rstrip_no_adjacent cls s : no_adjacent cls s -> no_adjacent cls (rstrip cls s).
Proof.
  induction s as [|c r IH]; intros H; [exact I|].
  rewrite rstrip_cons.
  pose proof (IH (no_adjacent_tail _ _ _ H)) as IH'.
  destruct r as [|d r0]; [simpl; destruct (cls c); exact I|].
  destruct H as [Hcd _]. rewrite rstrip_cons in *.
  destruct (rstrip cls r0) as [|e r1].
  - destruct (cls d) eqn:Ed; [destruct (cls c); exact I|].
    split; [rewrite Ed; apply andb_false_r | exact I].
  - split; [exact Hcd | exact IH'].
Qed.

Lemma rstrip_idempotent cls s : rstrip cls (rstrip cls s) = rstrip cls s.
Proof.
  induction s as [|c r IH]; [reflexivity|].
  rewrite rstrip_cons. destruct (rstrip cls r) as [|d r'] eqn:E.
  - destruct (cls c) eqn:Ec; [reflexivity|]. simpl. rewrite Ec. reflexivity.
  - rewrite rstrip_cons, IH. reflexivity.
Qed.

Lemma lstrip_rstrip cls s : lstrip cls (rstrip cls s) = rstrip cls (lstrip cls s).
Proof.
  induction s as [|c r IH]; [reflexivity|].
  rewrite rstrip_cons. simpl lstrip at 2. destruct (cls c) eqn:Ec.
  - rewrite <- IH. destruct (rstrip cls r); [reflexivity|]. simpl. rewrite Ec. reflexivity.
  - rewrite rstrip_cons.
    destruct (rstrip cls r); simpl; rewrite Ec; reflexivity.
Qed.

Lemma strip_chars_fixed cls s :
  head_not cls s -> rstrip cls s = s -> strip_chars cls s = s.
Proof. intros Hh Hr. unfold strip_chars. rewrite lstrip_fixed by exact Hh. exact Hr. Qed.

Lemma sub_class_Forall cls s :
  Forall (fun c => cls c = false) (sub_class cls [] s).
Proof.
  induction s as [|c r IH]; simpl; [constructor|].
  destruct (cls c) eqn:E; simpl; [exact IH | constructor; assumption].
Qed.

Lemma sub_class_none cls repl s :
  Forall (fun c => cls c = false) s -> sub_class cls repl s = s.
Proof. induction 1 as [|c r Hc _ IH]; simpl; [reflexivity|]. rewrite Hc, IH. reflexivity. Qed.

Lemma sub_runs_Forall (P Q : N -> Prop) cls h b s :
  (forall c, P c -> cls c = false -> Q c) -> Q h ->
  Forall P s -> Forall Q (sub_runs cls [h] b s).
Proof.
  intros HPQ Hh Hs. revert b.
  induction Hs as [|c r Hc _ IH]; intros b; simpl; [constructor|].
  destruct (cls c) eqn:E.
  - destruct b; simpl; [apply IH | constructor; [exact Hh | apply IH]].
  - constructor; [apply HPQ; assumption | apply IH].
Qed.

Lemma sub_runs_none cls repl b s :
  Forall (fun c => cls c = false) s -> sub_runs cls repl b s = s.
Proof.
  intros Hs. revert b.
  induction Hs as [|c r Hc _ IH]; intros b; simpl; [reflexivity|].
  rewrite Hc, IH. reflexivity.
Qed.

Lemma cons_no_adjacent cls c s :
  head_not cls s -> no_adjacent cls s -> no_adjacent cls (c :: s).
Proof.
  destruct s as [|d r]; [trivial|]. intros Hd H. simpl in Hd.
  split; [rewrite Hd; apply andb_false_r | exact H].
Qed.

(** After the substitution of runs no two characters of the class are
    neighbours, and the text that follows a run starts outside the class. *)
Lemma sub_runs_no_adjacent cls h b s :
  no_adjacent cls (sub_runs cls [h] b s)
  /\ (b = true -> head_not cls (sub_runs cls [h] b s)).
Proof.
  revert b. induction s as [|c r IH]; intros b; [split; intros; exact I|].
  simpl. destruct (cls c) eqn:E.
  - destruct (IH true) as [Hn Hh]. destruct b; simpl.
    + split; [exact Hn | intros _; apply Hh; reflexivity].
    + split; [|discriminate]. apply cons_no_adjacent; [apply Hh; reflexivity | exact Hn].
  - destruct (IH false) as [Hn _]. split; [|intros _; exact E].
    destruct (sub_runs cls [h] false r) as [|d r'] eqn:Er; [exact I|].
    split; [rewrite E; reflexivity | exact Hn].
Qed.

Lemma sub_runs_fixed cls h b s :
  (forall c, cls c = true -> c = h) ->
  no_adjacent cls s -> (b = true -> head_not cls s) ->
  sub_runs cls [h] b s = s.
Proof.
  intros Hcls. revert b.
  induction s as [|c r IH]; intros b Hn Hb; [reflexivity|].
  simpl. destruct (cls c) eqn:E.
  - destruct b; [specialize (Hb eq_refl); simpl in Hb; congruence|].
    simpl. f_equal; [symmetry; exact (Hcls c E)|].
    apply IH; [exact (no_adjacent_tail _ _ _ Hn)|]. intros _.
    destruct r as [|d r']; [exact I|]. destruct Hn as [Hcd _].
    rewrite E in Hcd. exact Hcd.
  - f_equal. apply IH; [exact (no_adjacent_tail _ _ _ Hn) | discriminate].
Qed.

Lemma rstrip_none cls (s : str) : Forall (fun c => cls c = false) s -> rstrip cls s = s.
Proof.
  induction 1 as [|c r Hc _ IH]; [reflexivity|].
  rewrite rstrip_cons, IH, Hc. destruct r; reflexivity.
Qed.

(** ** slugify *)

Lemma is_hyphen_only c : is_hyphen c = true -> c = HYPHEN.
Proof. unfold is_hyphen. apply N.eqb_eq. Qed.

Lemma slugify_well_formed title : well_formed_slug (slugify title).
Proof.
  unfold slugify, sub_class_plus.
  set (kept := sub_class _ [] (str_lower title)).
  assert (Forall (fun c => slug_keep c = true) kept) as Hkept.
  { eapply Forall_impl; [apply sub_class_Forall|].
    intros c Hc. simpl in Hc. apply negb_false_iff in Hc. exact Hc. }
  set (dashed := sub_runs is_space [HYPHEN] false kept).
  assert (Forall (fun c => slug_char c = true) dashed) as Hdashed.
  { apply (sub_runs_Forall (fun c => slug_keep c = true)); [|reflexivity|exact Hkept].
    intros c Hc Hs. apply keep_not_space; assumption. }
  set (single := sub_runs is_hyphen [HYPHEN] false dashed).
  assert (Forall (fun c => slug_char c = true) single) as Hsingle.
  { apply (sub_runs_Forall (fun c => slug_char c = true)); [|reflexivity|exact Hdashed].
    intros c Hc _. exact Hc. }
  destruct (sub_runs_no_adjacent is_hyphen HYPHEN false dashed) as [Hadj _].
  fold single in Hadj. unfold strip_chars.
  repeat split.
  - apply rstrip_Forall, lstrip_Forall, Hsingle.
  - apply rstrip_head_not, lstrip_head_not.
  - apply rstrip_idempotent.
  - apply rstrip_no_adjacent, lstrip_no_adjacent, Hadj.
Qed.

Lemma str_lower_slug s :
  Forall (fun c => slug_char c = true) s -> str_lower s = s.
Proof.
  induction 1 as [|c r Hc _ IH]; [reflexivity|].
  unfold str_lower in *. simpl. rewrite (slug_char_lower c Hc), IH. reflexivity.
Qed.

Lemma slugify_fixes_slugs s : well_formed_slug s -> slugify s = s.
Proof.
  intros (Hchars & Hhead & Htail & Hadj).
  unfold slugify, sub_class_plus.
  rewrite (str_lower_slug s Hchars).
  rewrite sub_class_none.
  2:{ eapply Forall_impl; [exact Hchars|]. intros c Hc. simpl.
      rewrite (slug_char_keep c Hc). reflexivity. }
  rewrite (sub_runs_none is_space).
  2:{ eapply Forall_impl; [exact Hchars|]. intros c Hc. apply slug_char_not_space, Hc. }
  rewrite (sub_runs_fixed is_hyphen HYPHEN false s is_hyphen_only Hadj) by discriminate.
  apply strip_chars_fixed; assumption.
Qed.

(** C9. Every generated slug is a fixed point of the slug generator:
    for every title, [slugify (slugify title) = slugify title]. *)
Theorem slugify_idempotent (title : str) :
  slugify (slugify title) = slugify title.
Proof. apply slugify_fixes_slugs, slugify_well_formed. Qed.

Lemma lower_char_plain c :
  is_ascii_alnum c = false -> lowers_into_ascii c = false ->
  lower_char c = [c].
Proof.
  intros Ha Hl. unfold lower_char.
  assert (is_ascii_upper c = false) as -> by
    (unfold is_ascii_alnum, lowers_into_ascii, slug_keep, is_hyphen, is_space,
     is_ascii_upper, is_ascii_lower, is_ascii_digit, in_range, HYPHEN in *; char_facts; lia).
  assert ((c =? 304) = false) as -> by
    (unfold is_ascii_alnum, lowers_into_ascii, slug_keep, is_hyphen, is_space,
     is_ascii_upper, is_ascii_lower, is_ascii_digit, in_range, HYPHEN in *; char_facts; lia).
  assert ((c =? 8490) = false) as -> by
    (unfold is_ascii_alnum, lowers_into_ascii, slug_keep, is_hyphen, is_space,
     is_ascii_upper, is_ascii_lower, is_ascii_digit, in_range, HYPHEN in *; char_facts; lia).
  reflexivity.
Qed.

Lemma not_alnum_kept c :
  is_ascii_alnum c = false -> slug_keep c = true ->
  is_space c || is_hyphen c = true.
Proof.
  unfold is_ascii_alnum, lowers_into_ascii, slug_keep, is_hyphen, is_space,
    is_ascii_upper, is_ascii_lower, is_ascii_digit, in_range, HYPHEN in *; 
  char_facts. lia.
Qed.

(** C10, as the code has it.  A title with no ASCII letter, no ASCII
    digit and none of the two code points whose lowercase form is an ASCII
    letter (U+0130, U+212A) has the empty slug. *)
Theorem slugify_no_alnum_empty (title : str) :
  Forall (fun c => is_ascii_alnum c = false /\ lowers_into_ascii c = false) title ->
  slugify title = [].
Proof.
  intros Htitle. unfold slugify, sub_class_plus.
  assert (str_lower title = title) as ->.
  { unfold str_lower. induction Htitle as [|c r [Ha Hl] _ IH]; [reflexivity|].
    simpl. rewrite (lower_char_plain c Ha Hl), IH. reflexivity. }
  set (kept := sub_class _ [] title).
  assert (Forall (fun c => is_space c || is_hyphen c = true) kept) as Hkept.
  { subst kept. induction Htitle as [|c r [Ha _] _ IH]; simpl; [constructor|].
    destruct (slug_keep c) eqn:Ek; simpl; [|exact IH].
    constructor; [apply not_alnum_kept; assumption | exact IH]. }
  set (dashed := sub_runs is_space [HYPHEN] false kept).
  assert (Forall (fun c => is_hyphen c = true) dashed) as Hdashed.
  { apply (sub_runs_Forall (fun c => is_space c || is_hyphen c = true));
      [|reflexivity|exact Hkept].
    intros c Hc Hs. rewrite Hs in Hc. exact Hc. }
  unfold strip_chars. rewrite lstrip_all; [reflexivity|].
  apply (sub_runs_Forall (fun c => is_hyphen c = true)); [|reflexivity|exact Hdashed].
  intros c Hc _. exact Hc.
Qed.

(** Punctuation and Cyrillic letters only. *)
Lemma slugify_no_alnum_empty_witness :
  Forall (fun c => is_ascii_alnum c = false /\ lowers_into_ascii c = false)
    [33; 1055; 1088; 32; 63]
  /\ slugify [33; 1055; 1088; 32; 63] = [].
Proof.
  assert (Forall (fun c => is_ascii_alnum c = false /\ lowers_into_ascii c = false)
            [33; 1055; 1088; 32; 63]) as H.
  { repeat constructor. }
  split; [exact H | exact (slugify_no_alnum_empty _ H)].
Defined.

(** C10, as it is stated, fails: the Kelvin sign is no ASCII letter and no
    digit, and its slug is [k]. *)
Lemma slugify_kelvin_sign :
  ~ (forall title : str,
       Forall (fun c => is_ascii_alnum c = false) title -> slugify title = []).
Proof.
  intros H. specialize (H [8490]).
  assert (slugify [8490] = ustr "k") as E by reflexivity.
  rewrite H in E; [discriminate|]. repeat constructor.
Qed.

(** ** The inline formatter *)

(** *** Text that a pass leaves alone *)

Lemma re_sub_untouched (m : str -> option (str * str)) (trigger : N -> bool) (s : str) :
  (forall c r, trigger c = false -> m (c :: r) = None) ->
  Forall (fun c => trigger c = false) s ->
  re_sub m 0 s = s.
Proof.
  intros Hm. induction 1 as [|c r Hc _ IH]; simpl; [reflexivity|].
  rewrite (Hm c r Hc), IH. reflexivity.
Qed.

Lemma span_rule_head o opening closing before after c r :
  (o =? c) = false ->
  span_rule (o :: opening) closing before after (c :: r) = None.
Proof. intros H. unfold span_rule. simpl. rewrite H. reflexivity. Qed.

Lemma strip_prefix_cons a pre b s :
  strip_prefix (a :: pre) (b :: s) = if a =? b then strip_prefix pre s else None.
Proof. reflexivity. Qed.

Lemma strip_prefix_app (pre r : str) : strip_prefix pre (pre ++ r) = Some r.
Proof.
  induction pre as [|a pre IH]; simpl; [destruct r; reflexivity|].
  rewrite N.eqb_refl. exact IH.
Qed.

Lemma link_rule_head c r : (91 =? c) = false -> link_rule (c :: r) = None.
Proof.
  intros H. unfold link_rule. change (ustr "[") with [91].
  rewrite strip_prefix_cons, H. reflexivity.
Qed.

Lemma no_inline_trigger_check (s : str) :
  forallb (fun c => negb ((c =? 42) || (c =? 96) || (c =? 91))) s = true ->
  no_inline_trigger s.
Proof.
  unfold no_inline_trigger. induction s as [|c r IH]; simpl; intros H; [constructor|].
  apply andb_true_iff in H as [Hc Hr]. constructor; [|exact (IH Hr)].
  apply negb_true_iff in Hc. char_facts. lia.
Qed.

(** *** The shortest span *)

(** The lazy group stops at the first place where the rest of the
    pattern matches: before it the text holds no character that the rest
    of the pattern can start with. *)
Lemma lazy_group_first {A : Type} (k : str -> option A) (d : N) (a rest : str) (x : A) :
  a <> [] -> Forall (fun c => c <> NL /\ c <> d) a ->
  (forall c r, c <> d -> k (c :: r) = None) ->
  k rest = Some x ->
  lazy_group k (a ++ rest) = Some (a, x).
Proof.
  intros Hne Ha Hk Hrest. induction Ha as [|c r [Hn Hd] Hr IH]; [contradiction|].
  simpl. rewrite (proj2 (N.eqb_neq c NL) Hn).
  destruct r as [|c' r'].
  - simpl. rewrite Hrest. reflexivity.
  - apply Forall_cons in Hr as [[_ Hd'] _].
    change ((c' :: r') ++ rest) with (c' :: r' ++ rest) in *.
    rewrite (Hk c' (r' ++ rest) Hd'), IH by discriminate. reflexivity.
Qed.

Lemma re_sub_skip (m : str -> option (str * str)) (x rest : str) :
  re_sub m (length x) (x ++ rest) = re_sub m 0 rest.
Proof. induction x as [|c r IH]; [destruct rest; reflexivity | exact IH]. Qed.

(** A match at the head of the text is replaced, and the scan goes on
    after it. *)
Lemma re_sub_match (m : str -> option (str * str)) (matched rest out : str) :
  matched <> [] -> m (matched ++ rest) = Some (out, rest) ->
  re_sub m 0 (matched ++ rest) = out ++ re_sub m 0 rest.
Proof.
  intros Hne Hm. destruct matched as [|c mt]; [contradiction|].
  change ((c :: mt) ++ rest) with (c :: mt ++ rest) in *.
  cbn [re_sub]. rewrite Hm. f_equal.
  rewrite length_app.
  replace (length mt + length rest - length rest)%nat with (length mt) by lia.
  apply re_sub_skip.
Qed.

Lemma re_sub_miss (m : str -> option (str * str)) (c : N) (r : str) :
  m (c :: r) = None -> re_sub m 0 (c :: r) = c :: re_sub m 0 r.
Proof. intros H. cbn [re_sub]. rewrite H. reflexivity. Qed.

Lemma re_sub_plain_prefix (m : str -> option (str * str)) (trigger : N -> bool)
    (a rest : str) :
  (forall c r, trigger c = false -> m (c :: r) = None) ->
  Forall (fun c => trigger c = false) a ->
  re_sub m 0 (a ++ rest) = a ++ re_sub m 0 rest.
Proof.
  intros Hm. induction 1 as [|c r Hc _ IH]; [reflexivity|].
  change ((c :: r) ++ rest) with (c :: r ++ rest).
  rewrite (re_sub_miss m c _ (Hm c _ Hc)), IH. reflexivity.
Qed.

Lemma span_text_facts (a : str) :
  span_text a ->
  a <> []
  /\ (forall d, d = 42 \/ d = 96 \/ d = 93 \/ d = 41 ->
        Forall (fun c => c <> NL /\ c <> d) a)
  /\ (forall d, d = 42 \/ d = 96 \/ d = 91 -> Forall (fun c => (d =? c) = false) a)
  /\ no_inline_trigger a.
Proof.
  intros [Hne Ha]. split; [exact Hne|].
  assert (Forall (fun c => c <> NL /\ c <> 42 /\ c <> 96 /\ c <> 91 /\ c <> 93
                           /\ c <> 40 /\ c <> 41) a) as H.
  { eapply Forall_impl; [exact Ha|]. intros c Hc. unfold span_char in Hc.
    apply negb_true_iff in Hc. char_facts. tauto. }
  split; [|split].
  - intros d Hd. eapply Forall_impl; [exact H|]. intros c Hc. cbv beta in *.
    destruct Hd as [-> | [-> | [-> | ->]]]; tauto.
  - intros d Hd. eapply Forall_impl; [exact H|]. intros c Hc. cbv beta in *.
    apply N.eqb_neq. destruct Hd as [-> | [-> | ->]]; intros <-; tauto.
  - eapply Forall_impl; [exact H|]. intros c Hc. cbv beta in *. tauto.
Qed.

(** A span with its delimiters at the head of the text: the rule takes
    the text up to the first closing delimiter. *)
Lemma span_rule_takes (opening closing' before after : str) (d : N) (a rest : str) :
  a <> [] -> Forall (fun c => c <> NL /\ c <> d) a ->
  span_rule opening (d :: closing') before after (opening ++ a ++ (d :: closing') ++ rest)
  = Some (before ++ a ++ after, rest).
Proof.
  intros Hne Ha. unfold span_rule. rewrite strip_prefix_app.
  rewrite (lazy_group_first (strip_prefix (d :: closing')) d a _ rest Hne Ha).
  - reflexivity.
  - intros c r Hc. rewrite strip_prefix_cons.
    rewrite (proj2 (N.eqb_neq d c)) by congruence. reflexivity.
  - apply strip_prefix_app.
Qed.

Lemma span_pass_first (opening closing' before after : str) (d : N) (a rest : str) :
  a <> [] -> Forall (fun c => c <> NL /\ c <> d) a ->
  re_sub (span_rule opening (d :: closing') before after) 0
    (opening ++ a ++ (d :: closing') ++ rest)
  = before ++ a ++ after
    ++ re_sub (span_rule opening (d :: closing') before after) 0 rest.
Proof.
  intros Hne Ha.
  pose proof (span_rule_takes opening closing' before after d a rest Hne Ha) as Hm.
  assert (opening ++ a ++ (d :: closing') ++ rest
          = (opening ++ a ++ d :: closing') ++ rest) as E
    by (rewrite <- !app_assoc; reflexivity).
  rewrite E in *. rewrite (re_sub_match _ _ rest _) with (2 := Hm).
  - rewrite <- !app_assoc. reflexivity.
  - intros E'. apply app_eq_nil in E' as [_ E']. apply app_eq_nil in E' as [_ E'].
    discriminate.
Qed.

Lemma link_rule_takes (a u rest : str) :
  span_text a -> span_text u ->
  link_rule (ustr "[" ++ a ++ ustr "](" ++ u ++ ustr ")" ++ rest)
  = Some (anchor u a, rest).
Proof.
  intros Ha Hu.
  destruct (span_text_facts a Ha) as (Hane & Had & _).
  destruct (span_text_facts u Hu) as (Hune & Hud & _).
  unfold link_rule. rewrite strip_prefix_app.
  rewrite (lazy_group_first _ 93 a _ (u, rest) Hane (Had 93 ltac:(tauto))).
  - reflexivity.
  - intros c r Hc. change (ustr "](") with [93; 40]. rewrite strip_prefix_cons.
    rewrite (proj2 (N.eqb_neq 93 c)) by congruence. reflexivity.
  - rewrite strip_prefix_app.
    apply (lazy_group_first _ 41 u _ rest Hune (Hud 41 ltac:(tauto))).
    + intros c r Hc. change (ustr ")") with [41]. rewrite strip_prefix_cons.
      rewrite (proj2 (N.eqb_neq 41 c)) by congruence. reflexivity.
    + apply strip_prefix_app.
Qed.

(** *** Delimiters too short for a pass *)

Lemma strip_prefix_short (d : N) (n : nat) : forall (j : nat) (c : N) (r : str),
  (j < n)%nat -> c <> d -> strip_prefix (repeat d n) (repeat d j ++ c :: r) = None.
Proof.
  induction n as [|n IH]; intros j c r Hj Hc; [lia|].
  destruct j as [|j]; simpl.
  - rewrite (proj2 (N.eqb_neq d c)) by congruence. reflexivity.
  - rewrite N.eqb_refl. apply IH; [lia | exact Hc].
Qed.

(** A pass whose delimiter is longer than the run of delimiter characters
    before the text leaves that run and the text as they are. *)
Lemma span_pass_short (d : N) (n : nat) (before after : str) (a tail : str) :
  forall j : nat,
  (j < n)%nat -> a <> [] -> Forall (fun c => (d =? c) = false) a ->
  re_sub (span_rule (repeat d n) (repeat d n) before after) 0 (repeat d j ++ a ++ tail)
  = repeat d j ++ a
    ++ re_sub (span_rule (repeat d n) (repeat d n) before after) 0 tail.
Proof.
  intros j Hj Hne Ha. induction j as [|j IH].
  - simpl. destruct n as [|n]; [lia|].
    apply (re_sub_plain_prefix _ (N.eqb d)); [|exact Ha].
    intros c r Hc. apply span_rule_head, Hc.
  - change (repeat d (S j) ++ a ++ tail) with (d :: repeat d j ++ a ++ tail).
    rewrite re_sub_miss; [rewrite IH by lia; reflexivity|].
    destruct a as [|c r]; [contradiction|]. apply Forall_cons in Ha as [Hc _].
    unfold span_rule.
    change (d :: repeat d j ++ (c :: r) ++ tail) with (repeat d (S j) ++ c :: r ++ tail).
    rewrite strip_prefix_short; [reflexivity | exact Hj |].
    apply N.eqb_neq in Hc. congruence.
Qed.

(** Text with no asterisk, no backtick and no opening square bracket
    goes through each pass as it is. *)
Lemma passes_untouched (s : str) :
  no_inline_trigger s ->
  bold_italic_pass s = s /\ bold_pass s = s /\ italic_pass s = s
  /\ code_pass s = s /\ link_pass s = s.
Proof.
  intros H. unfold bold_italic_pass, bold_pass, italic_pass, code_pass, link_pass.
  assert (Forall (fun c => (42 =? c) = false) s) as Hstar.
  { eapply Forall_impl; [exact H|]. intros c Hc. simpl in Hc. apply N.eqb_neq. lia. }
  assert (Forall (fun c => (96 =? c) = false) s) as Htick.
  { eapply Forall_impl; [exact H|]. intros c Hc. simpl in Hc. apply N.eqb_neq. lia. }
  assert (Forall (fun c => (91 =? c) = false) s) as Hopen.
  { eapply Forall_impl; [exact H|]. intros c Hc. simpl in Hc. apply N.eqb_neq. lia. }
  repeat split.
  - apply (re_sub_untouched _ (N.eqb 42)); [|exact Hstar].
    intros c r Hc. apply span_rule_head, Hc.
  - apply (re_sub_untouched _ (N.eqb 42)); [|exact Hstar].
    intros c r Hc. apply span_rule_head, Hc.
  - apply (re_sub_untouched _ (N.eqb 42)); [|exact Hstar].
    intros c r Hc. apply span_rule_head, Hc.
  - apply (re_sub_untouched _ (N.eqb 96)); [|exact Htick].
    intros c r Hc. apply span_rule_head, Hc.
  - apply (re_sub_untouched _ (N.eqb 91)); [|exact Hopen].
    intros c r Hc. apply link_rule_head, Hc.
Qed.

Lemma no_inline_trigger_app (x y : str) :
  no_inline_trigger x -> no_inline_trigger y -> no_inline_trigger (x ++ y).
Proof. unfold no_inline_trigger. intros Hx Hy. apply Forall_app. split; assumption. Qed.

(** *** The five passes, one by one *)

Lemma bold_italic_first (a rest : str) :
  span_text a ->
  bold_italic_pass (ustr "***" ++ a ++ ustr "***" ++ rest)
  = ustr "<strong><em>" ++ a ++ ustr "</em></strong>" ++ bold_italic_pass rest.
Proof.
  intros Ha. destruct (span_text_facts a Ha) as (Hne & Hd & _).
  apply (span_pass_first (ustr "***") [42; 42] _ _ 42 a rest Hne (Hd 42 ltac:(tauto))).
Qed.

Lemma bold_first (a rest : str) :
  span_text a ->
  bold_pass (ustr "**" ++ a ++ ustr "**" ++ rest)
  = ustr "<strong>" ++ a ++ ustr "</strong>" ++ bold_pass rest.
Proof.
  intros Ha. destruct (span_text_facts a Ha) as (Hne & Hd & _).
  apply (span_pass_first (ustr "**") [42] _ _ 42 a rest Hne (Hd 42 ltac:(tauto))).
Qed.

Lemma italic_first (a rest : str) :
  span_text a ->
  italic_pass (ustr "*" ++ a ++ ustr "*" ++ rest)
  = ustr "<em>" ++ a ++ ustr "</em>" ++ italic_pass rest.
Proof.
  intros Ha. destruct (span_text_facts a Ha) as (Hne & Hd & _).
  apply (span_pass_first (ustr "*") [] _ _ 42 a rest Hne (Hd 42 ltac:(tauto))).
Qed.

Lemma code_first (a rest : str) :
  span_text a ->
  code_pass (ustr "`" ++ a ++ ustr "`" ++ rest)
  = ustr "<code>" ++ a ++ ustr "</code>" ++ code_pass rest.
Proof.
  intros Ha. destruct (span_text_facts a Ha) as (Hne & Hd & _).
  apply (span_pass_first (ustr "`") [] _ _ 96 a rest Hne (Hd 96 ltac:(tauto))).
Qed.

Lemma link_first (a u rest : str) :
  span_text a -> span_text u ->
  link_pass (ustr "[" ++ a ++ ustr "](" ++ u ++ ustr ")" ++ rest)
  = anchor u a ++ link_pass rest.
Proof.
  intros Ha Hu. unfold link_pass.
  pose proof (link_rule_takes a u rest Ha Hu) as Hm.
  assert (ustr "[" ++ a ++ ustr "](" ++ u ++ ustr ")" ++ rest
          = (ustr "[" ++ a ++ ustr "](" ++ u ++ ustr ")") ++ rest) as E
    by (rewrite <- !app_assoc; reflexivity).
  rewrite E in *. apply re_sub_match; [discriminate | exact Hm].
Qed.

Lemma star_passes_untouched (s : str) :
  Forall (fun c => (42 =? c) = false) s ->
  bold_italic_pass s = s /\ bold_pass s = s /\ italic_pass s = s.
Proof.
  intros H. unfold bold_italic_pass, bold_pass, italic_pass.
  repeat split; (apply (re_sub_untouched _ (N.eqb 42)); [|exact H]);
    intros c r Hc; apply span_rule_head, Hc.
Qed.

Lemma code_pass_untouched (s : str) :
  Forall (fun c => (96 =? c) = false) s -> code_pass s = s.
Proof.
  intros H. unfold code_pass. apply (re_sub_untouched _ (N.eqb 96)); [|exact H].
  intros c r Hc. apply span_rule_head, Hc.
Qed.

(** The element of a span, once written, goes through the passes that
    are left as it is. *)
Lemma element_untouched (before a after : str) :
  forallb (fun c => negb ((c =? 42) || (c =? 96) || (c =? 91))) before = true ->
  forallb (fun c => negb ((c =? 42) || (c =? 96) || (c =? 91))) after = true ->
  span_text a ->
  no_inline_trigger (before ++ a ++ after).
Proof.
  intros Hb Hafter Ha. destruct (span_text_facts a Ha) as (_ & _ & _ & Hplain).
  apply no_inline_trigger_app; [apply no_inline_trigger_check, Hb|].
  apply no_inline_trigger_app; [exact Hplain | apply no_inline_trigger_check, Hafter].
Qed.

(** *** One span through the formatter *)

Lemma format_bold_italic (a : str) :
  span_text a ->
  inline_format (ustr "***" ++ a ++ ustr "***")
  = ustr "<strong><em>" ++ a ++ ustr "</em></strong>".
Proof.
  intros Ha. unfold inline_format.
  pose proof (bold_italic_first a [] Ha) as H1.
  rewrite !app_nil_r in H1. rewrite H1.
  destruct (passes_untouched _ (element_untouched (ustr "<strong><em>") a
              (ustr "</em></strong>") eq_refl eq_refl Ha)) as (_ & -> & -> & -> & ->).
  reflexivity.
Qed.

Lemma format_bold (a : str) :
  span_text a ->
  inline_format (ustr "**" ++ a ++ ustr "**") = ustr "<strong>" ++ a ++ ustr "</strong>".
Proof.
  intros Ha. unfold inline_format.
  destruct (span_text_facts a Ha) as (Hne & _ & Hd & _).
  assert (bold_italic_pass (ustr "**" ++ a ++ ustr "**") = ustr "**" ++ a ++ ustr "**")
    as ->.
  { unfold bold_italic_pass.
    exact (span_pass_short 42 3 _ _ a (ustr "**") 2 ltac:(lia) Hne (Hd 42 ltac:(tauto))). }
  pose proof (bold_first a [] Ha) as H2.
  rewrite !app_nil_r in H2. rewrite H2.
  destruct (passes_untouched _ (element_untouched (ustr "<strong>") a
              (ustr "</strong>") eq_refl eq_refl Ha)) as (_ & _ & -> & -> & ->).
  reflexivity.
Qed.

Lemma format_italic (a : str) :
  span_text a ->
  inline_format (ustr "*" ++ a ++ ustr "*") = ustr "<em>" ++ a ++ ustr "</em>".
Proof.
  intros Ha. unfold inline_format.
  destruct (span_text_facts a Ha) as (Hne & _ & Hd & _).
  assert (bold_italic_pass (ustr "*" ++ a ++ ustr "*") = ustr "*" ++ a ++ ustr "*") as ->.
  { unfold bold_italic_pass.
    exact (span_pass_short 42 3 _ _ a (ustr "*") 1 ltac:(lia) Hne (Hd 42 ltac:(tauto))). }
  assert (bold_pass (ustr "*" ++ a ++ ustr "*") = ustr "*" ++ a ++ ustr "*") as ->.
  { unfold bold_pass.
    exact (span_pass_short 42 2 _ _ a (ustr "*") 1 ltac:(lia) Hne (Hd 42 ltac:(tauto))). }
  pose proof (italic_first a [] Ha) as H3.
  rewrite !app_nil_r in H3. rewrite H3.
  destruct (passes_untouched _ (element_untouched (ustr "<em>") a
              (ustr "</em>") eq_refl eq_refl Ha)) as (_ & _ & _ & -> & ->).
  reflexivity.
Qed.

Lemma format_code (a : str) :
  span_text a ->
  inline_format (ustr "`" ++ a ++ ustr "`") = ustr "<code>" ++ a ++ ustr "</code>".
Proof.
  intros Ha. unfold inline_format.
  destruct (span_text_facts a Ha) as (Hne & _ & Hd & _).
  assert (Forall (fun c => (42 =? c) = false) (ustr "`" ++ a ++ ustr "`")) as Hstar.
  { rewrite !Forall_app. repeat split; [repeat constructor | | repeat constructor].
    apply (Hd 42). tauto. }
  destruct (star_passes_untouched _ Hstar) as (-> & -> & ->).
  pose proof (code_first a [] Ha) as H4.
  rewrite !app_nil_r in H4. rewrite H4.
  destruct (passes_untouched _ (element_untouched (ustr "<code>") a
              (ustr "</code>") eq_refl eq_refl Ha)) as (_ & _ & _ & _ & ->).
  reflexivity.
Qed.

Lemma format_link (a u : str) :
  span_text a -> span_text u ->
  inline_format (ustr "[" ++ a ++ ustr "](" ++ u ++ ustr ")") = anchor u a.
Proof.
  intros Ha Hu. unfold inline_format.
  destruct (span_text_facts a Ha) as (_ & _ & Had & _).
  destruct (span_text_facts u Hu) as (_ & _ & Hud & _).
  assert (Forall (fun c => (42 =? c) = false)
            (ustr "[" ++ a ++ ustr "](" ++ u ++ ustr ")")) as Hstar.
  { rewrite !Forall_app. repeat split; try (repeat constructor; fail).
    - apply (Had 42). tauto.
    - apply (Hud 42). tauto. }
  assert (Forall (fun c => (96 =? c) = false)
            (ustr "[" ++ a ++ ustr "](" ++ u ++ ustr ")")) as Htick.
  { rewrite !Forall_app. repeat split; try (repeat constructor; fail).
    - apply (Had 96). tauto.
    - apply (Hud 96). tauto. }
  destruct (star_passes_untouched _ Hstar) as (-> & -> & ->).
  rewrite (code_pass_untouched _ Htick).
  pose proof (link_first a u [] Ha Hu) as H5.
  rewrite !app_nil_r in H5. exact H5.
Qed.

(** *** The sample line *)

(** C6. The sample line becomes one strong, one emphasis, one code and
    one anchor span, each around its own text.  The formatter is the five
    passes in the order bold+italic, bold, italic, code, links, and the
    order shows: three asterisks around a text give the combined element,
    two the strong one, one the emphasis, and a link is made after the
    emphasis inside it.  Every pass takes the shortest span: whatever
    follows, the span at the head of a text ends at the first closing
    delimiter, and the pass goes on behind it. *)
Theorem inline_format_sample (a u rest : str) :
  span_text a -> span_text u ->
  (inline_format sample_line = sample_html
   /\ (count_sub (ustr "<strong>") (inline_format sample_line) = 1%nat
       /\ count_sub (ustr "<strong>bold</strong>") (inline_format sample_line) = 1%nat)
   /\ (count_sub (ustr "<em>") (inline_format sample_line) = 1%nat
       /\ count_sub (ustr "<em>italic</em>") (inline_format sample_line) = 1%nat)
   /\ (count_sub (ustr "<code>") (inline_format sample_line) = 1%nat
       /\ count_sub (ustr "<code>code</code>") (inline_format sample_line) = 1%nat)
   /\ (count_sub (ustr "<a ") (inline_format sample_line) = 1%nat
       /\ count_sub (sample_anchor ++ ustr "text</a>") (inline_format sample_line) = 1%nat))
  /\ (forall s : str,
        inline_format s =
          link_pass (code_pass (italic_pass (bold_pass (bold_italic_pass s)))))
  /\ (inline_format (ustr "***" ++ a ++ ustr "***")
        = ustr "<strong><em>" ++ a ++ ustr "</em></strong>"
      /\ inline_format (ustr "**" ++ a ++ ustr "**")
        = ustr "<strong>" ++ a ++ ustr "</strong>"
      /\ inline_format (ustr "*" ++ a ++ ustr "*") = ustr "<em>" ++ a ++ ustr "</em>"
      /\ inline_format (ustr "`" ++ a ++ ustr "`") = ustr "<code>" ++ a ++ ustr "</code>"
      /\ inline_format (ustr "[" ++ a ++ ustr "](" ++ u ++ ustr ")") = anchor u a
      /\ inline_format (ustr "[*a](u*)")
        = ustr "<a href=" ++ [DQUOTE] ++ ustr "u</em>" ++ [DQUOTE] ++ ustr "><em>a</a>")
  /\ (bold_italic_pass (ustr "***" ++ a ++ ustr "***" ++ rest)
        = ustr "<strong><em>" ++ a ++ ustr "</em></strong>" ++ bold_italic_pass rest
      /\ bold_pass (ustr "**" ++ a ++ ustr "**" ++ rest)
        = ustr "<strong>" ++ a ++ ustr "</strong>" ++ bold_pass rest
      /\ italic_pass (ustr "*" ++ a ++ ustr "*" ++ rest)
        = ustr "<em>" ++ a ++ ustr "</em>" ++ italic_pass rest
      /\ code_pass (ustr "`" ++ a ++ ustr "`" ++ rest)
        = ustr "<code>" ++ a ++ ustr "</code>" ++ code_pass rest
      /\ link_pass (ustr "[" ++ a ++ ustr "](" ++ u ++ ustr ")" ++ rest)
        = anchor u a ++ link_pass rest
      /\ italic_pass (ustr "*a* and *b*") = ustr "<em>a</em> and <em>b</em>").
Proof.
  intros Ha Hu.
  assert (inline_format sample_line = sample_html) as E by (vm_compute; reflexivity).
  split; [split; [exact E|]; rewrite E; repeat split; vm_compute; reflexivity|].
  split; [intros s; reflexivity|].
  split.
  - split; [exact (format_bold_italic a Ha)|].
    split; [exact (format_bold a Ha)|].
    split; [exact (format_italic a Ha)|].
    split; [exact (format_code a Ha)|].
    split; [exact (format_link a u Ha Hu) | vm_compute; reflexivity].
  - split; [exact (bold_italic_first a rest Ha)|].
    split; [exact (bold_first a rest Ha)|].
    split; [exact (italic_first a rest Ha)|].
    split; [exact (code_first a rest Ha)|].
    split; [exact (link_first a u rest Ha Hu) | vm_compute; reflexivity].
Qed.

Lemma span_text_check (a : str) :
  negb (bool_decide (a = [])) && forallb span_char a = true -> span_text a.
Proof.
  intros H. apply andb_true_iff in H as [Hn Hc]. split.
  - apply negb_true_iff, bool_decide_eq_false in Hn. exact Hn.
  - clear Hn. induction a as [|c r IH]; [constructor|].
    simpl in Hc. apply andb_true_iff in Hc as [Hc Hr].
    constructor; [exact Hc | exact (IH Hr)].
Qed.

(** Two strong spans stay two, and a link after a link is a link of its
    own. *)
Lemma inline_format_sample_witness :
  (span_text (ustr "bold") /\ span_text (ustr "http://x"))
  /\ bold_pass (ustr "**" ++ ustr "bold" ++ ustr "**" ++ ustr " and **more**")
     = ustr "<strong>" ++ ustr "bold" ++ ustr "</strong>"
       ++ bold_pass (ustr " and **more**")
  /\ inline_format (ustr "[" ++ ustr "bold" ++ ustr "](" ++ ustr "http://x" ++ ustr ")")
     = anchor (ustr "http://x") (ustr "bold").
Proof.
  assert (span_text (ustr "bold")) as Ha by (apply span_text_check; reflexivity).
  assert (span_text (ustr "http://x")) as Hu by (apply span_text_check; reflexivity).
  split; [split; assumption|].
  destruct (inline_format_sample (ustr "bold") (ustr "http://x") (ustr " and **more**")
              Ha Hu) as (_ & _ & (_ & _ & _ & _ & Hlink & _) & (_ & Hbold & _)).
  split; [exact Hbold | exact Hlink].
Defined.

(** ** The block converter *)

Lemma emit_result frag st : result (emit frag st) = result st ++ [frag].
Proof. reflexivity. Qed.

Lemma one_line_Forall (s : str) : one_line s <-> Forall (fun c => c <> NL) s.
Proof.
  unfold one_line. rewrite Forall_forall. split.
  - intros H c Hc ->. exact (H Hc).
  - intros H Hin. exact (H NL Hin eq_refl).
Qed.

Lemma one_line_check (l : str) :
  forallb (fun c => negb (c =? NL)) l = true -> one_line l.
Proof.
  unfold one_line. induction l as [|c r IH]; simpl; intros H.
  - apply not_elem_of_nil.
  - apply andb_true_iff in H as [Hc Hr]. apply not_elem_of_cons. split.
    + apply negb_true_iff, N.eqb_neq in Hc. congruence.
    + exact (IH Hr).
Qed.

Lemma split_on_line (l rest : str) :
  one_line l -> split_on NL (l ++ NL :: rest) = l :: split_on NL rest.
Proof.
  unfold one_line. induction l as [|c r IH]; intros Hl; [reflexivity|].
  apply not_elem_of_cons in Hl as [Hc Hr]. simpl.
  destruct (N.eqb_spec c NL) as [->|_]; [congruence|].
  rewrite (IH Hr). reflexivity.
Qed.

Lemma split_on_last (l : str) : one_line l -> split_on NL l = [l].
Proof.
  unfold one_line. induction l as [|c r IH]; intros Hl; [reflexivity|].
  apply not_elem_of_cons in Hl as [Hc Hr]. simpl.
  destruct (N.eqb_spec c NL) as [->|_]; [congruence|].
  rewrite (IH Hr). reflexivity.
Qed.

(** *** Code fences *)

Lemma step_in_fence nd st line :
  in_code st = true -> is_fence line = false ->
  step nd st line = emit (html_escape line) st.
Proof. unfold step, is_fence. intros -> ->. reflexivity. Qed.

Lemma step_closing_fence nd st line :
  in_code st = true -> is_fence line = true ->
  step nd st line = set_in_code false (emit (ustr "</code></pre>") st).
Proof. unfold step, is_fence. intros -> ->. reflexivity. Qed.

Lemma run_in_fence nd lines : forall st,
  in_code st = true -> Forall (fun l => is_fence l = false) lines ->
  run nd st lines =
    Conv (result st ++ List.map html_escape lines) (in_list st) (in_ol st) true
         (in_blockquote st) (bq_lines st).
Proof.
  induction lines as [|l ls IH]; intros st Hc Hls.
  - simpl. rewrite app_nil_r. destruct st; simpl in *. congruence.
  - apply Forall_cons in Hls as [Hl Hls].
    unfold run in *. simpl fold_left. rewrite (step_in_fence nd st l Hc Hl).
    rewrite (IH (emit (html_escape l) st) Hc Hls). simpl.
    rewrite <- app_assoc. reflexivity.
Qed.

Lemma run_app nd st ls1 ls2 : run nd st (ls1 ++ ls2) = run nd (run nd st ls1) ls2.
Proof. unfold run. apply fold_left_app. Qed.

(** The escape touches five characters (ampersand, the two angle brackets
    and the two quotes) and nothing else: an asterisk or a backtick goes
    through as it is. *)
Lemma html_escape_plain (s : str) :
  Forall (fun c => c <> 38 /\ c <> 60 /\ c <> 62 /\ c <> 34 /\ c <> 39) s ->
  html_escape s = s.
Proof.
  intros H. unfold html_escape, replace_char.
  assert (forall k by_, (k = 38 \/ k = 60 \/ k = 62 \/ k = 34 \/ k = 39) ->
            sub_class (N.eqb k) by_ s = s) as Hsame.
  { intros k by_ Hk. apply sub_class_none.
    eapply Forall_impl; [exact H|]. intros c Hc. simpl in *. apply N.eqb_neq. lia. }
  rewrite !Hsame by lia. reflexivity.
Qed.

(** C7. Inside an open code fence every line that is no fence delimiter
    is appended to the output HTML-escaped and otherwise as it is, with no
    inline formatting and no change of the other modes; the next fence
    delimiter appends the closing fragment and leaves the mode. *)
Theorem code_fence_lines_escaped (nd : N -> option N) (st : conv)
    (lines : list str) (fence : str) :
  in_code st = true ->
  Forall (fun l => is_fence l = false) lines ->
  is_fence fence = true ->
  run nd st lines =
    Conv (result st ++ List.map html_escape lines) (in_list st) (in_ol st) true
         (in_blockquote st) (bq_lines st)
  /\ run nd st (lines ++ [fence]) =
    Conv (result st ++ List.map html_escape lines ++ [ustr "</code></pre>"])
         (in_list st) (in_ol st) false (in_blockquote st) (bq_lines st).
Proof.
  intros Hc Hls Hf. pose proof (run_in_fence nd lines st Hc Hls) as Hrun.
  split; [exact Hrun|].
  rewrite run_app, Hrun. unfold run. simpl fold_left.
  rewrite step_closing_fence by (reflexivity || exact Hf).
  unfold set_in_code, emit. simpl. rewrite <- app_assoc. reflexivity.
Qed.

(** A fence that holds a script tag and an asterisk pair. *)
Lemma code_fence_lines_escaped_witness :
  let st := step ascii_digits_only init (ustr "```") in
  let lines := [ustr "<script>"; ustr "*a*"] in
  (in_code st = true
   /\ Forall (fun l => is_fence l = false) lines
   /\ is_fence (ustr "```") = true)
  /\ result (run ascii_digits_only st (lines ++ [ustr "```"])) =
       [ustr "<pre><code>"; ustr "&lt;script&gt;"; ustr "*a*"; ustr "</code></pre>"].
Proof.
  intros st lines.
  assert (in_code st = true) as H1 by reflexivity.
  assert (Forall (fun l => is_fence l = false) lines) as H2
    by (repeat constructor).
  assert (is_fence (ustr "```") = true) as H3 by reflexivity.
  split; [repeat split; assumption|].
  destruct (code_fence_lines_escaped ascii_digits_only st lines (ustr "```") H1 H2 H3)
    as [_ ->].
  reflexivity.
Defined.

(** *** Lists *)

Lemma greedy_plus_all cls c r :
  cls c = true -> greedy_plus cls Some (c :: r) = Some (lstrip cls r).
Proof.
  revert c. induction r as [|d r IH]; intros c Hc; simpl; rewrite Hc; [reflexivity|].
  destruct (cls d) eqn:Ed.
  - specialize (IH d Ed). simpl in IH. rewrite Ed in IH. rewrite IH. reflexivity.
  - reflexivity.
Qed.

Lemma startswith_cons a pre b s :
  startswith (a :: pre) (b :: s) = (a =? b) && startswith pre s.
Proof. reflexivity. Qed.

(** A line that starts with the marker and has text after it: what the
    trimmed line looks like. *)
Lemma strip_item_line (l : str) :
  startswith (ustr "- ") l = true -> strip (drop 2 l) <> [] ->
  exists d r, strip l = HYPHEN :: 32 :: d :: r
              /\ lstrip is_space (d :: r) = strip (drop 2 l).
Proof.
  change (ustr "- ") with [HYPHEN; 32].
  destruct l as [|a [|b rest]]; try discriminate.
  { rewrite startswith_cons. simpl startswith at 1. rewrite andb_false_r. discriminate. }
  rewrite !startswith_cons.
  intros Hs Hne. apply andb_true_iff in Hs as [Ha Hb].
  apply andb_true_iff in Hb as [Hb _].
  apply N.eqb_eq in Ha, Hb. subst a b.
  change (drop 2 (HYPHEN :: 32 :: rest)) with rest in *.
  unfold strip, strip_chars in *.
  rewrite <- lstrip_rstrip in Hne.
  change (lstrip is_space (HYPHEN :: 32 :: rest)) with (HYPHEN :: 32 :: rest).
  rewrite !rstrip_cons.
  destruct (rstrip is_space rest) as [|d r] eqn:Er; [contradiction Hne; reflexivity|].
  exists d, r. split; [reflexivity|].
  rewrite <- lstrip_rstrip, Er. reflexivity.
Qed.

Lemma heading_match_hyphen r : heading_match (HYPHEN :: r) = None.
Proof. reflexivity. Qed.

(** What the loop does with an item of an unordered list, outside a code
    fence and a blockquote. *)
Lemma step_unordered_item nd st (l : str) :
  in_code st = false -> in_blockquote st = false ->
  startswith (ustr "- ") l = true -> strip (drop 2 l) <> [] ->
  step nd st l =
    emit (list_item (strip (drop 2 l)))
         (if in_list st then st else set_in_list true (emit (ustr "<ul>") st)).
Proof.
  intros Hc Hq Hs Hne.
  destruct (strip_item_line l Hs Hne) as (d & r & Hl & Hcontent).
  unfold step. rewrite Hl.
  change (startswith (ustr "```") (HYPHEN :: 32 :: d :: r)) with false.
  change (startswith (ustr "> ") (HYPHEN :: 32 :: d :: r)) with false.
  cbv iota. rewrite Hc. unfold flush_blockquote. rewrite Hq.
  unfold step_block. rewrite heading_match_hyphen.
  assert (is_rule (HYPHEN :: 32 :: d :: r) = false) as ->.
  { unfold is_rule, str_eqb. rewrite !bool_decide_eq_false_2 by discriminate. reflexivity. }
  unfold ul_marker. change (is_bullet HYPHEN) with true. cbv iota.
  rewrite greedy_plus_all by reflexivity. rewrite Hcontent. reflexivity.
Qed.

(** C8, as the code has it.  Three consecutive lines that each start with
    the marker and have text after it give one list: the opening fragment,
    the three items with their inline-formatted text, the closing
    fragment. *)
Theorem three_items_one_list (nd : N -> option N) (l1 l2 l3 : str) :
  one_line l1 -> one_line l2 -> one_line l3 ->
  startswith (ustr "- ") l1 = true -> strip (drop 2 l1) <> [] ->
  startswith (ustr "- ") l2 = true -> strip (drop 2 l2) <> [] ->
  startswith (ustr "- ") l3 = true -> strip (drop 2 l3) <> [] ->
  md_fragments nd (l1 ++ NL :: l2 ++ NL :: l3) =
    [ustr "<ul>";
     ustr "<li>" ++ inline_format (strip (drop 2 l1)) ++ ustr "</li>";
     ustr "<li>" ++ inline_format (strip (drop 2 l2)) ++ ustr "</li>";
     ustr "<li>" ++ inline_format (strip (drop 2 l3)) ++ ustr "</li>";
     ustr "</ul>"].
Proof.
  intros O1 O2 O3 S1 T1 S2 T2 S3 T3. unfold md_fragments.
  rewrite (split_on_line l1 _ O1), (split_on_line l2 _ O2), (split_on_last l3 O3).
  unfold run. simpl fold_left.
  rewrite (step_unordered_item nd init l1) by (reflexivity || assumption).
  rewrite (step_unordered_item nd _ l2) by (reflexivity || assumption).
  rewrite (step_unordered_item nd _ l3) by (reflexivity || assumption).
  reflexivity.
Qed.

Lemma three_items_one_list_witness :
  md_fragments ascii_digits_only (ustr "- a" ++ NL :: ustr "- *b* " ++ NL :: ustr "-  c") =
    [ustr "<ul>"; ustr "<li>a</li>"; ustr "<li><em>b</em></li>"; ustr "<li>c</li>";
     ustr "</ul>"].
Proof.
  refine (three_items_one_list ascii_digits_only (ustr "- a") (ustr "- *b* ") (ustr "-  c")
            _ _ _ _ _ _ _ _ _);
    first [ reflexivity
          | apply one_line_check; reflexivity
          | vm_compute; discriminate ].
Defined.

(** C8, as it is stated, fails: a line that holds the marker alone is no
    item, and three of them give three paragraphs and no list. *)
Lemma three_bare_markers_no_list :
  ~ (forall (nd : N -> option N) (l1 l2 l3 : str),
       one_line l1 -> one_line l2 -> one_line l3 ->
       startswith (ustr "- ") l1 = true ->
       startswith (ustr "- ") l2 = true ->
       startswith (ustr "- ") l3 = true ->
       ustr "<ul>" ∈ md_fragments nd (l1 ++ NL :: l2 ++ NL :: l3)).
Proof.
  intros H.
  specialize (H ascii_digits_only (ustr "- ") (ustr "- ") (ustr "- ")).
  assert (one_line (ustr "- ")) as O
    by (apply one_line_check; reflexivity).
  specialize (H O O O eq_refl eq_refl eq_refl).
  change (md_fragments _ _) with [ustr "<p>-</p>"; ustr "<p>-</p>"; ustr "<p>-</p>"] in H.
  rewrite !elem_of_cons in H. destruct H as [H|[H|[H|H]]]; try discriminate.
  exact (not_elem_of_nil _ H).
Qed.

(** *** Horizontal rules *)

Lemma step_block_rule nd st stripped :
  exact_rule stripped -> step_block nd stripped st = emit (ustr "<hr>") st.
Proof. intros [-> | [-> | ->]]; reflexivity. Qed.

(** What the code takes for a rule: outside a code fence, a line that is,
    apart from surrounding whitespace, exactly three hyphens, three
    asterisks or three underscores appends the rule fragment, after the
    flush of a blockquote that was open. *)
Lemma rule_line_emits_hr (nd : N -> option N) (st : conv) (line : str) :
  in_code st = false -> exact_rule (strip line) ->
  step nd st line = emit (ustr "<hr>") (flush_blockquote st).
Proof.
  intros Hc Hr. unfold step.
  assert (startswith (ustr "```") (strip line) = false) as ->
    by (destruct Hr as [-> | [-> | ->]]; reflexivity).
  assert (startswith (ustr "> ") (strip line) = false) as ->
    by (destruct Hr as [-> | [-> | ->]]; reflexivity).
  rewrite Hc. apply step_block_rule, Hr.
Qed.

Lemma repeat_Forall (P : N -> Prop) (c : N) (n : nat) : P c -> Forall P (repeat c n).
Proof. intros H. induction n as [|n IH]; simpl; constructor; assumption. Qed.

Lemma long_run_is_rule_run (c : N) (k : nat) :
  c = HYPHEN \/ c = 42 \/ c = 95 -> is_rule_run (repeat c (4 + k)) = true.
Proof.
  intros Hc.
  assert (is_space c = false) as Hs by (destruct Hc as [-> | [-> | ->]]; reflexivity).
  unfold is_rule_run.
  assert (strip (repeat c (4 + k)) = repeat c (4 + k)) as ->.
  { apply strip_chars_fixed; [exact Hs|]. apply rstrip_none, repeat_Forall, Hs. }
  assert (forall n, forallb (N.eqb c) (repeat c n) = true) as Hall.
  { intros n. induction n as [|n IH]; [reflexivity|].
    simpl. rewrite N.eqb_refl. exact IH. }
  assert ((c =? HYPHEN) || (c =? 42) || (c =? 95) = true) as Hrule
    by (destruct Hc as [-> | [-> | ->]]; reflexivity).
  change (repeat c (4 + k)) with (c :: repeat c (3 + k)). cbv beta iota.
  rewrite Hrule, Hall. reflexivity.
Qed.

(** A line of four or more hyphens, or of four or more underscores, is
    emitted as a paragraph. *)
Lemma long_run_paragraph nd (c : N) (k : nat) :
  c = HYPHEN \/ c = 95 ->
  md_fragments nd (repeat c (4 + k))
  = [ustr "<p>" ++ repeat c (4 + k) ++ ustr "</p>"].
Proof.
  intros Hc.
  assert (is_space c = false /\ c <> NL /\ (96 =? c) = false /\ (62 =? c) = false
          /\ (HASH =? c) = false /\ (42 =? c) = false /\ (91 =? c) = false
          /\ is_decimal nd c = false) as (Hs & Hn & H96 & H62 & Hh & H42 & H91 & Hd)
    by (destruct Hc as [-> | ->]; repeat split; discriminate).
  set (line := repeat c (4 + k)).
  assert (one_line line) as Hone
    by (apply one_line_Forall, repeat_Forall, Hn).
  assert (strip line = line) as Hstrip.
  { apply strip_chars_fixed; [exact Hs|]. apply rstrip_none, repeat_Forall, Hs. }
  assert (inline_format line = line) as Hinline.
  { unfold inline_format, bold_italic_pass, bold_pass, italic_pass, code_pass, link_pass.
    rewrite !(re_sub_untouched _ (N.eqb 42) line) by
      (try (apply repeat_Forall, H42); intros x r Hx; apply span_rule_head, Hx).
    rewrite (re_sub_untouched _ (N.eqb 96) line) by
      (try (apply repeat_Forall, H96); intros x r Hx; apply span_rule_head, Hx).
    apply (re_sub_untouched _ (N.eqb 91) line); [|apply repeat_Forall, H91].
    intros x r Hx. apply link_rule_head, Hx. }
  unfold md_fragments. rewrite (split_on_last line Hone).
  unfold run. cbn [fold_left]. unfold step. rewrite Hstrip.
  assert (startswith (ustr "```") line = false /\ startswith (ustr "> ") line = false
          /\ heading_match line = None /\ is_rule line = false
          /\ ul_marker line = None /\ ol_marker nd line = None)
    as (-> & -> & Hhm & Hr & Hul & Hol).
  { subst line. change (repeat c (4 + k)) with (c :: c :: repeat c (2 + k)).
    change (ustr "```") with [96; 96; 96]. change (ustr "> ") with [62; 32].
    rewrite !startswith_cons, H96, H62. repeat split.
    - unfold heading_match, heading_with. cbn [repeat]. rewrite !strip_prefix_cons, Hh.
      reflexivity.
    - unfold is_rule, str_eqb.
      rewrite !bool_decide_eq_false_2; [reflexivity | | |]; intros E;
        apply (f_equal length) in E; simpl in E; rewrite repeat_length in E; lia.
    - unfold ul_marker. destruct (is_bullet c); [|reflexivity].
      cbn [greedy_plus]. rewrite Hs. reflexivity.
    - unfold ol_marker. cbn [greedy_plus]. rewrite Hd. reflexivity. }
  change (in_code init) with false. cbv iota.
  change (flush_blockquote init) with init.
  unfold step_block. rewrite Hhm, Hr, Hul.
  change (in_list init) with false. cbv iota.
  unfold step_ordered. rewrite Hol.
  change (in_ol init) with false. cbv iota. rewrite Hinline.
  subst line. reflexivity.
Qed.

(** C3 fails in the code.  A line of four or more hyphens, of four or more
    underscores, or of four asterisks is a line of three or more repeated
    rule characters, and the converter makes a paragraph of it and no
    rule: the test of the source accepts the three strings of exactly
    three characters, and the length it checks beside them is the length
    of one of those. *)
Theorem long_rule_run_is_paragraph (nd : N -> option N) (k : nat) :
  (is_rule_run (repeat HYPHEN (4 + k)) = true
   /\ md_fragments nd (repeat HYPHEN (4 + k))
      = [ustr "<p>" ++ repeat HYPHEN (4 + k) ++ ustr "</p>"])
  /\ (is_rule_run (repeat 95 (4 + k)) = true
      /\ md_fragments nd (repeat 95 (4 + k))
         = [ustr "<p>" ++ repeat 95 (4 + k) ++ ustr "</p>"])
  /\ (is_rule_run (ustr "****") = true
      /\ md_fragments nd (ustr "****") = [ustr "<p><em>*</em>*</p>"])
  /\ md_fragments nd (ustr "----") = [ustr "<p>----</p>"]
  /\ md_fragments nd (ustr "---") = [ustr "<hr>"].
Proof.
  split; [split; [apply long_run_is_rule_run; tauto | apply long_run_paragraph; tauto]|].
  split; [split; [apply long_run_is_rule_run; tauto | apply long_run_paragraph; tauto]|].
  split; [split; reflexivity|].
  split; reflexivity.
Qed.

(** *** The list modes together *)

(** C1 at the input of an ordered item followed by an unordered one: the
    second line opens the unordered list while the ordered one is still
    open, both flags are set after it, and the unordered list ends up
    inside the ordered one. *)
Theorem ordered_then_unordered_both_open (nd : N -> option N) :
  in_ol (run nd init [ustr "1. a"; ustr "- b"]) = true
  /\ in_list (run nd init [ustr "1. a"; ustr "- b"]) = true
  /\ md_fragments nd (ustr "1. a" ++ NL :: ustr "- b") =
       [ustr "<ol>"; ustr "<li>a</li>"; ustr "<ul>"; ustr "<li>b</li>";
        ustr "</ul>"; ustr "</ol>"].
Proof. repeat split; reflexivity. Qed.

(** The other order closes the first list before it opens the second. *)
Lemma unordered_then_ordered_closes (nd : N -> option N) :
  in_list (run nd init [ustr "- a"; ustr "1. b"]) = false
  /\ md_fragments nd (ustr "- a" ++ NL :: ustr "1. b") =
       [ustr "<ul>"; ustr "<li>a</li>"; ustr "</ul>"; ustr "<ol>";
        ustr "<li>b</li>"; ustr "</ol>"].
Proof. split; reflexivity. Qed.

(** A heading after an item is emitted inside the list that is open. *)
Lemma heading_inside_open_list (nd : N -> option N) :
  md_fragments nd (ustr "- a" ++ NL :: ustr "# H" ++ NL :: ustr "x") =
    [ustr "<ul>"; ustr "<li>a</li>"; ustr "<h2>H</h2>"; ustr "</ul>"; ustr "<p>x</p>"].
Proof. reflexivity. Qed.

(** ** The frontmatter parser *)

Lemma strip_prefix_startswith pre s :
  startswith pre s = false -> strip_prefix pre s = None.
Proof.
  revert s. induction pre as [|a pre IH]; intros [|b s]; simpl; try discriminate.
  - reflexivity.
  - destruct (a =? b); simpl; [apply IH | reflexivity].
Qed.

(** A text that does not start with three hyphens has no frontmatter. *)
Lemma no_hyphens_no_frontmatter content :
  startswith (ustr "---") content = false -> frontmatter_match content = None.
Proof.
  intros H. unfold frontmatter_match.
  rewrite (strip_prefix_startswith _ _ H). reflexivity.
Qed.

(** *** What the matchers return *)

Lemma strip_prefix_Some (pre : str) : forall s r,
  strip_prefix pre s = Some r -> s = pre ++ r.
Proof.
  induction pre as [|a pre IH]; intros [|b s] r; simpl; try discriminate.
  - intros [= <-]. reflexivity.
  - intros [= <-]. reflexivity.
  - destruct (N.eqb_spec a b) as [<-|_]; [|discriminate].
    intros H. rewrite (IH s r H). reflexivity.
Qed.

Lemma greedy_plus_Some {A : Type} cls (k : str -> option A) (s : str) (a : A) :
  greedy_plus cls k s = Some a ->
  exists run rest, s = run ++ rest /\ Forall (fun c => cls c = true) run /\ k rest = Some a.
Proof.
  induction s as [|c r IH]; simpl; [discriminate|].
  destruct (cls c) eqn:Ec; [|discriminate].
  destruct (greedy_plus cls k r) as [a'|].
  - intros [= <-]. destruct (IH eq_refl) as (run & rest & -> & Hrun & Hk).
    exists (c :: run), rest. repeat split; [constructor; assumption | exact Hk].
  - intros Hk. exists [c], r. repeat split; [repeat constructor; exact Ec | exact Hk].
Qed.

Lemma greedy_star_Some {A : Type} cls (k : str -> option A) (s : str) (a : A) :
  greedy_star cls k s = Some a ->
  exists run rest, s = run ++ rest /\ Forall (fun c => cls c = true) run /\ k rest = Some a.
Proof.
  unfold greedy_star. destruct (greedy_plus cls k s) as [a'|] eqn:E.
  - intros [= <-]. exact (greedy_plus_Some cls k s a' E).
  - intros Hk. exists [], s. repeat split; [constructor | exact Hk].
Qed.

Lemma then_char_Some {A : Type} (c : N) (k : str -> option A) (s : str) (a : A) :
  then_char c k s = Some a -> exists r, s = c :: r /\ k r = Some a.
Proof.
  destruct s as [|d r]; simpl; [discriminate|].
  destruct (N.eqb_spec d c) as [->|_]; [|discriminate].
  intros Hk. exists r. split; [reflexivity | exact Hk].
Qed.

Lemma lazy_any_Some {A : Type} (k : str -> option A) (s : str) : forall g a,
  lazy_any k s = Some (g, a) -> exists rest, s = g ++ rest /\ k rest = Some a.
Proof.
  induction s as [|c r IH]; intros g a; simpl.
  - destruct (k []) as [a'|] eqn:Ek; [|discriminate].
    intros [= <- <-]. exists []. split; [reflexivity | exact Ek].
  - destruct (k (c :: r)) as [a'|] eqn:Ek.
    + intros [= <- <-]. exists (c :: r). split; [reflexivity | exact Ek].
    + destruct (lazy_any k r) as [[g' a']|]; [|discriminate].
      intros [= <- <-]. destruct (IH g' a' eq_refl) as (rest & -> & Hk).
      exists rest. split; [reflexivity | exact Hk].
Qed.

(** A run of the class followed by a text that the rest of the pattern
    takes is matched, whatever longer run the matcher may prefer. *)
Lemma greedy_plus_finds {A : Type} cls (k : str -> option A) (run rest : str) :
  run <> [] -> Forall (fun c => cls c = true) run -> is_Some (k rest) ->
  is_Some (greedy_plus cls k (run ++ rest)).
Proof.
  intros Hne Hrun Hk. induction Hrun as [|c r Hc _ IH]; [contradiction|].
  simpl. rewrite Hc. destruct r as [|d r'].
  - simpl in *. destruct (greedy_plus cls k rest); [eexists; reflexivity | exact Hk].
  - destruct (IH ltac:(discriminate)) as [a Ha]. rewrite Ha. eexists. reflexivity.
Qed.

Lemma greedy_star_finds {A : Type} cls (k : str -> option A) (run rest : str) :
  Forall (fun c => cls c = true) run -> is_Some (k rest) ->
  is_Some (greedy_star cls k (run ++ rest)).
Proof.
  intros Hrun Hk. unfold greedy_star. destruct run as [|c r].
  - simpl. destruct (greedy_plus cls k rest); [eexists; reflexivity | exact Hk].
  - destruct (greedy_plus_finds cls k (c :: r) rest ltac:(discriminate) Hrun Hk) as [a Ha].
    rewrite Ha. eexists. reflexivity.
Qed.

Lemma lazy_any_finds {A : Type} (k : str -> option A) (g rest : str) :
  is_Some (k rest) -> is_Some (lazy_any k (g ++ rest)).
Proof.
  intros Hk. induction g as [|c r IH]; simpl.
  - destruct rest as [|d rest']; simpl; destruct Hk as [a ->]; eexists; reflexivity.
  - destruct (k (c :: r ++ rest)); [eexists; reflexivity|].
    destruct IH as [[g' a] ->]. eexists. reflexivity.
Qed.

(** *** The delimiter pair *)

(** Where the pattern of the parser matches, the text begins with a
    delimiter pair: the block and the text after the pair are what the
    pattern's groups hold. *)
Lemma matched_delimiter_pair (content block body : str) :
  frontmatter_match content = Some (block, body) ->
  exists first second : str,
    delimiter_line first /\ delimiter_line second
    /\ content = first ++ block ++ NL :: second ++ body.
Proof.
  unfold frontmatter_match.
  destruct (strip_prefix (ustr "---") content) as [r|] eqn:E; [|discriminate].
  apply strip_prefix_Some in E. subst content. intros H.
  apply greedy_star_Some in H as (blanks1 & r1 & -> & Hb1 & H).
  apply then_char_Some in H as (r2 & -> & H).
  apply lazy_any_Some in H as (r3 & -> & H).
  destruct (strip_prefix (NL :: ustr "---") r3) as [t1|] eqn:E3; [|discriminate].
  apply strip_prefix_Some in E3. subst r3.
  apply greedy_star_Some in H as (blanks2 & r4 & -> & Hb2 & H).
  apply then_char_Some in H as (r5 & -> & [= ->]).
  exists (ustr "---" ++ blanks1 ++ [NL]), (ustr "---" ++ blanks2 ++ [NL]).
  split; [exists blanks1; split; [exact Hb1 | reflexivity]|].
  split; [exists blanks2; split; [exact Hb2 | reflexivity]|].
  rewrite <- ?app_assoc. simpl. rewrite <- ?app_assoc. reflexivity.
Qed.

(** And the pattern matches wherever the text begins with a delimiter
    pair. *)
Lemma delimiter_pair_found (content : str) :
  leading_delimiter_pair content -> frontmatter_match content <> None.
Proof.
  intros (first & block & second & rest & (b1 & Hb1 & ->) & (b2 & Hb2 & ->) & ->).
  assert (is_Some (frontmatter_match
            ((ustr "---" ++ b1 ++ [NL]) ++ block ++ NL :: (ustr "---" ++ b2 ++ [NL]) ++ rest)))
    as [m Hm]; [|rewrite Hm; discriminate].
  unfold frontmatter_match. rewrite <- !app_assoc, strip_prefix_app.
  apply greedy_star_finds; [exact Hb1|].
  change (then_char NL ?k ([NL] ++ ?r)) with (k r).
  apply lazy_any_finds.
  change (NL :: ustr "---" ++ b2 ++ [NL] ++ rest)
    with ((NL :: ustr "---") ++ b2 ++ [NL] ++ rest).
  rewrite strip_prefix_app.
  apply greedy_star_finds; [exact Hb2|]. eexists. reflexivity.
Qed.

(** C2, as the code has it.  For every text that does not begin with a
    delimiter pair, the metadata are empty and the body is the text as it
    is: it is not trimmed. *)
Theorem no_frontmatter_body_is_text (lw : str -> str) (content : str) :
  ~ leading_delimiter_pair content ->
  parse_frontmatter lw content = (∅, content).
Proof.
  intros Hno. unfold parse_frontmatter.
  destruct (frontmatter_match content) as [[block body]|] eqn:E; [|reflexivity].
  exfalso. apply Hno.
  destruct (matched_delimiter_pair content block body E) as (first & second & H1 & H2 & Ec).
  exists first, block, second, body. repeat split; assumption.
Qed.

(** A text with blanks around it, and a text whose block is never
    closed. *)
Lemma no_frontmatter_body_is_text_witness :
  (~ leading_delimiter_pair (ustr " plain text ")
   /\ parse_frontmatter lower_ascii_only (ustr " plain text ") = (∅, ustr " plain text "))
  /\ (~ leading_delimiter_pair (ustr "---" ++ NL :: ustr "title: x" ++ NL :: ustr "text ")
      /\ parse_frontmatter lower_ascii_only
           (ustr "---" ++ NL :: ustr "title: x" ++ NL :: ustr "text ")
         = (∅, ustr "---" ++ NL :: ustr "title: x" ++ NL :: ustr "text ")).
Proof.
  assert (~ leading_delimiter_pair (ustr " plain text ")) as H1
    by (intros H; apply delimiter_pair_found in H; apply H; vm_compute; reflexivity).
  assert (~ leading_delimiter_pair
            (ustr "---" ++ NL :: ustr "title: x" ++ NL :: ustr "text ")) as H2
    by (intros H; apply delimiter_pair_found in H; apply H; vm_compute; reflexivity).
  split; (split; [assumption|]).
  - exact (no_frontmatter_body_is_text lower_ascii_only _ H1).
  - exact (no_frontmatter_body_is_text lower_ascii_only _ H2).
Defined.

(** C2, as it is stated, fails: a text with no delimiter pair comes back
    with the blanks around it. *)
Lemma no_frontmatter_body_untrimmed :
  ~ (forall (lw : str -> str) (content : str),
       ~ leading_delimiter_pair content ->
       parse_frontmatter lw content = (∅, strip content)).
Proof.
  intros H. specialize (H lower_ascii_only).
  assert (~ leading_delimiter_pair (ustr " plain text ")) as Hno
    by (intros Hp; apply delimiter_pair_found in Hp; apply Hp; vm_compute; reflexivity).
  specialize (H (ustr " plain text ") Hno).
  apply (f_equal snd) in H. vm_compute in H. discriminate.
Qed.

(** With a block, the body is trimmed. *)
Lemma frontmatter_body_trimmed lw content block body :
  frontmatter_match content = Some (block, body) ->
  (parse_frontmatter lw content).2 = strip body.
Proof. intros H. unfold parse_frontmatter. rewrite H. reflexivity. Qed.

(** ** The date parser *)

Section DateProperties.

Variable nd : N -> option N.

Lemma digits_value_errors acc s : value_error_only (digits_value nd acc s).
Proof.
  revert acc. induction s as [|c r IH]; intros acc; simpl; [exact I|].
  destruct (decimal_value nd c); [apply IH | reflexivity].
Qed.

Lemma py_int_errors text : value_error_only (py_int nd text).
Proof.
  unfold py_int. destruct (strip text); [reflexivity | apply digits_value_errors].
Qed.

Lemma index_from_errors from names text : value_error_only (index_from from names text).
Proof.
  revert from. induction names as [|n rest IH]; intros from; simpl; [reflexivity|].
  destruct (str_eqb n text); [exact I | apply IH].
Qed.

Lemma read_group_errors acc g :
  value_error_only acc -> value_error_only (read_group nd acc g).
Proof.
  intros Hacc. unfold read_group. destruct acc as [[[y m] d]|e]; [|exact Hacc].
  destruct g.1.
  - exact I.
  - exact I.
  - pose proof (index_from_errors 1 full_months (str_lower g.2)) as H.
    destruct (index_from 1 full_months (str_lower g.2)); exact H.
  - pose proof (index_from_errors 1 abbr_months (str_lower g.2)) as H.
    destruct (index_from 1 abbr_months (str_lower g.2)); exact H.
  - pose proof (py_int_errors g.2) as H. destruct (py_int nd g.2); exact H.
  - pose proof (py_int_errors g.2) as H. destruct (py_int nd g.2); exact H.
  - pose proof (py_int_errors g.2) as H. destruct (py_int nd g.2); exact H.
Qed.

Lemma read_groups_errors groups : forall acc,
  value_error_only acc -> value_error_only (fold_left (read_group nd) groups acc).
Proof.
  induction groups as [|g gs IH]; intros acc Hacc; simpl; [exact Hacc|].
  apply IH, read_group_errors, Hacc.
Qed.

Lemma make_datetime_errors y m d : value_error_only (make_datetime y m d).
Proof. unfold make_datetime. destruct (_ && _); [exact I | reflexivity]. Qed.

(** [strptime] raises nothing but [ValueError]. *)
Lemma strptime_errors data fmt : value_error_only (strptime nd data fmt).
Proof.
  unfold strptime.
  destruct (format_items false fmt) as [its|]; [|reflexivity].
  destruct (match_items nd its data) as [[groups rest]|]; [|reflexivity].
  destruct rest; [|reflexivity].
  pose proof (read_groups_errors groups (Return (1900, 1, 1)) I) as H.
  destruct (fold_left (read_group nd) groups (Return (1900, 1, 1))) as [[[y m] d]|e];
    [apply make_datetime_errors | exact H].
Qed.

Lemma try_formats_returns date_str fmts :
  exists d, try_formats nd date_str fmts = Return d
    /\ ((forall fmt, In fmt fmts ->
           forall d', strptime nd (strip date_str) fmt <> Return d')
        -> d = datetime_min).
Proof.
  induction fmts as [|fmt rest IH]; simpl.
  - exists datetime_min. split; [reflexivity | intros _; reflexivity].
  - pose proof (strptime_errors (strip date_str) fmt) as He.
    destruct (strptime nd (strip date_str) fmt) as [d|e] eqn:E.
    + exists d. split; [reflexivity|]. intros Hno.
      exfalso. apply (Hno fmt (or_introl eq_refl) d). exact E.
    + simpl in He. subst e. destruct IH as (d & Hd & Hmin).
      exists d. split; [exact Hd|]. intros Hno. apply Hmin.
      intros f Hf. apply Hno. right. exact Hf.
Qed.

End DateProperties.

(** C5. For every string the date parser returns a date and raises
    nothing; when none of the four formats parses the trimmed string, the
    date it returns is the least one, [datetime.min]. *)
Theorem parse_date_never_fails (nd : N -> option N) (date_str : str) :
  exists d : datetime,
    parse_date nd date_str = Return d
    /\ ((forall fmt, In fmt (formats) ->
           forall d', strptime nd (strip date_str) fmt <> Return d')
        -> d = datetime_min).
Proof. apply try_formats_returns. Qed.

(** *** The least key *)








(** *** The sort, newest first *)

Lemma insert_desc_Forall {A K : Type} (ltb : K -> K -> bool) (key : A -> K)
    (P : A -> Prop) x l :
  P x -> Forall P l -> Forall P (insert_desc ltb key x l).
Proof.
  intros Hx. induction 1 as [|y r Hy Hr IH]; simpl.
  - repeat constructor. exact Hx.
  - destruct (ltb (key x) (key y)); repeat constructor; assumption.
Qed.

Lemma sorted_reverse_Forall {A K : Type} (ltb : K -> K -> bool) (key : A -> K)
    (P : A -> Prop) l :
  Forall P l -> Forall P (sorted_reverse ltb key l).
Proof.
  induction 1 as [|x r Hx Hr IH]; simpl; [constructor|].
  apply insert_desc_Forall; assumption.
Qed.





Lemma keyed_keys nd posts ks :
  keyed nd posts = Return ks ->
  Forall (fun kp : keyed_post => parse_date nd (post_date kp.2) = Return kp.1) ks.
Proof.
  revert ks. induction posts as [|p rest IH]; simpl; intros ks.
  - intros [= <-]. constructor.
  - destruct (parse_date nd (post_date p)) as [k|e] eqn:Ek; [|discriminate].
    destruct (keyed nd rest) as [ks'|e]; [|discriminate].
    intros [= <-]. constructor; [exact Ek | apply IH; reflexivity].
Qed.




(** * Further properties of the code *)

(** ** The shape of a slug *)

Lemma rstrip_fixed_last cls s c :
  rstrip cls s = s -> last s = Some c -> cls c = false.
Proof.
  revert c. induction s as [|a r IH]; intros c; [discriminate|].
  rewrite rstrip_cons. destruct r as [|b r'].
  - simpl. destruct (cls a) eqn:Ea; [discriminate|]. intros _ [= <-]. exact Ea.
  - destruct (rstrip cls (b :: r')) as [|d r0] eqn:Er.
    + destruct (cls a); discriminate.
    + intros [= Hd] Hlast. apply IH; [congruence | exact Hlast].
Qed.

Lemma no_adjacent_middle cls a b c d :
  no_adjacent cls (a ++ c :: d :: b) -> cls c && cls d = false.
Proof.
  induction a as [|x a IH]; intros H.
  - destruct H as [H _]. exact H.
  - apply IH. exact (no_adjacent_tail _ _ _ H).
Qed.

(** X1. A slug is safe in a file name and a URL: it holds only [a-z],
    [0-9] and hyphens, it neither starts nor ends with a hyphen, and it
    holds no two hyphens in a row. *)
Theorem slug_is_url_safe (title : str) :
  Forall (fun c => slug_char c = true) (slugify title)
  /\ head (slugify title) <> Some HYPHEN
  /\ last (slugify title) <> Some HYPHEN
  /\ (forall a b : str, slugify title <> a ++ HYPHEN :: HYPHEN :: b).
Proof.
  destruct (slugify_well_formed title) as (Hchars & Hhead & Htail & Hadj).
  split; [exact Hchars|]. split; [|split].
  - destruct (slugify title) as [|c r]; [discriminate|].
    simpl in *. intros [= ->]. discriminate.
  - intros Hlast. pose proof (rstrip_fixed_last _ _ _ Htail Hlast). discriminate.
  - intros a b E. rewrite E in Hadj.
    pose proof (no_adjacent_middle _ _ _ _ _ Hadj). discriminate.
Qed.

(** ** Plain text through the inline formatter *)

(** X2. Text with no asterisk, no backtick and no opening square bracket
    goes through the inline formatter as it is: angle brackets and
    ampersands included, nothing is escaped. *)
Theorem inline_format_plain_text (s : str) :
  no_inline_trigger s -> inline_format s = s.
Proof.
  intros H. unfold inline_format, bold_italic_pass, bold_pass, italic_pass,
    code_pass, link_pass.
  assert (Forall (fun c => (42 =? c) = false) s) as Hstar.
  { eapply Forall_impl; [exact H|]. intros c Hc. simpl in Hc. apply N.eqb_neq. lia. }
  assert (Forall (fun c => (96 =? c) = false) s) as Htick.
  { eapply Forall_impl; [exact H|]. intros c Hc. simpl in Hc. apply N.eqb_neq. lia. }
  assert (Forall (fun c => (91 =? c) = false) s) as Hopen.
  { eapply Forall_impl; [exact H|]. intros c Hc. simpl in Hc. apply N.eqb_neq. lia. }
  rewrite (re_sub_untouched _ (N.eqb 42) s) by
    (try exact Hstar; intros c r Hc; apply span_rule_head, Hc).
  rewrite (re_sub_untouched _ (N.eqb 42) s) by
    (try exact Hstar; intros c r Hc; apply span_rule_head, Hc).
  rewrite (re_sub_untouched _ (N.eqb 42) s) by
    (try exact Hstar; intros c r Hc; apply span_rule_head, Hc).
  rewrite (re_sub_untouched _ (N.eqb 96) s) by
    (try exact Htick; intros c r Hc; apply span_rule_head, Hc).
  apply (re_sub_untouched _ (N.eqb 91) s); [|exact Hopen].
  intros c r Hc. apply link_rule_head, Hc.
Qed.

Lemma inline_format_plain_text_witness :
  no_inline_trigger (ustr "a <b>plain</b> line & more")
  /\ inline_format (ustr "a <b>plain</b> line & more") = ustr "a <b>plain</b> line & more".
Proof.
  assert (no_inline_trigger (ustr "a <b>plain</b> line & more")) as H.
  { apply no_inline_trigger_check. reflexivity. }
  split; [exact H | exact (inline_format_plain_text _ H)].
Defined.

(** ** What a code fence lets through *)

Lemma sub_class_Forall_repl (P Q : N -> Prop) cls repl s :
  (forall c, P c -> cls c = false -> Q c) -> Forall Q repl ->
  Forall P s -> Forall Q (sub_class cls repl s).
Proof.
  intros HPQ Hrepl. induction 1 as [|c r Hc _ IH]; simpl; [constructor|].
  apply Forall_app. split; [|exact IH].
  destruct (cls c) eqn:E; [exact Hrepl | repeat constructor; apply HPQ; assumption].
Qed.

Lemma forallb_Forall (p : N -> bool) (P : N -> Prop) (s : str) :
  (forall c, p c = true -> P c) -> forallb p s = true -> Forall P s.
Proof.
  intros HpP. induction s as [|c r IH]; simpl; intros H; [constructor|].
  apply andb_true_iff in H as [Hc Hr]. constructor; [apply HpP, Hc | exact (IH Hr)].
Qed.

Lemma not_markup_spec c :
  not_markup c = true -> c <> 60 /\ c <> 62 /\ c <> 34 /\ c <> 39.
Proof. unfold not_markup. intros H. apply negb_true_iff in H. char_facts. lia. Qed.

Lemma html_escape_markup_free (s : str) : markup_free (html_escape s).
Proof.
  unfold markup_free, html_escape, replace_char.
  apply (sub_class_Forall_repl (fun c => c <> 60 /\ c <> 62 /\ c <> 34)).
  { intros c Hc Hq. apply N.eqb_neq in Hq. lia. }
  { apply (forallb_Forall not_markup); [|reflexivity].
    intros c Hc. apply not_markup_spec in Hc. lia. }
  apply (sub_class_Forall_repl (fun c => c <> 60 /\ c <> 62)).
  { intros c Hc Hq. apply N.eqb_neq in Hq. lia. }
  { apply (forallb_Forall not_markup); [|reflexivity].
    intros c Hc. apply not_markup_spec in Hc. lia. }
  apply (sub_class_Forall_repl (fun c => c <> 60)).
  { intros c Hc Hq. apply N.eqb_neq in Hq. lia. }
  { apply (forallb_Forall not_markup); [|reflexivity].
    intros c Hc. apply not_markup_spec in Hc. lia. }
  apply (sub_class_Forall_repl (fun _ => True)).
  { intros c _ Hq. apply N.eqb_neq in Hq. lia. }
  { apply (forallb_Forall not_markup); [|reflexivity].
    intros c Hc. apply not_markup_spec in Hc. lia. }
  apply Forall_true. intros c. exact I.
Qed.

(** X3. Whatever the lines inside an open code fence hold, the fragments
    they add, one per line, hold no angle bracket and no quote: a fence
    body cannot inject markup. *)
Theorem fence_body_markup_free (nd : N -> option N) (st : conv) (lines : list str) :
  in_code st = true ->
  Forall (fun l => is_fence l = false) lines ->
  exists frags : list str,
    result (run nd st lines) = result st ++ frags
    /\ length frags = length lines
    /\ Forall markup_free frags.
Proof.
  intros Hc Hls. exists (List.map html_escape lines).
  rewrite (run_in_fence nd lines st Hc Hls). split; [reflexivity|].
  split; [apply length_map|].
  clear. induction lines as [|l ls IH]; simpl; constructor;
    [apply html_escape_markup_free | exact IH].
Qed.

Lemma fence_body_markup_free_witness :
  exists frags : list str,
    result (run ascii_digits_only (step ascii_digits_only init (ustr "```html"))
              [ustr "<a href='x'>"; ustr "</a>"]) =
      [ustr "<pre><code>"] ++ frags
    /\ length frags = 2%nat
    /\ Forall markup_free frags.
Proof.
  refine (fence_body_markup_free ascii_digits_only
            (step ascii_digits_only init (ustr "```html"))
            [ustr "<a href='x'>"; ustr "</a>"] _ _);
    [reflexivity | repeat constructor].
Defined.

(** ** Blank text *)

Lemma split_on_Forall (P : N -> Prop) sep s :
  Forall P s -> Forall (Forall P) (split_on sep s).
Proof.
  induction 1 as [|c r Hc _ IH]; simpl; [repeat constructor|].
  destruct (c =? sep); [constructor; [constructor | exact IH]|].
  destruct (split_on sep r) as [|w ws]; [repeat constructor; exact Hc|].
  apply Forall_cons in IH as [Hw Hws].
  constructor; [constructor; assumption | exact Hws].
Qed.

Lemma strip_blank (s : str) : Forall (fun c => is_space c = true) s -> strip s = [].
Proof. intros H. unfold strip, strip_chars. rewrite (lstrip_all _ _ H). reflexivity. Qed.

Lemma step_blank_at_start nd line : strip line = [] -> step nd init line = init.
Proof. intros H. unfold step. rewrite H. reflexivity. Qed.

(** X4. A text of whitespace only, the empty text included, gives no
    fragment and the empty HTML. *)
Theorem blank_text_no_html (nd : N -> option N) (text : str) :
  Forall (fun c => is_space c = true) text ->
  md_fragments nd text = [] /\ md_to_html nd text = [].
Proof.
  intros H.
  assert (md_fragments nd text = []) as E.
  { unfold md_fragments.
    pose proof (split_on_Forall _ NL text H) as Hlines.
    assert (run nd init (split_on NL text) = init) as ->; [|reflexivity].
    unfold run. induction Hlines as [|l ls Hl _ IH]; simpl; [reflexivity|].
    rewrite (step_blank_at_start nd l (strip_blank l Hl)). exact IH. }
  split; [exact E|]. unfold md_to_html. rewrite E. reflexivity.
Qed.

Lemma blank_text_no_html_witness :
  md_fragments ascii_digits_only [32; 32; NL; 9; NL] = []
  /\ md_to_html ascii_digits_only [32; 32; NL; 9; NL] = [].
Proof.
  refine (blank_text_no_html ascii_digits_only [32; 32; NL; 9; NL] _).
  repeat constructor.
Defined.

(** ** Blockquotes *)

Lemma split_on_join (ls : list str) :
  ls <> [] -> Forall one_line ls -> split_on NL (join [NL] ls) = ls.
Proof.
  induction ls as [|l rest IH]; intros Hne Hls; [contradiction|].
  apply Forall_cons in Hls as [Hl Hrest].
  destruct rest as [|l' rest'].
  - simpl. apply split_on_last, Hl.
  - change (join [NL] (l :: l' :: rest')) with (l ++ NL :: join [NL] (l' :: rest')).
    rewrite (split_on_line l _ Hl), IH by (discriminate || exact Hrest). reflexivity.
Qed.

Lemma quote_not_fence (line : str) : is_quote line = true -> is_fence line = false.
Proof.
  unfold is_quote, is_fence. change (ustr "> ") with [62; 32].
  change (ustr "```") with [96; 96; 96].
  destruct (strip line) as [|c r]; [discriminate|].
  rewrite !startswith_cons. intros H. apply andb_true_iff in H as [Hc _].
  apply N.eqb_eq in Hc. subst c. reflexivity.
Qed.

Lemma step_quote nd st (line : str) :
  in_code st = false -> is_quote line = true ->
  step nd st line =
    set_blockquote true
      ((if in_blockquote st then bq_lines st else []) ++ [quote_text line]) st.
Proof.
  intros Hc Hq. pose proof (quote_not_fence line Hq) as Hf.
  unfold step. unfold is_fence in Hf. unfold is_quote in Hq.
  rewrite Hf, Hc, Hq. destruct st as [res l o c q b]. simpl in *.
  destruct q; reflexivity.
Qed.

Lemma run_quotes nd (qs : list str) : forall st,
  qs <> [] -> Forall (fun l => is_quote l = true) qs -> in_code st = false ->
  run nd st qs =
    set_blockquote true
      ((if in_blockquote st then bq_lines st else []) ++ List.map quote_text qs) st.
Proof.
  induction qs as [|q rest IH]; intros st Hne Hqs Hc; [contradiction|].
  apply Forall_cons in Hqs as [Hq Hrest].
  unfold run in *. simpl fold_left. rewrite (step_quote nd st q Hc Hq).
  destruct rest as [|q' rest']; [reflexivity|].
  rewrite IH by (discriminate || assumption).
  unfold set_blockquote. simpl. rewrite <- app_assoc. reflexivity.
Qed.

(** X5. A run of blockquote lines, however long, becomes one fragment:
    one quoted paragraph of the lines' texts joined by single spaces and
    inline-formatted as a whole. *)
Theorem blockquote_run_one_fragment (nd : N -> option N) (qs : list str) :
  qs <> [] -> Forall one_line qs -> Forall (fun l => is_quote l = true) qs ->
  md_fragments nd (join [NL] qs) =
    [ustr "<blockquote><p>"
       ++ inline_format (join (ustr " ") (List.map quote_text qs))
       ++ ustr "</p></blockquote>"].
Proof.
  intros Hne Hlines Hqs. unfold md_fragments.
  rewrite (split_on_join qs Hne Hlines).
  rewrite (run_quotes nd qs init Hne Hqs eq_refl). reflexivity.
Qed.

Lemma blockquote_run_one_fragment_witness :
  md_fragments ascii_digits_only (join [NL] [ustr "> to *be*"; ustr "  > or not"]) =
    [ustr "<blockquote><p>to <em>be</em> or not</p></blockquote>"].
Proof.
  refine (blockquote_run_one_fragment ascii_digits_only
            [ustr "> to *be*"; ustr "  > or not"] _ _ _).
  - discriminate.
  - repeat constructor; apply one_line_check; reflexivity.
  - repeat constructor.
Defined.

(** ** Headings *)

Lemma take_line_one_line (s : str) : one_line s -> take_line s = s.
Proof.
  unfold one_line. induction s as [|c r IH]; intros H; [reflexivity|].
  apply not_elem_of_cons in H as [Hc Hr]. simpl.
  destruct (N.eqb_spec c NL) as [->|_]; [congruence|]. rewrite (IH Hr). reflexivity.
Qed.

Lemma take_line_no_newline (s : str) : one_line (take_line s).
Proof.
  unfold one_line. induction s as [|c r IH]; simpl; [apply not_elem_of_nil|].
  destruct (N.eqb_spec c NL) as [->|Hc]; [apply not_elem_of_nil|].
  apply not_elem_of_cons. split; [congruence | exact IH].
Qed.

Lemma greedy_plus_reaches {A : Type} cls (k : str -> option A) s a :
  greedy_plus cls k s = Some a -> exists t, k t = Some a.
Proof.
  induction s as [|c r IH]; simpl; [discriminate|].
  destruct (cls c); [|discriminate].
  destruct (greedy_plus cls k r) as [a'|].
  - intros [= <-]. apply IH. reflexivity.
  - intros H. exists r. exact H.
Qed.

Lemma heading_with_result k s n g :
  heading_with k s = Some (n, g) -> n = k /\ g <> [] /\ one_line g.
Proof.
  unfold heading_with. destruct (strip_prefix (repeat HASH k) s) as [r|]; [|discriminate].
  destruct (greedy_plus is_space dot_plus r) as [g'|] eqn:E; [|discriminate].
  intros [= <- <-]. split; [reflexivity|].
  apply greedy_plus_reaches in E as [t Ht]. unfold dot_plus in Ht.
  pose proof (take_line_no_newline t) as Hline.
  destruct (take_line t) as [|c r']; [discriminate|].
  injection Ht as <-. split; [discriminate | exact Hline].
Qed.

(** X6. Whatever the line, a heading that the converter recognises has
    one, two or three hashes, so its element is h2, h3 or h4, and its text
    is not empty and holds no newline. *)
Theorem heading_levels (s : str) (n : nat) (g : str) :
  heading_match s = Some (n, g) ->
  (n = 1 \/ n = 2 \/ n = 3)%nat /\ g <> [] /\ one_line g.
Proof.
  unfold heading_match. simpl first_some.
  destruct (heading_with 3 s) as [[n3 g3]|] eqn:E3.
  { intros [= <- <-]. apply heading_with_result in E3 as (-> & Hg). tauto. }
  destruct (heading_with 2 s) as [[n2 g2]|] eqn:E2.
  { intros [= <- <-]. apply heading_with_result in E2 as (-> & Hg). tauto. }
  destruct (heading_with 1 s) as [[n1 g1]|] eqn:E1; [|discriminate].
  intros [= <- <-]. apply heading_with_result in E1 as (-> & Hg). tauto.
Qed.

Lemma heading_levels_witness :
  heading_match (ustr "##  Models") = Some (2%nat, ustr "Models")
  /\ ((2 = 1 \/ 2 = 2 \/ 2 = 3)%nat /\ ustr "Models" <> [] /\ one_line (ustr "Models")).
Proof.
  assert (heading_match (ustr "##  Models") = Some (2%nat, ustr "Models")) as H
    by reflexivity.
  split; [exact H | exact (heading_levels _ _ _ H)].
Defined.

Lemma rstrip_app_fixed cls (a b : str) :
  b <> [] -> rstrip cls b = b -> rstrip cls (a ++ b) = a ++ b.
Proof.
  intros Hb Hfix. induction a as [|x a IH]; [exact Hfix|].
  simpl app. rewrite rstrip_cons, IH.
  destruct (a ++ b) as [|d r] eqn:E; [|reflexivity].
  apply app_eq_nil in E as [_ E]. contradiction.
Qed.

(** A text with no blank at either end. *)
Lemma trimmed_ends (s : str) :
  strip s = s -> head_not is_space s /\ rstrip is_space s = s.
Proof.
  intros H. split.
  - rewrite <- H. apply rstrip_head_not, lstrip_head_not.
  - rewrite <- H at 1. unfold strip, strip_chars. rewrite rstrip_idempotent. exact H.
Qed.

Lemma heading_text_matches (title : str) :
  title <> [] -> strip title = title -> one_line title ->
  greedy_plus is_space dot_plus (32 :: title) = Some title.
Proof.
  intros Hne Hs Hl. destruct (trimmed_ends title Hs) as [Hh _].
  destruct title as [|c r]; [contradiction|]. simpl in Hh.
  cbn [greedy_plus]. change (is_space 32) with true. cbv iota. rewrite Hh.
  unfold dot_plus. rewrite (take_line_one_line _ Hl). reflexivity.
Qed.

Lemma hashed_line_trimmed (n : nat) (title : str) :
  title <> [] -> strip title = title ->
  strip (repeat HASH (S n) ++ 32 :: title) = repeat HASH (S n) ++ 32 :: title.
Proof.
  intros Hne Hs. destruct (trimmed_ends title Hs) as [_ Hr].
  apply strip_chars_fixed; [reflexivity|].
  assert (repeat HASH (S n) ++ 32 :: title = (repeat HASH (S n) ++ [32]) ++ title) as ->
    by (rewrite <- app_assoc; reflexivity).
  apply rstrip_app_fixed; assumption.
Qed.

(** X7. Outside a code fence, a line of one, two or three hashes, a
    space and a title is a heading of level two, three or four with the
    inline-formatted title; an open blockquote is flushed before it. *)
Theorem heading_line (nd : N -> option N) (st : conv) (n : nat) (title : str) :
  in_code st = false -> (1 <= n <= 3)%nat ->
  title <> [] -> strip title = title -> one_line title ->
  step nd st (repeat HASH n ++ 32 :: title) =
    emit (ustr "<h" ++ [48 + N.of_nat (n + 1)] ++ ustr ">" ++ inline_format title
            ++ ustr "</h" ++ [48 + N.of_nat (n + 1)] ++ ustr ">")
         (flush_blockquote st).
Proof.
  intros Hc Hn Hne Hs Hl.
  pose proof (heading_text_matches title Hne Hs Hl) as Hm.
  assert (n = 1 \/ n = 2 \/ n = 3)%nat as [-> | [-> | ->]] by lia;
    unfold step; rewrite (hashed_line_trimmed _ title Hne Hs);
    cbn [repeat app]; change (startswith (ustr "```") (HASH :: _)) with false;
    change (startswith (ustr "> ") (HASH :: _)) with false; cbv iota; rewrite Hc;
    unfold step_block, heading_match, heading_with;
    cbn [repeat strip_prefix first_some]; change (HASH =? HASH) with true;
    change (HASH =? 32) with false; cbv iota; rewrite Hm; reflexivity.
Qed.

Lemma heading_line_witness :
  step ascii_digits_only init (ustr "## Why *now*") =
    emit (ustr "<h3>Why <em>now</em></h3>") init.
Proof.
  refine (heading_line ascii_digits_only init 2 (ustr "Why *now*") _ _ _ _ _).
  - reflexivity.
  - lia.
  - discriminate.
  - reflexivity.
  - apply one_line_check. reflexivity.
Defined.

(** ** Opening and closing fragments *)

Lemma count_frag_app tag a b :
  count_frag tag (a ++ b) = (count_frag tag a + count_frag tag b)%nat.
Proof. induction a as [|f r IH]; simpl; [reflexivity|]. rewrite IH. lia. Qed.

Lemma count_frag_other tag f : f <> tag -> count_frag tag [f] = 0%nat.
Proof.
  intros H. simpl. unfold str_eqb. rewrite bool_decide_eq_false_2 by exact H. reflexivity.
Qed.

Lemma content_list_item c : content_fragment (list_item c).
Proof. unfold content_fragment, list_item. by_prefix. Qed.

Lemma content_paragraph s : content_fragment (ustr "<p>" ++ inline_format s ++ ustr "</p>").
Proof. unfold content_fragment. by_prefix. Qed.

Lemma content_heading n text : content_fragment (heading_fragment n text).
Proof. unfold content_fragment, heading_fragment, level_digit. by_prefix. Qed.

Lemma content_blockquote s :
  content_fragment (ustr "<blockquote><p>" ++ s ++ ustr "</p></blockquote>").
Proof. unfold content_fragment. by_prefix. Qed.

Lemma content_rule : content_fragment (ustr "<hr>").
Proof. unfold content_fragment. by_prefix. Qed.

Lemma markup_free_head f : markup_free f -> head f <> Some 60.
Proof.
  unfold markup_free. destruct 1 as [|c r Hc _]; [discriminate|].
  simpl. intros [= ->]. lia.
Qed.

Lemma content_escaped line : content_fragment (html_escape line).
Proof.
  pose proof (markup_free_head _ (html_escape_markup_free line)) as H.
  unfold content_fragment.
  repeat split; intros E; apply H; rewrite E; reflexivity.
Qed.

Lemma balanced_content f st :
  content_fragment f -> balanced st -> balanced (emit f st).
Proof.
  intros (H1 & H2 & H3 & H4 & H5 & H6) (Bu & Bo & Bc).
  unfold balanced. simpl. rewrite !count_frag_app.
  rewrite !count_frag_other by assumption. lia.
Qed.

Lemma balanced_blockquote b ls st : balanced st -> balanced (set_blockquote b ls st).
Proof. intros H. exact H. Qed.

Lemma balanced_flush st : balanced st -> balanced (flush_blockquote st).
Proof.
  intros H. unfold flush_blockquote. destruct (in_blockquote st); [|exact H].
  apply balanced_blockquote, balanced_content; [apply content_blockquote | exact H].
Qed.

Lemma balanced_open_ul st :
  in_list st = false -> balanced st -> balanced (set_in_list true (emit (ustr "<ul>") st)).
Proof. intros E (Bu & Bo & Bc). rewrite E in *.
  unfold balanced, open_count in *. simpl in *. rewrite !count_frag_app.
  eval_counts count_frag. lia.
Qed.

Lemma balanced_close_ul st :
  in_list st = true -> balanced st -> balanced (set_in_list false (emit (ustr "</ul>") st)).
Proof. intros E (Bu & Bo & Bc). rewrite E in *.
  unfold balanced, open_count in *. simpl in *. rewrite !count_frag_app.
  eval_counts count_frag. lia.
Qed.

Lemma balanced_open_ol st :
  in_ol st = false -> balanced st -> balanced (set_in_ol true (emit (ustr "<ol>") st)).
Proof. intros E (Bu & Bo & Bc). rewrite E in *.
  unfold balanced, open_count in *. simpl in *. rewrite !count_frag_app.
  eval_counts count_frag. lia.
Qed.

Lemma balanced_close_ol st :
  in_ol st = true -> balanced st -> balanced (set_in_ol false (emit (ustr "</ol>") st)).
Proof. intros E (Bu & Bo & Bc). rewrite E in *.
  unfold balanced, open_count in *. simpl in *. rewrite !count_frag_app.
  eval_counts count_frag. lia.
Qed.

Lemma balanced_open_code st :
  in_code st = false -> balanced st ->
  balanced (set_in_code true (emit (ustr "<pre><code>") st)).
Proof. intros E (Bu & Bo & Bc). rewrite E in *.
  unfold balanced, open_count in *. simpl in *. rewrite !count_frag_app.
  eval_counts count_frag. lia.
Qed.

Lemma balanced_close_code st :
  in_code st = true -> balanced st ->
  balanced (set_in_code false (emit (ustr "</code></pre>") st)).
Proof. intros E (Bu & Bo & Bc). rewrite E in *.
  unfold balanced, open_count in *. simpl in *. rewrite !count_frag_app.
  eval_counts count_frag. lia.
Qed.

Lemma balanced_step_ordered nd stripped st :
  balanced st -> balanced (step_ordered nd stripped st).
Proof.
  intros H. unfold step_ordered. destruct (ol_marker nd stripped) as [content|].
  - apply balanced_content; [apply content_list_item|].
    destruct (in_ol st) eqn:E; [exact H | apply balanced_open_ol; assumption].
  - assert (balanced (if in_ol st then set_in_ol false (emit (ustr "</ol>") st) else st)) as H'.
    { destruct (in_ol st) eqn:E; [apply balanced_close_ol; assumption | exact H]. }
    destruct stripped; [exact H'|].
    apply balanced_content; [apply content_paragraph | exact H'].
Qed.

Lemma balanced_step_block nd stripped st :
  balanced st -> balanced (step_block nd stripped st).
Proof.
  intros H. unfold step_block. destruct (heading_match stripped) as [[n text]|].
  { apply balanced_content; [apply content_heading | exact H]. }
  destruct (is_rule stripped).
  { apply balanced_content; [apply content_rule | exact H]. }
  destruct (ul_marker stripped) as [content|].
  - apply balanced_content; [apply content_list_item|].
    destruct (in_list st) eqn:E; [exact H | apply balanced_open_ul; assumption].
  - apply balanced_step_ordered.
    destruct (in_list st) eqn:E; [apply balanced_close_ul; assumption | exact H].
Qed.

Lemma balanced_step nd st line : balanced st -> balanced (step nd st line).
Proof.
  intros H. unfold step. destruct (startswith (ustr "```") (strip line)).
  { destruct (in_code st) eqn:E;
      [apply balanced_close_code | apply balanced_open_code]; assumption. }
  destruct (in_code st) eqn:E.
  { apply balanced_content; [apply content_escaped | exact H]. }
  destruct (startswith (ustr "> ") (strip line)).
  { apply balanced_blockquote. destruct (in_blockquote st); [exact H|].
    apply balanced_blockquote, H. }
  apply balanced_step_block, balanced_flush, H.
Qed.

Lemma balanced_run nd lines : forall st, balanced st -> balanced (run nd st lines).
Proof.
  induction lines as [|l ls IH]; intros st H; [exact H|].
  apply IH, balanced_step, H.
Qed.

(** X8. Whatever the text, the fragments of the converter pair up: as
    many list-close as list-open fragments, for unordered and for ordered
    lists, and as many code-block-close as code-block-open fragments. *)
Theorem fragments_pair_up (nd : N -> option N) (text : str) :
  count_frag (ustr "<ul>") (md_fragments nd text)
    = count_frag (ustr "</ul>") (md_fragments nd text)
  /\ count_frag (ustr "<ol>") (md_fragments nd text)
    = count_frag (ustr "</ol>") (md_fragments nd text)
  /\ count_frag (ustr "<pre><code>") (md_fragments nd text)
    = count_frag (ustr "</code></pre>") (md_fragments nd text).
Proof.
  unfold md_fragments.
  assert (balanced init) as H0 by (repeat split).
  pose proof (balanced_flush _ (balanced_run nd (split_on NL text) init H0)) as H.
  unfold close_open.
  destruct (flush_blockquote (run nd init (split_on NL text))) as [res l o c q b].
  destruct H as (Bu & Bo & Bc). simpl in *.
  destruct l, o, c; unfold open_count in *; simpl in *; rewrite ?count_frag_app;
    eval_counts count_frag; lia.
Qed.

(** ** A document through the frontmatter parser *)

Lemma key_char_plain c :
  key_char c = true ->
  is_space c = false /\ c <> COLON /\ c <> NL /\ c <> HYPHEN /\ lower_char c = [c].
Proof.
  intros H. unfold lower_char.
  assert (is_ascii_upper c = false /\ (c =? 304) = false /\ (c =? 8490) = false
          /\ is_space c = false /\ c <> COLON /\ c <> NL /\ c <> HYPHEN)
    as (-> & -> & -> & Hs & Hrest).
  { unfold key_char, is_space, is_ascii_upper, is_ascii_lower, is_ascii_digit,
      in_range, COLON, NL, HYPHEN in *. char_facts. lia. }
  split; [exact Hs|]. repeat split; tauto.
Qed.

Lemma key_facts (k : str) :
  plain_key k ->
  strip k = k /\ str_lower k = k /\ one_line k /\ (COLON ∉ k)
  /\ head_not (fun c => (c =? HYPHEN) || (c =? NL)) k.
Proof.
  intros [Hne Hk].
  assert (Forall (fun c => is_space c = false) k) as Hsp.
  { eapply Forall_impl; [exact Hk|]. intros c Hc. apply key_char_plain, Hc. }
  split; [|split; [|split; [|split]]].
  - apply strip_chars_fixed.
    + destruct Hsp; [exact I | assumption].
    + clear Hk Hne. induction Hsp as [|c r Hc _ IH]; [reflexivity|].
      rewrite rstrip_cons, IH. destruct r; [rewrite Hc|]; reflexivity.
  - clear Hne Hsp. unfold str_lower. induction Hk as [|c r Hc _ IH]; [reflexivity|].
    simpl. destruct (key_char_plain c Hc) as (_ & _ & _ & _ & ->). rewrite IH. reflexivity.
  - unfold one_line. clear Hne Hsp. induction Hk as [|c r Hc _ IH]; [apply not_elem_of_nil|].
    apply not_elem_of_cons. split; [|exact IH].
    destruct (key_char_plain c Hc) as (_ & _ & H & _). congruence.
  - clear Hne Hsp. induction Hk as [|c r Hc _ IH]; [apply not_elem_of_nil|].
    apply not_elem_of_cons. split; [|exact IH].
    destruct (key_char_plain c Hc) as (_ & H & _). congruence.
  - destruct Hk as [|c r Hc _]; [exact I|]. simpl.
    destruct (key_char_plain c Hc) as (_ & _ & Hn & Hh & _).
    apply orb_false_iff. split; apply N.eqb_neq; assumption.
Qed.

Lemma split_colon_entry (k v : str) :
  COLON ∉ k -> split_colon (k ++ COLON :: v) = Some (k, v).
Proof.
  induction k as [|c r IH]; intros H; simpl.
  - reflexivity.
  - apply not_elem_of_cons in H as [Hc Hr].
    destruct (N.eqb_spec c COLON) as [->|_]; [congruence|].
    rewrite (IH Hr). reflexivity.
Qed.

Lemma strip_after_space (v : str) : strip (32 :: v) = strip v.
Proof. reflexivity. Qed.

(** Such a key is its own lowercase form, whatever the case mappings
    beyond ASCII. *)
Lemma py_lower_key (lw : str -> str) (k : str) : plain_key k -> py_lower lw k = k.
Proof.
  intros [_ Hk]. unfold py_lower.
  assert (forallb (fun c => c <? 128) k = true /\ List.map ascii_lower k = k) as [-> ->].
  { induction Hk as [|c r Hc _ [IH1 IH2]]; [split; reflexivity|].
    assert ((c <? 128) = true /\ ascii_lower c = c) as [Ha Hl].
    { unfold ascii_lower, key_char, is_ascii_upper, is_ascii_lower, is_ascii_digit,
        in_range in *.
      assert ((65 <=? c) && (c <=? 90) = false) as -> by (char_facts; lia).
      split; [|reflexivity]. rewrite N.ltb_lt. char_facts. lia. }
    simpl. rewrite Ha, Hl, IH1, IH2. split; reflexivity. }
  reflexivity.
Qed.

Lemma meta_line_entry lw meta (kv : str * str) :
  plain_key kv.1 -> plain_value kv.2 ->
  meta_line lw meta (entry_line kv) = <[ kv.1 := kv.2 ]> meta.
Proof.
  intros Hk [_ Hv]. destruct (key_facts _ Hk) as (Hs & _ & _ & Hc & _).
  unfold meta_line, entry_line. rewrite (split_colon_entry _ _ Hc).
  rewrite Hs, (py_lower_key lw _ Hk), strip_after_space, Hv. reflexivity.
Qed.

Lemma fold_entries lw (entries : list (str * str)) : forall meta : gmap str str,
  Forall (fun kv : str * str => plain_key kv.1 /\ plain_value kv.2) entries ->
  fold_left (meta_line lw) (List.map entry_line entries) meta
  = fold_left (fun m (kv : str * str) => <[ kv.1 := kv.2 ]> m) entries meta.
Proof.
  induction entries as [|kv rest IH]; intros meta H; [reflexivity|].
  apply Forall_cons in H as [[Hk Hv] Hrest]. simpl.
  rewrite (meta_line_entry lw meta kv Hk Hv). apply IH, Hrest.
Qed.

Lemma fold_insert_list (entries acc : list (str * str)) :
  fold_left (fun (m : gmap str str) (kv : str * str) => <[ kv.1 := kv.2 ]> m) entries
    (list_to_map acc)
  = list_to_map (reverse entries ++ acc).
Proof.
  revert acc. induction entries as [|kv rest IH]; intros acc; [reflexivity|].
  simpl. change (<[kv.1:=kv.2]> (list_to_map acc : gmap str str))
    with (list_to_map (kv :: acc) : gmap str str).
  rewrite IH, reverse_cons, <- app_assoc. reflexivity.
Qed.

Lemma lazy_any_skips {A : Type} (k : str -> option A) (block tail : str) (a : A) :
  (forall b1 c b2, block = b1 ++ c :: b2 -> k (c :: b2 ++ tail) = None) ->
  k tail = Some a ->
  lazy_any k (block ++ tail) = Some (block, a).
Proof.
  intros Hskip Htail. induction block as [|c r IH].
  - simpl. destruct tail; simpl; rewrite Htail; reflexivity.
  - simpl app. cbn [lazy_any]. rewrite (Hskip [] c r eq_refl).
    rewrite IH; [reflexivity|].
    intros b1 d b2 E. apply (Hskip (c :: b1) d b2). rewrite E. reflexivity.
Qed.

Lemma no_hyphen_line_suffix (b1 b2 : str) :
  no_hyphen_line (b1 ++ b2) -> no_hyphen_line b2.
Proof. induction b1 as [|c r IH]; [trivial|]. intros [_ H]. exact (IH H). Qed.

(** The closing delimiter cannot start inside such a block. *)
Lemma closing_not_inside (block tail : str) (b1 b2 : str) (c : N) :
  no_hyphen_line block -> block = b1 ++ c :: b2 ->
  strip_prefix (NL :: ustr "---") (c :: b2 ++ tail) = None.
Proof.
  intros Hblock E. rewrite E in Hblock.
  apply no_hyphen_line_suffix in Hblock. destruct Hblock as [Hc _].
  rewrite strip_prefix_cons. destruct (N.eqb_spec NL c) as [<-|_]; [|reflexivity].
  specialize (Hc eq_refl). destruct b2 as [|d r]; [contradiction|].
  change (ustr "---") with [HYPHEN; HYPHEN; HYPHEN]. simpl app.
  rewrite strip_prefix_cons. destruct (N.eqb_spec HYPHEN d) as [<-|_]; [|reflexivity].
  contradiction Hc. reflexivity.
Qed.

(** What the pattern takes between the closing hyphens and the body:
    blanks of the body's start, up to a newline. *)
Lemma blanks_then_newline (s : str) :
  (forall b, greedy_plus is_space (then_char NL Some) s = Some b ->
             lstrip is_space b = lstrip is_space s).
Proof.
  induction s as [|c r IH]; intros b; simpl; [discriminate|].
  destruct (is_space c) eqn:Ec; [|discriminate].
  destruct (greedy_plus is_space (then_char NL Some) r) as [a|] eqn:E.
  - intros [= <-]. apply IH. reflexivity.
  - unfold then_char. destruct r as [|d r']; [discriminate|].
    destruct (N.eqb_spec d NL) as [->|_]; [|discriminate].
    intros [= <-]. reflexivity.
Qed.

Lemma after_closing (body : str) :
  exists b, greedy_star is_space (then_char NL Some) (NL :: body) = Some b
            /\ strip b = strip body.
Proof.
  unfold greedy_star.
  destruct (greedy_plus is_space (then_char NL Some) (NL :: body)) as [b|] eqn:E.
  - exists b. split; [reflexivity|].
    pose proof (blanks_then_newline _ b E) as H.
    unfold strip, strip_chars. rewrite H. reflexivity.
  - exists body. split; [reflexivity|]. reflexivity.
Qed.

Lemma no_hyphen_line_app (l rest : str) :
  one_line l -> head_not (fun c => (c =? HYPHEN) || (c =? NL)) rest -> rest <> [] ->
  no_hyphen_line rest -> no_hyphen_line (l ++ NL :: rest).
Proof.
  unfold one_line. intros Hl Hh Hne Hrest. induction l as [|c r IH]; simpl.
  - split; [|exact Hrest]. intros _. destruct rest as [|d r']; [contradiction|].
    simpl in Hh. apply orb_false_iff in Hh as [Hd _]. apply N.eqb_neq in Hd. exact Hd.
  - apply not_elem_of_cons in Hl as [Hc Hr]. split; [|exact (IH Hr)].
    intros ->. congruence.
Qed.

Lemma no_hyphen_line_one (l : str) : one_line l -> no_hyphen_line l.
Proof.
  unfold one_line. induction l as [|c r IH]; intros H; [exact I|].
  apply not_elem_of_cons in H as [Hc Hr]. split; [|exact (IH Hr)].
  intros ->. congruence.
Qed.

Lemma entry_line_facts (kv : str * str) :
  plain_key kv.1 -> plain_value kv.2 ->
  one_line (entry_line kv) /\ entry_line kv <> []
  /\ head_not (fun c => (c =? HYPHEN) || (c =? NL)) (entry_line kv)
  /\ head_not is_space (entry_line kv).
Proof.
  intros Hk [Hv _]. destruct (key_facts _ Hk) as (_ & _ & Hl & _ & Hh).
  destruct Hk as [Hne Hk]. unfold entry_line. split; [|split; [|split]].
  - unfold one_line in *. rewrite elem_of_app, !elem_of_cons.
    intros [H | [H | [H | H]]]; try contradiction; discriminate.
  - destruct kv.1; [contradiction | discriminate].
  - destruct kv.1; [contradiction | exact Hh].
  - destruct Hk as [|c r Hc _]; [contradiction|]. simpl.
    apply key_char_plain, Hc.
Qed.

Lemma block_facts (entries : list (str * str)) :
  entries <> [] ->
  Forall (fun kv : str * str => plain_key kv.1 /\ plain_value kv.2) entries ->
  let block := join [NL] (List.map entry_line entries) in
  no_hyphen_line block /\ block <> []
  /\ head_not (fun c => (c =? HYPHEN) || (c =? NL)) block
  /\ head_not is_space block.
Proof.
  intros Hne H. induction H as [|kv rest [Hk Hv] Hrest IH]; [contradiction|].
  destruct (entry_line_facts kv Hk Hv) as (Hl & Hn & Hh & Hs).
  destruct rest as [|kv' rest'].
  - simpl. split; [apply no_hyphen_line_one, Hl|]. repeat split; assumption.
  - destruct (IH ltac:(discriminate)) as (B1 & B2 & B3 & B4).
    cbn zeta in *.
    change (join [NL] (List.map entry_line (kv :: kv' :: rest')))
      with (entry_line kv ++ NL :: join [NL] (List.map entry_line (kv' :: rest'))).
    split; [apply no_hyphen_line_app; assumption|].
    split; [destruct (entry_line kv); [contradiction | discriminate]|].
    split; destruct (entry_line kv); try contradiction; assumption.
Qed.

Lemma document_matches (entries : list (str * str)) (body : str) :
  entries <> [] ->
  Forall (fun kv : str * str => plain_key kv.1 /\ plain_value kv.2) entries ->
  exists b, frontmatter_match (document entries body)
            = Some (join [NL] (List.map entry_line entries), b)
            /\ strip b = strip body.
Proof.
  intros Hne Hentries.
  destruct (block_facts entries Hne Hentries) as (Hblock & Hbne & Hhead & Hsp).
  cbn zeta in *. set (block := join [NL] (List.map entry_line entries)) in *.
  destruct (after_closing body) as (b & Hb & Hstrip).
  exists b. split; [|exact Hstrip].
  unfold frontmatter_match, document. fold block.
  change (strip_prefix (ustr "---") (ustr "---" ++ ?r)) with (Some r).
  cbv beta iota.
  set (k := fun t : str =>
              match strip_prefix (NL :: ustr "---") t with
              | Some t1 => greedy_star is_space (then_char NL Some) t1
              | None => None
              end).
  set (tail := NL :: ustr "---" ++ NL :: body).
  assert (greedy_plus is_space (then_char NL (lazy_any k)) (block ++ tail) = None
          /\ then_char NL (lazy_any k) (block ++ tail) = None) as [Hg Ht].
  { destruct block as [|c0 r0]; [contradiction|]. simpl in Hsp, Hhead.
    apply orb_false_iff in Hhead as [_ Hnl].
    simpl. rewrite Hsp, Hnl. split; reflexivity. }
  unfold greedy_star. cbn [greedy_plus]. change (is_space NL) with true.
  cbv iota. rewrite Hg, Ht.
  change (then_char NL (lazy_any k) (NL :: block ++ tail))
    with (lazy_any k (block ++ tail)).
  apply lazy_any_skips.
  - intros b1 c b2 E. unfold k.
    rewrite (closing_not_inside block tail b1 b2 c Hblock E). reflexivity.
  - unfold k, tail.
    change (strip_prefix (NL :: ustr "---") (NL :: ustr "---" ++ NL :: body))
      with (Some (NL :: body)).
    exact Hb.
Qed.

(** X9. A document written as a delimiter line, one line key, colon,
    space, value per entry and a delimiter line, followed by any body, is
    read back: the metadata map every key to its value (the last one, if a
    key comes twice) and the body is the given one, trimmed.  Keys are of
    small ASCII letters, digits and underscores; values are trimmed, hold no
    newline and may hold colons.  This holds whatever the case mappings
    beyond ASCII are. *)
Theorem document_read_back (lw : str -> str) (entries : list (str * str)) (body : str) :
  entries <> [] ->
  Forall (fun kv : str * str => plain_key kv.1 /\ plain_value kv.2) entries ->
  parse_frontmatter lw (document entries body)
  = (list_to_map (reverse entries), strip body).
Proof.
  intros Hne Hentries.
  destruct (document_matches entries body Hne Hentries) as (b & Hmatch & Hstrip).
  unfold parse_frontmatter. rewrite Hmatch, Hstrip. f_equal.
  rewrite split_on_join.
  - rewrite (fold_entries lw entries ∅ Hentries).
    change (∅ : gmap str str) with (list_to_map (@nil (str * str)) : gmap str str).
    rewrite fold_insert_list, app_nil_r. reflexivity.
  - destruct entries; [contradiction | discriminate].
  - clear Hne Hmatch. induction Hentries as [|kv rest [Hk Hv] _ IH]; [constructor|].
    constructor; [apply (entry_line_facts kv Hk Hv) | exact IH].
Qed.

Lemma plain_entries_check (entries : list (str * str)) :
  forallb (fun kv : str * str =>
             negb (bool_decide (kv.1 = [])) && forallb key_char kv.1
             && forallb (fun c => negb (c =? NL)) kv.2
             && bool_decide (strip kv.2 = kv.2)) entries = true ->
  Forall (fun kv : str * str => plain_key kv.1 /\ plain_value kv.2) entries.
Proof.
  induction entries as [|kv rest IH]; simpl; intros H; [constructor|].
  apply andb_true_iff in H as [Hkv Hrest]. constructor; [|exact (IH Hrest)].
  clear IH Hrest.
  apply andb_true_iff in Hkv as [Hkv Hs]. apply andb_true_iff in Hkv as [Hkv Hv].
  apply andb_true_iff in Hkv as [Hn Hk].
  split; split.
  - apply negb_true_iff, bool_decide_eq_false in Hn. exact Hn.
  - apply (forallb_Forall key_char); [trivial | exact Hk].
  - apply one_line_check, Hv.
  - apply bool_decide_eq_true in Hs. exact Hs.
Qed.

Lemma document_read_back_witness :
  parse_frontmatter lower_ascii_only (document sample_entries (ustr " Text. "))
  = (list_to_map (reverse sample_entries), strip (ustr " Text. ")).
Proof.
  apply document_read_back; [discriminate|].
  apply plain_entries_check. vm_compute. reflexivity.
Defined.

(** ** The sort of the index *)

Lemma keyed_returns nd (posts : list post) :
  exists ks, keyed nd posts = Return ks /\ List.map snd ks = posts.
Proof.
  induction posts as [|p rest (ks & E & Hks)]; simpl.
  - exists []. split; reflexivity.
  - destruct (try_formats_returns nd (post_date p) formats) as (k & Hk & _).
    unfold parse_date. rewrite Hk, E. exists ((k, p) :: ks).
    split; [reflexivity|]. simpl. rewrite Hks. reflexivity.
Qed.

Lemma insert_desc_Permutation {A K : Type} (ltb : K -> K -> bool) (key : A -> K) x l :
  insert_desc ltb key x l ≡ₚ x :: l.
Proof.
  induction l as [|y r IH]; simpl; [reflexivity|].
  destruct (ltb (key x) (key y)); [|reflexivity].
  rewrite IH. apply Permutation_swap.
Qed.

Lemma sorted_reverse_Permutation {A K : Type} (ltb : K -> K -> bool) (key : A -> K) l :
  sorted_reverse ltb key l ≡ₚ l.
Proof.
  induction l as [|x r IH]; simpl; [reflexivity|].
  rewrite insert_desc_Permutation, IH. reflexivity.
Qed.

(** X10. The sort of the index never fails, whatever the dates of the
    posts read, and the sorted index holds the same posts, each as often as
    before. *)
Theorem sort_posts_rearranges (nd : N -> option N) (posts : list post) :
  exists sorted, sort_posts nd posts = Return sorted /\ sorted ≡ₚ posts.
Proof.
  destruct (keyed_returns nd posts) as (ks & E & Hks).
  unfold sort_posts. rewrite E. eexists. split; [reflexivity|].
  rewrite <- Hks. apply Permutation_map, sorted_reverse_Permutation.
Qed.

Lemma lex_compare_refl (a : list N) : lex_compare a a = Eq.
Proof. induction a as [|x r IH]; simpl; [reflexivity|]. rewrite N.compare_refl. exact IH. Qed.

Lemma lex_compare_antisym (a : list N) : forall b,
  lex_compare b a = CompOpp (lex_compare a b).
Proof.
  induction a as [|x r IH]; intros [|y s]; simpl; try reflexivity.
  rewrite (N.compare_antisym x y).
  destruct (x ?= y); simpl; [apply IH | reflexivity | reflexivity].
Qed.

Lemma lex_compare_le_trans (a : list N) : forall b c,
  lex_compare a b <> Gt -> lex_compare b c <> Gt -> lex_compare a c <> Gt.
Proof.
  induction a as [|x r IH]; intros [|y s] [|z t]; simpl; try congruence.
  destruct (N.compare_spec x y) as [->|Hxy|Hxy]; [| |congruence].
  - destruct (N.compare_spec y z) as [->|Hyz|Hyz]; [apply IH | congruence | congruence].
  - intros _. destruct (N.compare_spec y z) as [->|Hyz|Hyz]; [| |congruence]; intros _.
    + destruct (N.compare_spec x z); [lia | congruence | lia].
    + destruct (N.compare_spec x z); [lia | congruence | lia].
Qed.

Lemma datetime_leb_trans a b c :
  datetime_leb a b = true -> datetime_leb b c = true -> datetime_leb a c = true.
Proof.
  unfold datetime_leb, datetime_compare. intros Hab Hbc.
  pose proof (lex_compare_le_trans (datetime_fields a) (datetime_fields b)
                (datetime_fields c)) as H.
  destruct (lex_compare (datetime_fields a) (datetime_fields b)); try discriminate;
    destruct (lex_compare (datetime_fields b) (datetime_fields c)); try discriminate;
    destruct (lex_compare (datetime_fields a) (datetime_fields c)); try reflexivity;
    exfalso; apply H; congruence.
Qed.

Lemma datetime_not_ltb a b : datetime_ltb a b = false -> datetime_leb b a = true.
Proof.
  unfold datetime_ltb, datetime_leb, datetime_compare.
  rewrite (lex_compare_antisym (datetime_fields a) (datetime_fields b)).
  destruct (lex_compare (datetime_fields a) (datetime_fields b)); simpl; congruence.
Qed.

Lemma datetime_ltb_leb a b : datetime_ltb a b = true -> datetime_leb a b = true.
Proof.
  unfold datetime_ltb, datetime_leb.
  destruct (datetime_compare a b); congruence.
Qed.

Lemma datetime_ltb_irrefl a : datetime_ltb a a = false.
Proof. unfold datetime_ltb, datetime_compare. rewrite lex_compare_refl. reflexivity. Qed.

Lemma insert_post_descending (x : keyed_post) (l : list keyed_post) :
  descending l -> descending (insert_post x l).
Proof.
  induction l as [|y r IH]; simpl.
  - intros _. split; constructor.
  - intros [Hy Hr]. destruct (datetime_ltb x.1 y.1) eqn:E.
    + split; [|exact (IH Hr)].
      apply insert_desc_Forall; [apply datetime_ltb_leb, E | exact Hy].
    + apply datetime_not_ltb in E. split; [|split; assumption].
      constructor; [exact E|].
      eapply Forall_impl; [exact Hy|]. intros z Hz. cbv beta in *.
      exact (datetime_leb_trans _ _ _ Hz E).
Qed.

Lemma sorted_descending (ks : list keyed_post) :
  descending (sorted_reverse datetime_ltb fst ks).
Proof.
  induction ks as [|x r IH]; simpl; [exact I|].
  apply insert_post_descending, IH.
Qed.

Lemma descending_lookup (l : list keyed_post) : forall (i j : nat) a b,
  descending l -> l !! i = Some a -> l !! j = Some b -> (i < j)%nat ->
  datetime_leb b.1 a.1 = true.
Proof.
  induction l as [|y r IH]; intros i j a b; [discriminate|].
  intros [Hy Hr] Hi Hj Hlt. destruct j as [|j]; [lia|]. simpl in Hj.
  destruct i as [|i]; simpl in Hi.
  - injection Hi as <-.
    exact (proj1 (Forall_lookup _ _) Hy _ _ Hj).
  - apply (IH i j); [assumption .. | lia].
Qed.

(** X11. Newest first: of two posts of the sorted index, the one that
    stands later has no later date than the one before it, by the keys the
    date parser gives them. *)
Theorem sort_posts_newest_first (nd : N -> option N) (posts sorted : list post)
    (i j : nat) (p q : post) (dp dq : datetime) :
  sort_posts nd posts = Return sorted ->
  sorted !! i = Some p -> sorted !! j = Some q -> (i < j)%nat ->
  parse_date nd (post_date p) = Return dp ->
  parse_date nd (post_date q) = Return dq ->
  datetime_leb dq dp = true.
Proof.
  unfold sort_posts. destruct (keyed nd posts) as [ks|e] eqn:Ek; [|discriminate].
  intros [= <-] Hi Hj Hlt Hp Hq.
  pose proof (sorted_reverse_Forall datetime_ltb fst _ _ (keyed_keys nd posts ks Ek))
    as Hkeys.
  apply list_lookup_fmap_Some in Hi as ([kp p'] & Ep & Hi).
  apply list_lookup_fmap_Some in Hj as ([kq q'] & Eq & Hj).
  simpl in Ep, Eq. subst p' q'.
  pose proof (proj1 (Forall_lookup _ _) Hkeys _ _ Hi) as Hkp.
  pose proof (proj1 (Forall_lookup _ _) Hkeys _ _ Hj) as Hkq.
  simpl in Hkp, Hkq. rewrite Hp in Hkp. rewrite Hq in Hkq.
  injection Hkp as <-. injection Hkq as <-.
  exact (descending_lookup _ i j _ _ (sorted_descending ks) Hi Hj Hlt).
Qed.

Lemma sort_posts_newest_first_witness :
  datetime_leb (Datetime 2024 3 5 0 0 0 0) (Datetime 2026 2 25 0 0 0 0) = true.
Proof.
  pose (older := (({[ ustr "date" := ustr "2024-03-05" ]} : gmap str str), ustr "older")).
  pose (newer := (({[ ustr "date" := ustr "February 25, 2026" ]} : gmap str str),
                  ustr "newer")).
  apply (sort_posts_newest_first ascii_digits_only [older; newer] [newer; older]
           0 1 newer older); vm_compute; reflexivity.
Defined.

Lemma insert_post_same_key (k : datetime) (x : keyed_post) (l : list keyed_post) :
  List.filter (fun kp : keyed_post => bool_decide (kp.1 = k)) (insert_post x l)
  = List.filter (fun kp : keyed_post => bool_decide (kp.1 = k)) (x :: l).
Proof.
  induction l as [|y r IH]; [reflexivity|].
  cbn [insert_desc]. destruct (datetime_ltb x.1 y.1) eqn:E; [|reflexivity].
  cbn [List.filter] in *. rewrite IH.
  destruct (bool_decide_reflect (x.1 = k)) as [Hx|Hx]; [|reflexivity].
  destruct (bool_decide_reflect (y.1 = k)) as [Hy|Hy]; [|reflexivity].
  rewrite Hx, Hy, datetime_ltb_irrefl in E. discriminate.
Qed.

Lemma sorted_same_key (k : datetime) (ks : list keyed_post) :
  List.filter (fun kp : keyed_post => bool_decide (kp.1 = k))
    (sorted_reverse datetime_ltb fst ks)
  = List.filter (fun kp : keyed_post => bool_decide (kp.1 = k)) ks.
Proof.
  induction ks as [|x r IH]; [reflexivity|].
  cbn [sorted_reverse fold_right]. rewrite insert_post_same_key.
  cbn [List.filter]. unfold sorted_reverse in IH. rewrite IH. reflexivity.
Qed.

Lemma filter_keyed nd (k : datetime) (ks : list keyed_post) :
  Forall (fun kp : keyed_post => parse_date nd (post_date kp.2) = Return kp.1) ks ->
  List.filter (dated nd k) (List.map snd ks)
  = List.map snd (List.filter (fun kp : keyed_post => bool_decide (kp.1 = k)) ks).
Proof.
  induction 1 as [|kp r Hkp _ IH]; [reflexivity|].
  cbn [List.map List.filter]. unfold dated at 1. rewrite Hkp, IH.
  destruct (bool_decide (kp.1 = k)); reflexivity.
Qed.

(** X12. The sort is stable: the posts of one date stand in the sorted
    index in the order in which they were read. *)
Theorem sort_posts_stable (nd : N -> option N) (posts sorted : list post) (d : datetime) :
  sort_posts nd posts = Return sorted ->
  List.filter (dated nd d) sorted = List.filter (dated nd d) posts.
Proof.
  unfold sort_posts. destruct (keyed nd posts) as [ks|e] eqn:Ek; [|discriminate].
  intros [= <-].
  pose proof (keyed_keys nd posts ks Ek) as Hkeys.
  rewrite (filter_keyed nd d _ (sorted_reverse_Forall datetime_ltb fst _ _ Hkeys)).
  rewrite sorted_same_key, <- (filter_keyed nd d _ Hkeys).
  destruct (keyed_returns nd posts) as (ks' & E & Hks). rewrite Ek in E.
  injection E as <-. rewrite Hks. reflexivity.
Qed.

Lemma sort_posts_stable_witness :
  let first := (({[ ustr "date" := ustr "2024-03-05" ]} : gmap str str), ustr "first") in
  let other := (({[ ustr "date" := ustr "2026-02-25" ]} : gmap str str), ustr "other") in
  let second := (({[ ustr "date" := ustr "March 5, 2024" ]} : gmap str str),
                 ustr "second") in
  List.filter (dated ascii_digits_only (Datetime 2024 3 5 0 0 0 0)) [other; first; second]
  = List.filter (dated ascii_digits_only (Datetime 2024 3 5 0 0 0 0)) [first; other; second].
Proof.
  intros first other second.
  apply (sort_posts_stable ascii_digits_only [first; other; second]).
  vm_compute. reflexivity.
Defined.

(** ** What the frontmatter parser stores *)

Lemma strip_idempotent (s : str) : strip (strip s) = strip s.
Proof.
  unfold strip, strip_chars.
  rewrite lstrip_rstrip, (lstrip_fixed _ _ (lstrip_head_not is_space s)).
  apply rstrip_idempotent.
Qed.

Lemma strip_Forall (P : N -> Prop) (s : str) : Forall P s -> Forall P (strip s).
Proof. intros H. apply rstrip_Forall, lstrip_Forall, H. Qed.

Lemma split_on_lines (s : str) : Forall one_line (split_on NL s).
Proof.
  induction s as [|c r IH]; simpl.
  - repeat constructor. apply not_elem_of_nil.
  - destruct (N.eqb_spec c NL) as [->|Hc].
    + constructor; [apply not_elem_of_nil | exact IH].
    + destruct (split_on NL r) as [|w ws].
      * repeat constructor. apply not_elem_of_cons. split; [congruence | apply not_elem_of_nil].
      * apply Forall_cons in IH as [Hw Hws]. constructor; [|exact Hws].
        apply not_elem_of_cons. split; [congruence | exact Hw].
Qed.

Lemma split_colon_Forall (P : N -> Prop) (line : str) : forall k v,
  Forall P line -> split_colon line = Some (k, v) -> Forall P k /\ Forall P v.
Proof.
  induction line as [|c r IH]; intros k v H; simpl; [discriminate|].
  apply Forall_cons in H as [Hc Hr].
  destruct (c =? COLON).
  - intros [= <- <-]. split; [constructor | exact Hr].
  - destruct (split_colon r) as [[k' v']|]; [|discriminate].
    intros [= <- <-]. destruct (IH k' v' Hr eq_refl) as [Hk Hv].
    split; [constructor; assumption | exact Hv].
Qed.

Lemma meta_line_values (lw : str -> str) (meta : gmap str str) (line : str) :
  one_line line ->
  map_Forall (fun _ v => strip v = v /\ one_line v) meta ->
  map_Forall (fun _ v => strip v = v /\ one_line v) (meta_line lw meta line).
Proof.
  intros Hline Hmeta. unfold meta_line.
  destruct (split_colon line) as [[k v]|] eqn:E; [|exact Hmeta].
  apply map_Forall_insert_2; [|exact Hmeta].
  split; [apply strip_idempotent|].
  apply one_line_Forall, strip_Forall.
  apply one_line_Forall in Hline.
  exact (proj2 (split_colon_Forall _ line k v Hline E)).
Qed.

Lemma fold_meta_values (lw : str -> str) (lines : list str) : forall meta : gmap str str,
  Forall one_line lines ->
  map_Forall (fun _ v => strip v = v /\ one_line v) meta ->
  map_Forall (fun _ v => strip v = v /\ one_line v) (fold_left (meta_line lw) lines meta).
Proof.
  induction lines as [|l rest IH]; intros meta Hlines Hmeta; [exact Hmeta|].
  apply Forall_cons in Hlines as [Hl Hrest]. simpl.
  apply IH; [exact Hrest | apply meta_line_values; assumption].
Qed.

(** X13. Whatever the file holds, and whatever the case mappings beyond
    ASCII are, every value of the metadata read from it is trimmed and
    holds no newline; and when metadata were read, the body is trimmed as
    well. *)
Theorem metadata_values_trimmed (lw : str -> str) (content : str) :
  map_Forall (fun _ v => strip v = v /\ one_line v) (parse_frontmatter lw content).1
  /\ ((parse_frontmatter lw content).1 <> ∅ ->
      strip (parse_frontmatter lw content).2 = (parse_frontmatter lw content).2).
Proof.
  unfold parse_frontmatter.
  destruct (frontmatter_match content) as [[block body]|]; simpl.
  - split; [|intros _; apply strip_idempotent].
    apply fold_meta_values; [apply split_on_lines | apply map_Forall_empty].
  - split; [apply map_Forall_empty | intros H; contradiction].
Qed.

(** ** Titles of words *)

Lemma lower_char_alnum c :
  is_ascii_alnum c = true ->
  lower_char c = [ascii_lower c] /\ lower_alnum (ascii_lower c) = true.
Proof.
  intros H. unfold lower_char, ascii_lower.
  destruct (is_ascii_upper c) eqn:Eu.
  - split; [reflexivity|].
    unfold lower_alnum, is_ascii_upper, is_ascii_lower, is_ascii_digit, in_range in *.
    char_facts. lia.
  - assert ((c =? 304) = false /\ (c =? 8490) = false /\ lower_alnum c = true)
      as (-> & -> & Hl).
    { unfold lower_alnum, is_ascii_alnum, is_ascii_upper, is_ascii_lower,
        is_ascii_digit, in_range in *. char_facts. lia. }
    split; [reflexivity | exact Hl].
Qed.

Lemma lower_alnum_facts c :
  lower_alnum c = true ->
  slug_char c = true /\ is_space c = false /\ is_hyphen c = false.
Proof.
  unfold lower_alnum, slug_char, is_hyphen, is_space, is_ascii_lower,
    is_ascii_digit, in_range, HYPHEN. char_facts. lia.
Qed.

Lemma str_lower_app (a b : str) : str_lower (a ++ b) = str_lower a ++ str_lower b.
Proof. unfold str_lower. apply flat_map_app. Qed.

Lemma str_lower_word (w : str) :
  word w ->
  str_lower w = List.map ascii_lower w
  /\ List.map ascii_lower w <> []
  /\ Forall (fun c => lower_alnum c = true) (List.map ascii_lower w).
Proof.
  intros [Hne Hw]. split; [|split].
  - clear Hne. induction Hw as [|c r Hc _ IH]; [reflexivity|].
    change (str_lower (c :: r)) with (lower_char c ++ str_lower r).
    rewrite IH, (proj1 (lower_char_alnum c Hc)). reflexivity.
  - destruct w; [contradiction | discriminate].
  - clear Hne. induction Hw as [|c r Hc _ IH]; [constructor|].
    constructor; [apply lower_char_alnum, Hc | exact IH].
Qed.

Lemma str_lower_words (ws : list str) :
  Forall word ws ->
  str_lower (join [32] ws) = join [32] (List.map (List.map ascii_lower) ws).
Proof.
  induction 1 as [|w rest Hw _ IH]; [reflexivity|].
  destruct (str_lower_word w Hw) as (E & _ & _).
  destruct rest as [|w' rest'].
  - simpl. exact E.
  - change (join [32] (w :: w' :: rest')) with (w ++ 32 :: join [32] (w' :: rest')).
    rewrite str_lower_app, E.
    change (str_lower (32 :: ?r)) with (32 :: str_lower r).
    rewrite IH. reflexivity.
Qed.

Lemma join_Forall (P : N -> Prop) (sep : str) (ws : list str) :
  Forall P sep -> Forall (Forall P) ws -> Forall P (join sep ws).
Proof.
  intros Hsep. induction 1 as [|w rest Hw Hrest IH]; [constructor|].
  destruct rest as [|w' rest']; [exact Hw|].
  change (join sep (w :: w' :: rest')) with (w ++ sep ++ join sep (w' :: rest')).
  rewrite !Forall_app. repeat split; assumption.
Qed.

Lemma join_words_head (cls : N -> bool) (sep : str) (ws : list str) :
  Forall (fun w => w <> [] /\ Forall (fun c => cls c = false) w) ws -> ws <> [] ->
  join sep ws <> [] /\ head_not cls (join sep ws).
Proof.
  intros H Hne. destruct H as [|w rest [Hw Hc] _]; [contradiction|].
  assert (join sep (w :: rest) = w ++ match rest with [] => [] | _ => sep ++ join sep rest end)
    as -> by (destruct rest; [symmetry; apply app_nil_r | reflexivity]).
  destruct Hc as [|c r Hc _]; [contradiction|]. split; [discriminate | exact Hc].
Qed.

Lemma sub_runs_word cls repl b (w rest : str) :
  w <> [] -> Forall (fun c => cls c = false) w ->
  sub_runs cls repl b (w ++ rest) = w ++ sub_runs cls repl false rest.
Proof.
  intros Hne Hw. revert b. induction Hw as [|c r Hc Hr IH]; intros b; [contradiction|].
  simpl. rewrite Hc. f_equal. destruct r as [|d r']; [reflexivity|].
  apply IH. discriminate.
Qed.

Lemma sub_runs_words (ws : list str) :
  Forall (fun w => w <> [] /\ Forall (fun c => is_space c = false) w) ws ->
  forall b, sub_runs is_space [HYPHEN] b (join [32] ws) = join [HYPHEN] ws.
Proof.
  induction 1 as [|w rest [Hne Hw] Hrest IH]; intros b; [reflexivity|].
  destruct rest as [|w' rest'].
  - simpl. rewrite <- (app_nil_r w) at 1.
    rewrite (sub_runs_word _ _ _ _ _ Hne Hw). apply app_nil_r.
  - change (join ?sep (w :: w' :: rest')) with (w ++ sep ++ join sep (w' :: rest')).
    rewrite (sub_runs_word _ _ _ _ _ Hne Hw). f_equal.
    simpl. f_equal. apply IH.
Qed.

Lemma no_adjacent_word cls (w rest : str) (h : N) :
  w <> [] -> Forall (fun c => cls c = false) w ->
  head_not cls rest -> no_adjacent cls rest ->
  no_adjacent cls (w ++ h :: rest).
Proof.
  intros Hne Hw Hhead Hrest. induction Hw as [|c r Hc _ IH]; [contradiction|].
  simpl app. destruct r as [|d r'].
  - split; [rewrite Hc; reflexivity|]. apply cons_no_adjacent; assumption.
  - split; [rewrite Hc; reflexivity|]. apply IH. discriminate.
Qed.

Lemma no_adjacent_none cls (s : str) :
  Forall (fun c => cls c = false) s -> no_adjacent cls s.
Proof.
  induction 1 as [|c r Hc _ IH]; [exact I|].
  destruct r; [exact I|]. split; [rewrite Hc; reflexivity | exact IH].
Qed.

Lemma hyphenated_well_formed (ws : list str) :
  ws <> [] ->
  Forall (fun w => w <> [] /\ Forall (fun c => lower_alnum c = true) w) ws ->
  well_formed_slug (join [HYPHEN] ws).
Proof.
  intros Hne Hws.
  assert (Forall (fun w => w <> [] /\ Forall (fun c => is_hyphen c = false) w) ws) as Hnh.
  { eapply Forall_impl; [exact Hws|]. intros w [Hw Hc]. split; [exact Hw|].
    eapply Forall_impl; [exact Hc|]. intros c H. apply lower_alnum_facts, H. }
  split; [|split; [|split]].
  - apply join_Forall; [repeat constructor|].
    eapply Forall_impl; [exact Hws|]. intros w [_ Hc].
    eapply Forall_impl; [exact Hc|]. intros c H. apply lower_alnum_facts, H.
  - apply (join_words_head is_hyphen); assumption.
  - clear Hws. induction Hnh as [|w rest [Hw Hc] Hrest IH]; [contradiction|].
    destruct rest as [|w' rest']; [apply rstrip_none, Hc|].
    change (join ?sep (w :: w' :: rest')) with (w ++ (sep ++ join sep (w' :: rest'))).
    apply rstrip_app_fixed; [discriminate|].
    change ([HYPHEN] ++ ?r) with ([HYPHEN] ++ r).
    apply (rstrip_app_fixed _ [HYPHEN]); [|apply IH; discriminate].
    apply (join_words_head is_hyphen); [exact Hrest | discriminate].
  - clear Hws. induction Hnh as [|w rest [Hw Hc] Hrest IH]; [contradiction|].
    destruct rest as [|w' rest']; [apply no_adjacent_none, Hc|].
    change (join ?sep (w :: w' :: rest')) with (w ++ HYPHEN :: join sep (w' :: rest')).
    apply no_adjacent_word; try assumption.
    + apply (join_words_head is_hyphen); [exact Hrest | discriminate].
    + apply IH. discriminate.
Qed.

(** X14. A title of words divided by single spaces, the words being of
    ASCII letters and digits, gets the slug of its words in small letters,
    divided by single hyphens. *)
Theorem slugify_words (ws : list str) :
  ws <> [] -> Forall word ws ->
  slugify (join [32] ws) = join [HYPHEN] (List.map (List.map ascii_lower) ws).
Proof.
  intros Hne Hws.
  set (lws := List.map (List.map ascii_lower) ws).
  assert (Forall (fun w => w <> [] /\ Forall (fun c => lower_alnum c = true) w) lws)
    as Hlws.
  { clear Hne. subst lws. induction Hws as [|w rest Hw _ IH]; [constructor|].
    constructor; [apply (str_lower_word w Hw) | exact IH]. }
  assert (lws <> []) as Hlne by (subst lws; destruct ws; [contradiction | discriminate]).
  unfold slugify, sub_class_plus. rewrite (str_lower_words ws Hws). fold lws.
  rewrite sub_class_none.
  2:{ apply join_Forall; [repeat constructor|].
      eapply Forall_impl; [exact Hlws|]. intros w [_ Hc].
      eapply Forall_impl; [exact Hc|]. intros c H. cbv beta.
      apply negb_false_iff, slug_char_keep, lower_alnum_facts, H. }
  rewrite sub_runs_words.
  2:{ eapply Forall_impl; [exact Hlws|]. intros w [Hw Hc]. split; [exact Hw|].
      eapply Forall_impl; [exact Hc|]. intros c H. apply lower_alnum_facts, H. }
  destruct (hyphenated_well_formed lws Hlne Hlws) as (_ & Hhead & Htail & Hadj).
  rewrite (sub_runs_fixed is_hyphen HYPHEN false _ is_hyphen_only Hadj) by discriminate.
  apply strip_chars_fixed; assumption.
Qed.

Lemma words_check (ws : list str) : forallb is_word ws = true -> Forall word ws.
Proof.
  induction ws as [|w rest IH]; simpl; intros H; [constructor|].
  apply andb_true_iff in H as [Hw Hrest]. constructor; [|exact (IH Hrest)].
  apply andb_true_iff in Hw as [Hn Hc]. split.
  - apply negb_true_iff, bool_decide_eq_false in Hn. exact Hn.
  - apply (forallb_Forall is_ascii_alnum); [trivial | exact Hc].
Qed.

Lemma slugify_words_witness :
  slugify (join [32] [ustr "Hello"; ustr "World"; ustr "2024"])
  = join [HYPHEN] (List.map (List.map ascii_lower)
                     [ustr "Hello"; ustr "World"; ustr "2024"]).
Proof.
  apply slugify_words; [discriminate|].
  apply words_check. vm_compute. reflexivity.
Defined.

(** ** The index item *)

Lemma count_char_app c (a b : str) :
  count_char c (a ++ b) = (count_char c a + count_char c b)%nat.
Proof. unfold count_char. rewrite List.filter_app, length_app. reflexivity. Qed.

Lemma count_char_absent c (s : str) :
  Forall (fun d => d <> c) s -> count_char c s = 0%nat.
Proof.
  unfold count_char. induction 1 as [|d r Hd _ IH]; [reflexivity|].
  simpl. destruct (N.eqb_spec c d) as [->|_]; [contradiction | exact IH].
Qed.

Lemma count_char_escaped c (s : str) :
  is_markup c -> count_char c (html_escape s) = 0%nat.
Proof.
  intros Hc. apply count_char_absent.
  eapply Forall_impl; [apply html_escape_markup_free|].
  intros d Hd. unfold is_markup in Hc. cbv beta in Hd. lia.
Qed.

Lemma count_char_slug c (title : str) :
  is_markup c -> count_char c (slugify title) = 0%nat.
Proof.
  intros Hc. apply count_char_absent.
  eapply Forall_impl; [apply (slugify_well_formed title)|].
  intros d Hd. cbv beta in Hd. unfold is_markup in Hc.
  unfold slug_char, is_hyphen, is_ascii_lower, is_ascii_digit, in_range, HYPHEN in Hd.
  revert Hd. char_facts. lia.
Qed.

Lemma count_char_tag_span c (t : str) :
  is_markup c -> count_char c (tag_span t) = count_char c (tag_span []).
Proof.
  intros Hc. unfold tag_span. rewrite !count_char_app, !count_char_escaped by exact Hc.
  reflexivity.
Qed.

Lemma count_char_spans c (ts : list str) :
  is_markup c ->
  count_char c (join [NL] (List.map tag_span ts))
  = (length ts * count_char c (tag_span []))%nat.
Proof.
  intros Hc. induction ts as [|t rest IH]; [reflexivity|].
  destruct rest as [|t' rest'].
  - simpl. rewrite (count_char_tag_span c t Hc). lia.
  - change (join [NL] (List.map tag_span (t :: t' :: rest')))
      with (tag_span t ++ [NL] ++ join [NL] (List.map tag_span (t' :: rest'))).
    rewrite !count_char_app, IH, (count_char_tag_span c t Hc).
    assert (count_char c [NL] = 0%nat) as ->
      by (destruct Hc as [-> | [-> | [-> | ->]]]; reflexivity).
    simpl length. lia.
Qed.

Lemma count_char_tags_html c (tags_str : str) :
  is_markup c ->
  count_char c (tags_html tags_str)
  = (tag_elements tags_str * count_char c (tag_span []))%nat.
Proof.
  intros Hc. destruct tags_str as [|a r]; [reflexivity|].
  unfold tags_html, tag_elements.
  rewrite !count_char_app, count_char_spans, length_map by exact Hc.
  destruct Hc as [-> | [-> | [-> | ->]]]; vm_compute count_char; lia.
Qed.

(** X15. The markup of an index item is fixed by the number of its tags:
    whatever the date, the title, the excerpt and the tags say, and
    whatever title the slug was made from, the item holds ten opening and
    ten closing angle brackets and eight double quotes of its own, two
    more of each for every element of the tags (the block and one per tag),
    and no single quote.  No text of the metadata adds markup. *)
Theorem index_item_markup_fixed (meta : gmap str str) (title : str) :
  count_char 60 (generate_index_item meta (slugify title))
    = (10 + 2 * tag_elements (meta_get meta (ustr "tags") []))%nat
  /\ count_char 62 (generate_index_item meta (slugify title))
    = (10 + 2 * tag_elements (meta_get meta (ustr "tags") []))%nat
  /\ count_char 34 (generate_index_item meta (slugify title))
    = (8 + 2 * tag_elements (meta_get meta (ustr "tags") []))%nat
  /\ count_char 39 (generate_index_item meta (slugify title)) = 0%nat.
Proof.
  unfold generate_index_item.
  repeat split;
    rewrite !count_char_app, !count_char_escaped, count_char_slug, count_char_tags_html
      by (unfold is_markup; lia);
    vm_compute count_char; lia.
Qed.

(** ** Dates in ISO format *)

Lemma digit_facts nd (c : N) :
  is_ascii_digit c = true ->
  is_decimal nd c = true /\ decimal_value nd c = Some (c - 48) /\ is_space c = false.
Proof.
  intros H. unfold is_decimal, decimal_value.
  assert ((c <? 128) = true /\ is_space c = false) as [-> Hs].
  { unfold is_ascii_digit, is_space, in_range in *. rewrite N.ltb_lt. char_facts. lia. }
  rewrite H. repeat split. exact Hs.
Qed.

Lemma digits_value_numeral nd (s : str) : forall acc,
  Forall (fun c => is_ascii_digit c = true) s ->
  digits_value nd acc s = Return (fold_left (fun a c => 10 * a + (c - 48)) s acc).
Proof.
  induction s as [|c r IH]; intros acc H; [reflexivity|].
  apply Forall_cons in H as [Hc Hr]. simpl.
  rewrite (proj1 (proj2 (digit_facts nd c Hc))). apply IH, Hr.
Qed.

Lemma py_int_numeral nd (s : str) :
  s <> [] -> Forall (fun c => is_ascii_digit c = true) s ->
  py_int nd s = Return (numeral_value s).
Proof.
  intros Hne H. unfold py_int.
  assert (strip s = s) as ->.
  { assert (Forall (fun c => is_space c = false) s) as Hs.
    { eapply Forall_impl; [exact H|]. intros c Hc. apply (digit_facts nd c Hc). }
    apply strip_chars_fixed; [destruct Hs; [exact I | assumption] | apply rstrip_none, Hs]. }
  destruct s as [|c r]; [contradiction|]. apply digits_value_numeral, H.
Qed.

Lemma four_digits_facts (y : N) :
  y <= 9999 ->
  Forall (fun c => is_ascii_digit c = true) (four_digits y)
  /\ numeral_value (four_digits y) = y.
Proof.
  intros Hy. unfold four_digits, numeral_value, is_ascii_digit, in_range. split.
  - repeat constructor; char_facts; zify; Z.to_euclidean_division_equations; lia.
  - simpl. zify; Z.to_euclidean_division_equations; lia.
Qed.

Lemma two_digits_facts (n : N) :
  n <= 99 ->
  Forall (fun c => is_ascii_digit c = true) (two_digits n)
  /\ numeral_value (two_digits n) = n.
Proof.
  intros Hn. unfold two_digits, numeral_value, is_ascii_digit, in_range. split.
  - repeat constructor; char_facts; zify; Z.to_euclidean_division_equations; lia.
  - simpl. zify; Z.to_euclidean_division_equations; lia.
Qed.

(** A text that starts with a digit is no date of the format with the
    name of the month first. *)
Lemma named_month_refuses_digit nd (c : N) (rest : str) :
  is_ascii_digit c = true ->
  strptime nd (c :: rest) (ustr "%B %d, %Y") = Raise ValueError.
Proof.
  intros H. unfold is_ascii_digit, in_range in H. char_facts.
  assert (c = 48 \/ c = 49 \/ c = 50 \/ c = 51 \/ c = 52 \/ c = 53 \/ c = 54
          \/ c = 55 \/ c = 56 \/ c = 57) as Hc by lia.
  repeat (destruct Hc as [-> | Hc]; [vm_compute; reflexivity|]).
  subst c. vm_compute. reflexivity.
Qed.

(** Month and day of two digits each, as the pattern of the ISO format
    takes them. *)
Lemma month_day_match nd (m d : N) :
  1 <= m <= 12 -> 1 <= d <= 31 ->
  match_items nd [Lit HYPHEN; Month; Lit HYPHEN; Day]
    (HYPHEN :: two_digits m ++ HYPHEN :: two_digits d)
  = Some ([(Lit HYPHEN, [HYPHEN]); (Month, two_digits m);
           (Lit HYPHEN, [HYPHEN]); (Day, two_digits d)], []).
Proof.
  intros Hm Hd.
  destruct m as [|p]; [lia|].
  do 4 (try (destruct p as [p|p|]; try lia)).
  all: destruct d as [|q]; [lia|].
  all: do 5 (try (destruct q as [q|q|]; try lia)).
  all: vm_compute; reflexivity.
Qed.

Lemma days_in_month_bound (y m : N) : days_in_month y m <= 31.
Proof.
  unfold days_in_month.
  destruct (m =? 2); [destruct (is_leap y); lia|].
  destruct ((m =? 4) || (m =? 6) || (m =? 9) || (m =? 11)); lia.
Qed.

Lemma iso_format_match nd (y m d : N) :
  y <= 9999 -> 1 <= m <= 12 -> 1 <= d <= 31 ->
  match_items nd [Year; Lit HYPHEN; Month; Lit HYPHEN; Day] (iso_format y m d)
  = Some ([(Year, four_digits y); (Lit HYPHEN, [HYPHEN]); (Month, two_digits m);
           (Lit HYPHEN, [HYPHEN]); (Day, two_digits d)], []).
Proof.
  intros Hy Hm Hd.
  destruct (four_digits_facts y Hy) as [Hdigits _].
  change (match_items nd (Year :: ?its) ?s)
    with (first_some
            (List.map (fun mr : str * str =>
                         match match_items nd its mr.2 with
                         | Some (groups, rest) => Some ((Year, mr.1) :: groups, rest)
                         | None => None
                         end)
               (alternatives nd Year s))).
  unfold iso_format, four_digits in *.
  apply Forall_cons in Hdigits as [H1 Hdigits].
  apply Forall_cons in Hdigits as [H2 Hdigits].
  apply Forall_cons in Hdigits as [H3 Hdigits].
  apply Forall_cons in Hdigits as [H4 _].
  apply (digit_facts nd) in H1 as [H1 _]. apply (digit_facts nd) in H2 as [H2 _].
  apply (digit_facts nd) in H3 as [H3 _]. apply (digit_facts nd) in H4 as [H4 _].
  unfold alternatives, some_list. cbn [app classes]. rewrite H1, H2, H3, H4.
  cbn [omap List.map first_some fst snd id mbind option_bind list_omap].
  simpl omap. cbn [List.map first_some fst snd].
  rewrite (month_day_match nd m d Hm Hd). reflexivity.
Qed.

(** X16. Every date of the calendar, written in ISO format (four digits
    of the year, two of the month, two of the day, hyphens between), is
    read back by the date parser as that date. *)
Theorem iso_date_read_back (nd : N -> option N) (y m d : N) :
  in_range 1 9999 y = true -> in_range 1 12 m = true ->
  in_range 1 (days_in_month y m) d = true ->
  parse_date nd (iso_format y m d) = Return (Datetime y m d 0 0 0 0).
Proof.
  intros Hy Hm Hd.
  assert (y <= 9999 /\ 1 <= m <= 12 /\ 1 <= d <= 31) as (By & Bm & Bd).
  { pose proof (days_in_month_bound y m). unfold in_range in *. char_facts. lia. }
  destruct (four_digits_facts y By) as [Hyd Hyv].
  destruct (two_digits_facts m ltac:(lia)) as [Hmd Hmv].
  destruct (two_digits_facts d ltac:(lia)) as [Hdd Hdv].
  assert (strip (iso_format y m d) = iso_format y m d) as Hstrip.
  { assert (Forall (fun c => is_space c = false) (iso_format y m d)) as Hs.
    { unfold iso_format. rewrite Forall_app, Forall_cons, Forall_app, Forall_cons.
      repeat split; try reflexivity;
        (eapply Forall_impl; [eassumption|]; intros c Hc; apply (digit_facts nd c Hc)). }
    apply strip_chars_fixed; [|apply rstrip_none, Hs].
    unfold iso_format, four_digits in *. apply Forall_cons in Hs as [Hs _]. exact Hs. }
  unfold parse_date.
  change formats with (ustr "%B %d, %Y" :: ustr "%Y-%m-%d" :: List.tl (List.tl formats)).
  cbn [try_formats]. rewrite Hstrip.
  assert (strptime nd (iso_format y m d) (ustr "%B %d, %Y") = Raise ValueError) as ->.
  { unfold iso_format, four_digits in *. apply named_month_refuses_digit.
    apply Forall_cons in Hyd as [H _]. exact H. }
  unfold strptime.
  change (format_items false (ustr "%Y-%m-%d"))
    with (Some [Year; Lit HYPHEN; Month; Lit HYPHEN; Day]).
  cbv beta iota.
  rewrite (iso_format_match nd y m d By Bm Bd).
  cbn [fold_left read_group fst snd].
  rewrite (py_int_numeral nd (four_digits y)), Hyv by (discriminate || exact Hyd).
  cbn [read_group fst snd].
  rewrite (py_int_numeral nd (two_digits m)), Hmv by (discriminate || exact Hmd).
  cbn [read_group fst snd].
  rewrite (py_int_numeral nd (two_digits d)), Hdv by (discriminate || exact Hdd).
  unfold make_datetime. rewrite Hy, Hm, Hd. reflexivity.
Qed.

Lemma iso_date_read_back_witness :
  parse_date ascii_digits_only (iso_format 2024 2 29)
  = Return (Datetime 2024 2 29 0 0 0 0).
Proof. apply iso_date_read_back; reflexivity. Defined.

(** ** Lists of any length, and prose *)

Lemma run_items nd (ls : list str) : forall st,
  in_code st = false -> in_blockquote st = false -> in_list st = true ->
  Forall item_line ls ->
  run nd st ls =
    Conv (result st ++ List.map (fun l => list_item (strip (drop 2 l))) ls)
         true (in_ol st) false false (bq_lines st).
Proof.
  induction ls as [|l rest IH]; intros st Hc Hq Hl Hls.
  - simpl. rewrite app_nil_r. destruct st; simpl in *; congruence.
  - apply Forall_cons in Hls as [(_ & Hs & Hne) Hrest].
    unfold run in *. simpl fold_left.
    rewrite (step_unordered_item nd st l Hc Hq Hs Hne), Hl.
    rewrite IH by (assumption || reflexivity).
    unfold emit. simpl. rewrite <- app_assoc. reflexivity.
Qed.

(** X17. A run of item lines of any length, alone in a text, gives one
    unordered list: the opening fragment, one item per line with the
    inline-formatted text of the line, and the closing fragment. *)
Theorem items_one_list (nd : N -> option N) (ls : list str) :
  ls <> [] -> Forall item_line ls ->
  md_fragments nd (join [NL] ls)
  = ustr "<ul>" :: List.map (fun l => list_item (strip (drop 2 l))) ls ++ [ustr "</ul>"].
Proof.
  intros Hne Hls. unfold md_fragments.
  rewrite split_on_join.
  2: exact Hne.
  2:{ eapply Forall_impl; [exact Hls|]. intros l Hl. apply Hl. }
  destruct ls as [|l rest]; [contradiction|].
  apply Forall_cons in Hls as [(_ & Hs & Hn) Hrest].
  unfold run. simpl fold_left.
  rewrite (step_unordered_item nd init l eq_refl eq_refl Hs Hn).
  change (fold_left (step nd) rest ?st) with (run nd st rest).
  rewrite run_items by (reflexivity || exact Hrest).
  reflexivity.
Qed.

Lemma item_lines_check (ls : list str) :
  forallb is_item_line ls = true -> Forall item_line ls.
Proof.
  induction ls as [|l rest IH]; simpl; intros H; [constructor|].
  apply andb_true_iff in H as [Hl Hrest]. constructor; [|exact (IH Hrest)].
  apply andb_true_iff in Hl as [Hl Hn]. apply andb_true_iff in Hl as [Ho Hs].
  split; [apply one_line_check, Ho|]. split; [exact Hs|].
  apply negb_true_iff, bool_decide_eq_false in Hn. exact Hn.
Qed.

Lemma items_one_list_witness :
  md_fragments ascii_digits_only
    (join [NL] [ustr "- one"; ustr "- two"; ustr "-  *three*"; ustr "- four "])
  = ustr "<ul>"
    :: List.map (fun l => list_item (strip (drop 2 l)))
         [ustr "- one"; ustr "- two"; ustr "-  *three*"; ustr "- four "]
    ++ [ustr "</ul>"].
Proof.
  apply items_one_list; [discriminate|].
  apply item_lines_check. vm_compute. reflexivity.
Defined.

Lemma letter_facts nd (c : N) :
  is_ascii_letter c = true ->
  c <> 96 /\ c <> 62 /\ c <> HASH /\ c <> HYPHEN /\ c <> 42 /\ c <> 95
  /\ is_decimal nd c = false.
Proof.
  intros H. unfold is_decimal, decimal_value.
  assert ((c <? 128) = true /\ is_ascii_digit c = false
          /\ c <> 96 /\ c <> 62 /\ c <> HASH /\ c <> HYPHEN /\ c <> 42 /\ c <> 95)
    as (-> & -> & Hrest).
  { unfold is_ascii_letter, is_ascii_upper, is_ascii_lower, is_ascii_digit, in_range,
      HASH, HYPHEN in *. rewrite N.ltb_lt. char_facts. lia. }
  repeat split; tauto.
Qed.

(** What the loop does with a line of prose outside a code fence, with no
    blockquote and no list open. *)
Lemma step_prose nd st (l : str) :
  in_code st = false -> in_blockquote st = false ->
  in_list st = false -> in_ol st = false ->
  prose_line l -> step nd st l = emit (paragraph l) st.
Proof.
  intros Hc Hq Hl Ho (_ & c & r & Hs & Hletter).
  destruct (letter_facts nd c Hletter) as (H96 & H62 & Hh & Hy & Ha & Hu & Hd).
  unfold step, paragraph. rewrite Hs.
  change (ustr "```") with [96; 96; 96]. change (ustr "> ") with [62; 32].
  rewrite !startswith_cons.
  rewrite (proj2 (N.eqb_neq 96 c)), (proj2 (N.eqb_neq 62 c)) by congruence.
  cbn [andb]. rewrite Hc. unfold flush_blockquote. rewrite Hq.
  unfold step_block.
  assert (heading_match (c :: r) = None) as ->.
  { unfold heading_match, heading_with. cbn [repeat]. rewrite !strip_prefix_cons.
    rewrite (proj2 (N.eqb_neq HASH c)) by congruence. reflexivity. }
  assert (is_rule (c :: r) = false) as ->.
  { unfold is_rule, str_eqb.
    rewrite !bool_decide_eq_false_2; [reflexivity | | |]; intros E;
      apply (f_equal head) in E; vm_compute in E; unfold HYPHEN in *; congruence. }
  unfold ul_marker, is_bullet.
  rewrite (proj2 (N.eqb_neq c HYPHEN)), (proj2 (N.eqb_neq c 42)) by congruence.
  cbn [orb]. rewrite Hl. unfold step_ordered, ol_marker. cbn [greedy_plus].
  rewrite Hd, Ho. reflexivity.
Qed.

Lemma run_prose nd (ls : list str) : forall st,
  in_code st = false -> in_blockquote st = false ->
  in_list st = false -> in_ol st = false ->
  Forall prose_line ls ->
  run nd st ls =
    Conv (result st ++ List.map paragraph ls) false false false false (bq_lines st).
Proof.
  induction ls as [|l rest IH]; intros st Hc Hq Hl Ho Hls.
  - simpl. rewrite app_nil_r. destruct st; simpl in *; congruence.
  - apply Forall_cons in Hls as [Hp Hrest].
    unfold run in *. simpl fold_left.
    rewrite (step_prose nd st l Hc Hq Hl Ho Hp).
    rewrite IH by assumption.
    unfold emit. simpl. rewrite <- app_assoc. reflexivity.
Qed.

(** X18. In a text of prose lines only, lines whose first character after
    the blanks is an ASCII letter, every line becomes a paragraph of its
    own, with its trimmed and inline-formatted text: neighbouring lines are
    not joined. *)
Theorem prose_lines_paragraphs (nd : N -> option N) (ls : list str) :
  ls <> [] -> Forall prose_line ls ->
  md_fragments nd (join [NL] ls) = List.map paragraph ls.
Proof.
  intros Hne Hls. unfold md_fragments.
  rewrite split_on_join.
  2: exact Hne.
  2:{ eapply Forall_impl; [exact Hls|]. intros l Hl. apply Hl. }
  rewrite (run_prose nd ls init) by (reflexivity || exact Hls).
  reflexivity.
Qed.

Lemma prose_lines_check (ls : list str) :
  forallb is_prose_line ls = true -> Forall prose_line ls.
Proof.
  induction ls as [|l rest IH]; simpl; intros H; [constructor|].
  apply andb_true_iff in H as [Hl Hrest]. constructor; [|exact (IH Hrest)].
  apply andb_true_iff in Hl as [Ho Hs].
  split; [apply one_line_check, Ho|].
  destruct (strip l) as [|c r]; [discriminate|]. exists c, r. split; [reflexivity | exact Hs].
Qed.

Lemma prose_lines_paragraphs_witness :
  md_fragments ascii_digits_only
    (join [NL] [ustr "One line,"; ustr "  and the *next* one."])
  = List.map paragraph [ustr "One line,"; ustr "  and the *next* one."].
Proof.
  apply prose_lines_paragraphs; [discriminate|].
  apply prose_lines_check. vm_compute. reflexivity.
Defined.

Lemma greedy_plus_run {A : Type} nd (k : str -> option A) (num rest : str) (a : A) :
  num <> [] -> Forall (fun c => is_ascii_digit c = true) num ->
  head_not (is_decimal nd) rest -> k rest = Some a ->
  greedy_plus (is_decimal nd) k (num ++ rest) = Some a.
Proof.
  intros Hne Hnum Hrest Hk. induction Hnum as [|c r Hc _ IH]; [contradiction|].
  simpl. rewrite (proj1 (digit_facts nd c Hc)).
  destruct r as [|d r'].
  - simpl. destruct rest as [|x rest']; [exact Hk|].
    simpl in Hrest. simpl. rewrite Hrest. exact Hk.
  - rewrite IH by discriminate. reflexivity.
Qed.

Lemma numbered_facts nd (p : str * str) :
  numbered_entry p ->
  strip (numbered p) = numbered p /\ one_line (numbered p)
  /\ ol_marker nd (numbered p) = Some p.2
  /\ exists c r, numbered p = c :: r /\ is_ascii_digit c = true.
Proof.
  destruct p as [num text]. unfold numbered, numbered_entry. simpl.
  intros (Hne & Hnum & Htext & Hstrip & Hone).
  destruct (trimmed_ends text Hstrip) as [Hhead Htail].
  assert (Forall (fun c => is_space c = false /\ c <> NL) num) as Hplain.
  { eapply Forall_impl; [exact Hnum|]. intros c Hc. split; [apply (digit_facts nd c Hc)|].
    unfold is_ascii_digit, in_range, NL in *. revert Hc. char_facts. lia. }
  split; [|split; [|split]].
  - apply strip_chars_fixed.
    + destruct Hplain as [|c r [Hc _] _]; [contradiction | exact Hc].
    + apply rstrip_app_fixed; [discriminate|].
      apply (rstrip_app_fixed _ [46; 32]); assumption.
  - unfold one_line in *. rewrite elem_of_app, !elem_of_cons.
    intros [H | [H | [H | H]]]; try discriminate; try contradiction.
    rewrite Forall_forall in Hplain. destruct (Hplain NL H) as (_ & Hn). congruence.
  - unfold ol_marker. apply greedy_plus_run; [assumption .. | | ].
    + reflexivity.
    + unfold then_char. change (46 =? 46) with true. cbv iota.
      rewrite greedy_plus_all by reflexivity. f_equal. apply lstrip_fixed, Hhead.
  - destruct num as [|c r]; [contradiction|]. apply Forall_cons in Hnum as [Hc _].
    exists c, (r ++ 46 :: 32 :: text). split; [reflexivity | exact Hc].
Qed.

Lemma digit_head_facts (c : N) :
  is_ascii_digit c = true ->
  c <> 96 /\ c <> 62 /\ c <> HASH /\ c <> HYPHEN /\ c <> 42 /\ c <> 95.
Proof.
  unfold is_ascii_digit, in_range, HASH, HYPHEN. char_facts. lia.
Qed.

(** What the loop does with a numbered line outside a code fence, with no
    blockquote and no unordered list open. *)
Lemma step_numbered nd st (p : str * str) :
  in_code st = false -> in_blockquote st = false -> in_list st = false ->
  numbered_entry p ->
  step nd st (numbered p) =
    emit (list_item p.2)
         (if in_ol st then st else set_in_ol true (emit (ustr "<ol>") st)).
Proof.
  intros Hc Hq Hl Hp.
  destruct (numbered_facts nd p Hp) as (Hs & _ & Hm & c & r & E & Hd).
  unfold step. rewrite Hs.
  destruct (digit_head_facts c Hd) as (H96 & H62 & Hh & Hy & Ha & Hu).
  assert (startswith (ustr "```") (numbered p) = false
          /\ startswith (ustr "> ") (numbered p) = false
          /\ heading_match (numbered p) = None
          /\ is_rule (numbered p) = false
          /\ ul_marker (numbered p) = None) as (-> & -> & Hhm & Hr & Hu').
  { rewrite E. change (ustr "```") with [96; 96; 96]. change (ustr "> ") with [62; 32].
    rewrite !startswith_cons.
    rewrite (proj2 (N.eqb_neq 96 c)), (proj2 (N.eqb_neq 62 c)) by congruence.
    repeat split.
    - unfold heading_match, heading_with. cbn [repeat]. rewrite !strip_prefix_cons.
      rewrite (proj2 (N.eqb_neq HASH c)) by congruence. reflexivity.
    - unfold is_rule, str_eqb.
      rewrite !bool_decide_eq_false_2; [reflexivity | | |]; intros E';
        apply (f_equal head) in E'; vm_compute in E'; unfold HYPHEN in *; congruence.
    - unfold ul_marker, is_bullet.
      rewrite (proj2 (N.eqb_neq c HYPHEN)), (proj2 (N.eqb_neq c 42)) by congruence.
      reflexivity. }
  rewrite Hc. unfold flush_blockquote. rewrite Hq. unfold step_block.
  rewrite Hhm, Hr, Hu', Hl. unfold step_ordered. rewrite Hm. reflexivity.
Qed.

Lemma run_numbered nd (ps : list (str * str)) : forall st,
  in_code st = false -> in_blockquote st = false ->
  in_list st = false -> in_ol st = true ->
  Forall numbered_entry ps ->
  run nd st (List.map numbered ps) =
    Conv (result st ++ List.map (fun p : str * str => list_item p.2) ps)
         false true false false (bq_lines st).
Proof.
  induction ps as [|p rest IH]; intros st Hc Hq Hl Ho Hps.
  - simpl. rewrite app_nil_r. destruct st; simpl in *; congruence.
  - apply Forall_cons in Hps as [Hp Hrest].
    unfold run in *. simpl List.map. simpl fold_left.
    rewrite (step_numbered nd st p Hc Hq Hl Hp), Ho.
    rewrite IH by assumption.
    unfold emit. simpl. rewrite <- app_assoc. reflexivity.
Qed.

(** X19. A run of numbered lines of any length, alone in a text, gives
    one ordered list: the opening fragment, one item per line with the
    inline-formatted text after the numeral, and the closing fragment.  The
    numerals themselves are dropped. *)
Theorem numbered_one_list (nd : N -> option N) (ps : list (str * str)) :
  ps <> [] -> Forall numbered_entry ps ->
  md_fragments nd (join [NL] (List.map numbered ps))
  = ustr "<ol>" :: List.map (fun p : str * str => list_item p.2) ps ++ [ustr "</ol>"].
Proof.
  intros Hne Hps. unfold md_fragments.
  rewrite split_on_join.
  2:{ destruct ps; [contradiction | discriminate]. }
  2:{ clear Hne. induction Hps as [|p rest Hp _ IH]; [constructor|].
      constructor; [apply (numbered_facts nd p Hp) | exact IH]. }
  destruct ps as [|p rest]; [contradiction|].
  apply Forall_cons in Hps as [Hp Hrest].
  unfold run. simpl List.map. simpl fold_left.
  rewrite (step_numbered nd init p eq_refl eq_refl eq_refl Hp).
  change (fold_left (step nd) (List.map numbered rest) ?st)
    with (run nd st (List.map numbered rest)).
  rewrite run_numbered by (reflexivity || exact Hrest).
  reflexivity.
Qed.

Lemma numbered_entries_check (ps : list (str * str)) :
  forallb is_numbered_entry ps = true -> Forall numbered_entry ps.
Proof.
  induction ps as [|p rest IH]; simpl; intros H; [constructor|].
  apply andb_true_iff in H as [H Hrest]. constructor; [|exact (IH Hrest)].
  apply andb_true_iff in H as [H Ho]. apply andb_true_iff in H as [H Hs].
  apply andb_true_iff in H as [H Ht]. apply andb_true_iff in H as [Hn Hd].
  split; [apply negb_true_iff, bool_decide_eq_false in Hn; exact Hn|].
  split; [apply (forallb_Forall is_ascii_digit); [trivial | exact Hd]|].
  split; [apply negb_true_iff, bool_decide_eq_false in Ht; exact Ht|].
  split; [apply bool_decide_eq_true in Hs; exact Hs | apply one_line_check, Ho].
Qed.

Lemma numbered_one_list_witness :
  md_fragments ascii_digits_only
    (join [NL] (List.map numbered
                  [(ustr "1", ustr "first"); (ustr "1", ustr "*second*");
                   (ustr "10", ustr "third")]))
  = ustr "<ol>"
    :: List.map (fun p : str * str => list_item p.2)
         [(ustr "1", ustr "first"); (ustr "1", ustr "*second*");
          (ustr "10", ustr "third")]
    ++ [ustr "</ol>"].
Proof.
  apply numbered_one_list; [discriminate|].
  apply numbered_entries_check. vm_compute. reflexivity.
Defined.
